(** * fract: the decision-and-execution control loop

    A shallow embedding of [fract/model/ewma.py] and [fract/model/base.py],
    with [_calc_units] of [fract/deprecated/base.py] and [close_positions]
    of [fract/trade/order.py].

    Conventions of the embedding.
    - A Python float is the rational it denotes ([Q]).  An operation on
      floats computes the exact result and rounds it to the nearest double
      ([fl]: 53 significant bits, ties to even, gradual underflow); results
      beyond the largest double are not modelled.  Where Python raises on a
      float operation (division by a zero float) the embedding raises too;
      an infinity or a NaN produced by the numeric library is a value of
      [npfloat] or an explicit [None].  The seconds of the logical clock
      are exact.
    - An attribute that an object may lack is an [option]; reading it when
      it is missing raises [AttributeError].
    - A Python exception is a value of [exn]; code that may raise returns a
      [result].
    - Dictionaries keyed by instrument name are [gmap string _], or
      association lists in insertion order where the code iterates over
      them.
    - The broker client is an oracle; a run leaves a trace of events, with a
      logical clock for [datetime.now()] and [time.sleep]. *)

From Stdlib Require Import QArith Qround Qabs ZArith Lia Lqa Qpower.
From stdpp Require Import gmap strings list pretty.

Local Open Scope Q_scope.

(** ** Python values that the code handles: exceptions and numbers *)

Inductive exn : Type :=
| KeyError (key : string)
| IndexError
| TypeError (msg : string)
| ValueError (msg : string)
| OverflowError (msg : string)
| ZeroDivisionError
| AttributeError (attr : string)
| FractRuntimeError (msg : string)
| BrokerError (msg : string).

Inductive result (A : Type) : Type :=
| Ok (a : A)
| Raise (e : exn).
Arguments Ok {A} a.
Arguments Raise {A} e.

Definition rbind {A B} (r : result A) (k : A -> result B) : result B :=
  match r with
  | Ok a => k a
  | Raise e => Raise e
  end.

Notation "'let?' x := r 'in' k" := (rbind r (fun x => k))
  (at level 10, x pattern, r at level 100, k at level 200).

(** [d[k]] on a dictionary. *)
Definition getitem {V} (d : gmap string V) (k : string) : result V :=
  match d !! k with
  | Some v => Ok v
  | None => Raise (KeyError k)
  end.

Definition Qltb (a b : Q) : bool := negb (Qle_bool b a).

(** *** Floating-point arithmetic *)

(** The nearest integer, a tie going to the even one. *)
Definition rne (q : Q) : Z :=
  let f := Qfloor q in
  match Qcompare (q - inject_Z f) (1 # 2) with
  | Lt => f
  | Gt => (f + 1)%Z
  | Eq => if Z.even f then f else (f + 1)%Z
  end.

Definition pow2 (e : Z) : Q := 2 ^ e.

(** The binade of a positive number: the [e] with [2^e <= q < 2^(e+1)]. *)
Definition binade (q : Q) : Z :=
  let g := (Z.log2 (Qnum q) - Z.log2 (Z.pos (Qden q)))%Z in
  if Qle_bool (pow2 g) q then g else (g - 1)%Z.

(** Rounding to the multiples of [2^s]. *)
Definition to_grid (s : Z) (q : Q) : Q :=
  inject_Z (rne (q / pow2 s)) * pow2 s.

(** The double nearest to a positive number: 53 significant bits, and no
    spacing below [2^-1074]. *)
Definition round_pos (q : Q) : Q :=
  to_grid (Z.max (binade q - 52) (-1074)) q.

(** The double nearest to a number. *)
Definition fl (q : Q) : Q :=
  match Qcompare q 0 with
  | Eq => 0
  | Gt => round_pos q
  | Lt => - round_pos (- q)
  end.

(** [a + b], [a - b] and [a * b] on floats. *)
Definition fadd (a b : Q) : Q := fl (a + b).
Definition fsub (a b : Q) : Q := fl (a - b).
Definition fmul (a b : Q) : Q := fl (a * b).

(** [a / b] on Python floats. *)
Definition truediv (a b : Q) : result Q :=
  if Qeq_bool b 0 then Raise ZeroDivisionError else Ok (fl (a / b)).

(** [int(x)]: truncation towards zero. *)
Definition py_int (x : Q) : Z := Z.quot (Qnum x) (Z.pos (Qden x)).

(** [np.ceil(x)], still a float. *)
Definition np_ceil (x : Q) : Q := inject_Z (Qceiling x).

(** The builtins [max(a, b)] and [min(a, b, c)]: the first extremal argument
    is the one returned. *)
Definition py_max (a b : Q) : Q := if Qltb a b then b else a.
Definition py_min (a b : Q) : Q := if Qltb b a then b else a.
Definition py_min3 (a b c : Q) : Q := py_min (py_min a b) c.

(** Values of the numeric library, which divides by zero without raising. *)
Inductive npfloat : Type :=
| Finite (q : Q)
| PosInf
| NegInf
| NaN.

Definition np_div (a b : Q) : npfloat :=
  if Qeq_bool b 0
  then (if Qltb 0 a then PosInf else if Qltb a 0 then NegInf else NaN)
  else Finite (fl (a / b)).

(** [int(x)] on a value of the numeric library. *)
Definition np_int (x : npfloat) : result Z :=
  match x with
  | Finite q => Ok (py_int q)
  | PosInf | NegInf =>
      Raise (OverflowError "cannot convert float infinity to integer")
  | NaN => Raise (ValueError "cannot convert float NaN to integer")
  end.

(** [np.float_power(b, e)] for a whole exponent. *)
Definition np_float_power (b : Q) (e : Z) : Q := fl (b ^ e).

(** [x * 2]. *)
Definition np_twice (x : npfloat) : npfloat :=
  match x with
  | Finite q => Finite (q * 2)
  | other => other
  end.

(** [x >= y]; every comparison with NaN is false. *)
Definition np_ge (x : npfloat) (y : Q) : bool :=
  match x with
  | Finite q => Qle_bool y q
  | PosInf => true
  | NegInf | NaN => false
  end.

(** Untyped values, for the places where the code builds dictionaries and
    sets with display expressions. *)
#[local] Unset Elimination Schemes.
Inductive pyval : Type :=
| PStr (s : string)
| PInt (z : Z)
| PFloat (q : Q)
| PDict (items : list (string * pyval))
| PSet (elems : list pyval).
#[local] Set Elimination Schemes.

Definition hashable (v : pyval) : bool :=
  match v with
  | PStr _ | PInt _ | PFloat _ => true
  | PDict _ | PSet _ => false
  end.

(** A set display [{e1, ..., en}]: every element must be hashable. *)
Definition set_display (elems : list pyval) : result pyval :=
  if forallb hashable elems then Ok (PSet elems)
  else Raise (TypeError "unhashable type: 'dict'").

(** [**v] inside a dictionary display: [v] must be a mapping. *)
Definition unpack_mapping (v : pyval) : result (list (string * pyval)) :=
  match v with
  | PDict items => Ok items
  | PSet _ => Raise (TypeError "'set' object is not a mapping")
  | _ => Raise (TypeError "object is not a mapping")
  end.

Fixpoint assoc {V} (k : string) (items : list (string * V)) : option V :=
  match items with
  | [] => None
  | (k', v) :: rest => if String.eqb k k' then Some v else assoc k rest
  end.

(** [v[k]] for a string key. *)
Definition subscript (v : pyval) (k : string) : result pyval :=
  match v with
  | PDict items =>
      match assoc k items with
      | Some x => Ok x
      | None => Raise (KeyError k)
      end
  | _ => Raise (TypeError "object is not subscriptable")
  end.

(** Dictionaries whose iteration order the code relies on: association lists
    in insertion order, with at most one entry per key. *)
Fixpoint od_set {V} (k : string) (v : V) (d : list (string * V))
    : list (string * V) :=
  match d with
  | [] => [(k, v)]
  | (k', v') :: rest =>
      if String.eqb k k' then (k, v) :: rest else (k', v') :: od_set k v rest
  end.

Definition od_getitem {V} (d : list (string * V)) (k : string) : result V :=
  match assoc k d with
  | Some v => Ok v
  | None => Raise (KeyError k)
  end.

(** [s.split(sep)]. *)
Fixpoint split (sep : Ascii.ascii) (s : string) : list string :=
  match s with
  | EmptyString => [EmptyString]
  | String c rest =>
      if Ascii.eqb c sep then EmptyString :: split sep rest
      else match split sep rest with
           | [] => [String c EmptyString]
           | w :: ws => String c w :: ws
           end
  end.

(** [l[n]] on a list. *)
Definition list_getitem {A} (l : list A) (n : nat) : result A :=
  match nth_error l n with
  | Some x => Ok x
  | None => Raise IndexError
  end.

Definition truthy {A} (o : option A) : bool :=
  match o with
  | Some _ => true
  | None => false
  end.

(** ** Data model *)

Inductive side : Type := long | short.

(** The values of [act] and [sig_act]; Python's [None] is [None]. *)
Inductive action : Type := Act (s : side) | closing.

Definition side_eqb (a b : side) : bool :=
  match a, b with
  | long, long | short, short => true
  | _, _ => false
  end.

Definition action_eqb (a b : action) : bool :=
  match a, b with
  | Act s, Act t => side_eqb s t
  | closing, closing => true
  | _, _ => false
  end.

(** An entry of [pos_dict]: [{'side': s, 'units': n}]. *)
Record position : Type := Position { pos_side : side; pos_units : Z }.

(** One row of a price frame (columns [ask], [bid], [volume]). *)
Record bar : Type := Bar { bar_ask : Q; bar_bid : Q; bar_volume : Q }.

(** [history_dict]: granularity name to price frame, in insertion order. *)
Definition history : Type := list (string * list bar).

(** ** [fract/model/ewma.py] *)

Module Ewma.

(** The dictionary returned by [LRFeatureSieve.extract_best_feature]. *)
Record best_feature : Type := BestFeature {
  series : list Q;
  granularity : string;
  granularity_str : string
}.

(** The dictionary returned by [_ewm_stats]; [ewmbb = None] is the band
    [[nan, nan]] obtained from a NaN standard deviation. *)
Record ewm_stats : Type := EwmStats {
  ewma : Q;
  ewmbb : option (Q * Q)
}.

(** The dictionary returned by [detect_signal], without its log string. *)
Record signal : Type := Signal {
  sig_act : option action;
  sig_granularity : string;
  sig_ewma : Q;
  sig_ewmbb : option (Q * Q)
}.

(** The exponentially weighted mean that [series.ewm(alpha=alpha).mean()]
    approximates with the library's defaults ([adjust=True]), in exact
    arithmetic: the weights of the observations are the powers of
    [1 - alpha], the most recent one having weight 1.  The pair is (weighted
    sum, sum of weights) after each observation.  The detector below takes
    the library's mean as a parameter; this one stands for it in the
    examples. *)
Definition ewm_step (alpha : Q) (acc : Q * Q) (x : Q) : Q * Q :=
  (x + (1 - alpha) * fst acc, 1 + (1 - alpha) * snd acc).

Definition ewm_sums (alpha : Q) (xs : list Q) : Q * Q :=
  fold_left (ewm_step alpha) xs (0, 0).

(** The exact mean after the last observation. *)
Definition ewm_mean_last (alpha : Q) (xs : list Q) : result Q :=
  if negb (Qltb 0 alpha && Qle_bool alpha 1)
  then Raise (ValueError "alpha must satisfy: 0 < alpha <= 1")
  else match xs with
       | [] => Raise IndexError
       | _ => let s := ewm_sums alpha xs in Ok (fst s / snd s)
       end.

Section Detector.

(** Configuration: [model.ewma.alpha] and [model.ewma.sigma_band]. *)
Variable alpha : Q.
Variable sigma_band : Q.

(** [LRFeatureSieve.extract_best_feature] lives in [sieve.py], which is not
    among the sources: the detector is parametric in it. *)
Variable extract_best_feature : history -> result best_feature.

(** [series.ewm(alpha=alpha).mean().iloc[-1]] and
    [series.ewm(alpha=alpha).std().iloc[-1]] of the numeric library, which
    is not among the sources: parameters.  The mean may raise (no
    observation); a standard deviation of [None] is NaN (fewer than two
    observations). *)
Variable ewm_mean : Q -> list Q -> result Q.
Variable ewm_std_last : Q -> list Q -> option Q.

(** [np.array([-1, 1]) * std * sigma_band + ewma], element by element. *)
Definition _ewm_stats (xs : list Q) : result ewm_stats :=
  let? m := ewm_mean alpha xs in
  let band :=
    match ewm_std_last alpha xs with
    | Some sd =>
        Some (fadd (fmul (fmul (-1) sd) sigma_band) m,
              fadd (fmul (fmul 1 sd) sigma_band) m)
    | None => None
    end in
  Ok {| ewma := m; ewmbb := band |}.

Definition detect_signal (history_dict : history) (pos : option position)
    (contrary : bool) : result signal :=
  let? best_f := extract_best_feature history_dict in
  let? sig_dict := _ewm_stats (series best_f) in
  let sig_side :=
    if Qltb (ewma sig_dict * (if contrary then -1 else 1)) 0
    then short else long in
  let act :=
    match ewmbb sig_dict with
    | Some (lo, hi) =>
        if Qltb hi 0 || Qltb 0 lo then Some (Act sig_side) else None
    | None => None
    end in
  Ok {| sig_act := act;
        sig_granularity := granularity best_f;
        sig_ewma := ewma sig_dict;
        sig_ewmbb := ewmbb sig_dict |}.

End Detector.

(** The band of a signal lies entirely above zero, entirely below zero, or
    straddles it. *)
Definition band_above (s : signal) : Prop :=
  exists lo hi, sig_ewmbb s = Some (lo, hi) /\ 0 < lo /\ 0 < hi.

Definition band_below (s : signal) : Prop :=
  exists lo hi, sig_ewmbb s = Some (lo, hi) /\ lo < 0 /\ hi < 0.

Definition band_straddles (s : signal) : Prop :=
  exists lo hi, sig_ewmbb s = Some (lo, hi) /\ lo <= 0 /\ 0 <= hi.

End Ewma.

(** ** [fract/model/base.py]: state of a trader *)

(** An element of [res.body['instruments']]. *)
Record instrument_info : Type := InstrumentInfo {
  inst_name : string;
  (** [None]: the object has no attribute [tradeable]. *)
  tradeable : option bool;
  maximumOrderUnits : Q;
  marginRate : Q;
  pipLocation : Z;
  minimumTrailingStopDistance : Q;
  maximumTrailingStopDistance : Q
}.

(** An entry of [__rate_dict]. *)
Record rate : Type := Rate { bid : Q; ask : Q }.

(** A row of [df_rate]. *)
Record rate_row : Type := RateRow {
  row_instrument : string;
  row_bid : Q;
  row_ask : Q
}.

(** A transaction; not every kind of transaction has an instrument or a
    realized profit. *)
Record transaction : Type := Transaction {
  txn_instrument : option string;
  txn_pl : option Q
}.

(** An entry of [__ptime_dict]: [{'time': t, 'units': units}]. *)
Record ptime : Type := PTime {
  pt_time : Q;
  pt_units : list (string * pyval)
}.

(** The part of the configuration [cf] that the trader reads. *)
Record config : Type := Config {
  preserve : Q;            (* position.margin_nav_ratio.preserve *)
  unit_ratio : Q;          (* position.margin_nav_ratio.unit *)
  init_ratio : Q;          (* position.margin_nav_ratio.init *)
  cf_trailing_stop : Q;    (* position.limit_price_ratio.trailing_stop *)
  cf_take_profit : Q;      (* position.limit_price_ratio.take_profit *)
  cf_stop_loss : Q;        (* position.limit_price_ratio.stop_loss *)
  max_spread : Q;          (* position.limit_price_ratio.max_spread *)
  ttl_sec : Q              (* position.ttl_sec *)
}.

(** The attributes of [TraderCore] and [BaseTrader].  [balance] and
    [margin_avail] are [None] until the first account refresh, which comes
    before any read of them; they are numbers here. *)
Record trader : Type := Trader {
  cf : config;
  account_id : string;
  instruments : list string;
  quiet : bool;
  dry_run : bool;
  order_log_path : option string;
  txn_log_path : option string;
  last_txn_id : option string;
  acc_currency : option string;
  pos_dict : gmap string position;
  balance : Q;
  margin_avail : Q;
  ptime_dict : list (string * ptime);
  txn_list : list transaction;
  inst_dict : list (string * instrument_info);
  rate_dict : gmap string rate;
  unit_costs : gmap string Q
}.

(** The objects a trader holds that are not defined in [base.py]. *)
Record collaborators : Type := Collaborators {
  (** [self.__bs.calculate_size_by_pl(unit_size, init_size, inst_txns)] of
      [bet.py], which is not among the sources. *)
  calculate_size_by_pl : Q -> Q -> list transaction -> result Q;
  (** [self.__ai.detect_signal(history_dict, pos)]. *)
  ai_detect_signal : history -> option position -> result Ewma.signal;
  (** [self._fetch_history_dict(instrument)]: the cached ticks and the
      candles fetched from the broker. *)
  fetch_history_dict : string -> result history;
  (** [np.float16(x)]: rounding to half precision. *)
  float16 : Q -> Q;
  (** The abstract methods [check_health()] and [make_decision(instrument)]
      of [BaseTrader]: they read and change the trader and take time. *)
  check_health : trader -> Q -> bool * trader * Q;
  make_decision : string -> trader -> Q -> result unit * trader * Q
}.

Definition set_snapshot (st : trader) (cur : option string)
    (b m : Q) (pd : gmap string position) (pt : list (string * ptime))
    : trader :=
  Trader (cf st) (account_id st) (instruments st) (quiet st) (dry_run st) (order_log_path st)
    (txn_log_path st) (last_txn_id st) cur pd b m pt (txn_list st)
    (inst_dict st) (rate_dict st) (unit_costs st).

Definition set_ptime_dict (st : trader) (pt : list (string * ptime))
    : trader :=
  set_snapshot st (acc_currency st) (balance st) (margin_avail st)
    (pos_dict st) pt.

Definition set_txns (st : trader) (last : option string)
    (txns : list transaction) : trader :=
  Trader (cf st) (account_id st) (instruments st) (quiet st) (dry_run st) (order_log_path st)
    (txn_log_path st) last (acc_currency st) (pos_dict st) (balance st)
    (margin_avail st) (ptime_dict st) txns (inst_dict st) (rate_dict st)
    (unit_costs st).

Definition set_inst_dict (st : trader) (d : list (string * instrument_info))
    : trader :=
  Trader (cf st) (account_id st) (instruments st) (quiet st) (dry_run st) (order_log_path st)
    (txn_log_path st) (last_txn_id st) (acc_currency st) (pos_dict st)
    (balance st) (margin_avail st) (ptime_dict st) (txn_list st) d
    (rate_dict st) (unit_costs st).

Definition set_rate_dict (st : trader) (d : gmap string rate) : trader :=
  Trader (cf st) (account_id st) (instruments st) (quiet st) (dry_run st) (order_log_path st)
    (txn_log_path st) (last_txn_id st) (acc_currency st) (pos_dict st)
    (balance st) (margin_avail st) (ptime_dict st) (txn_list st)
    (inst_dict st) d (unit_costs st).

Definition set_unit_costs (st : trader) (d : gmap string Q) : trader :=
  Trader (cf st) (account_id st) (instruments st) (quiet st) (dry_run st) (order_log_path st)
    (txn_log_path st) (last_txn_id st) (acc_currency st) (pos_dict st)
    (balance st) (margin_avail st) (ptime_dict st) (txn_list st)
    (inst_dict st) (rate_dict st) d.

(** The trader with another [preserve] in its configuration. *)
Definition set_preserve (st : trader) (p : Q) : trader :=
  Trader
    {| preserve := p; unit_ratio := unit_ratio (cf st);
       init_ratio := init_ratio (cf st);
       cf_trailing_stop := cf_trailing_stop (cf st);
       cf_take_profit := cf_take_profit (cf st);
       cf_stop_loss := cf_stop_loss (cf st);
       max_spread := max_spread (cf st); ttl_sec := ttl_sec (cf st) |}
    (account_id st) (instruments st) (quiet st) (dry_run st)
    (order_log_path st) (txn_log_path st) (last_txn_id st) (acc_currency st)
    (pos_dict st) (balance st) (margin_avail st) (ptime_dict st)
    (txn_list st) (inst_dict st) (rate_dict st) (unit_costs st).

Definition set_margin_avail (st : trader) (m : Q) : trader :=
  set_snapshot st (acc_currency st) (balance st) m (pos_dict st)
    (ptime_dict st).

Definition set_balance (st : trader) (b : Q) : trader :=
  set_snapshot st (acc_currency st) b (margin_avail st) (pos_dict st)
    (ptime_dict st).

(** ** Unit costs *)

(** The character ['_']. *)
Definition underscore : Ascii.ascii :=
  Ascii.Ascii true true true true true false true false.

(** [set(a) == set(b)] for lists of strings. *)
Definition same_set (a b : list string) : bool :=
  forallb (fun x => existsb (String.eqb x) b) a
  && forallb (fun x => existsb (String.eqb x) a) b.

Definition _calculate_bp_value (st : trader) (instrument : string)
    : result Q :=
  let cur_pair := split underscore instrument in
  let? c0 := list_getitem cur_pair 0 in
  let? cur :=
    match acc_currency st with
    | Some c => Ok c
    | None => Raise (AttributeError "currency")
    end in
  if String.eqb c0 cur then
    let? r := getitem (rate_dict st) instrument in
    truediv 1 (ask r)
  else
    let? c1 := list_getitem cur_pair 1 in
    if String.eqb c1 cur then
      let? r := getitem (rate_dict st) instrument in
      Ok (ask r)
    else
      let? inst_bpv :=
        list_getitem
          (List.filter (fun i => same_set (split underscore i) [c1; cur])
                       (map fst (inst_dict st))) 0 in
      let? r := getitem (rate_dict st) instrument in
      let? q1 := list_getitem (split underscore inst_bpv) 1 in
      if String.eqb q1 cur then
        let? r2 := getitem (rate_dict st) inst_bpv in
        Ok (fmul (ask r) (ask r2))
      else
        let? r2 := getitem (rate_dict st) inst_bpv in
        let? inv := truediv 1 (ask r2) in
        Ok (fmul (ask r) inv).

Definition unit_cost_step (st : trader) (acc : result (gmap string Q))
    (item : string * instrument_info) : result (gmap string Q) :=
  let? m := acc in
  if existsb (String.eqb (fst item)) (instruments st) then
    let? bpv := _calculate_bp_value st (fst item) in
    Ok (<[fst item := fmul bpv (marginRate (snd item))]> m)
  else Ok m.

Definition _refresh_unit_costs (st : trader) : result trader :=
  let? costs := fold_left (unit_cost_step st) (inst_dict st) (Ok ∅) in
  Ok (set_unit_costs st costs).

(** ** Order design *)

Definition side_sign (s : side) : Q :=
  match s with
  | long => 1
  | short => -1
  end.

(** The dictionary returned by [_design_order_limits]. *)
Record order_limits : Type := OrderLimits {
  take_profit_price : Q;
  stop_loss_price : Q;
  trailing_stop_distance : Q
}.

Definition _design_order_limits (E : collaborators) (st : trader)
    (instrument : string) (s : side) : result order_limits :=
  let? ie := od_getitem (inst_dict st) instrument in
  let? rt := getitem (rate_dict st) instrument in
  let r := match s with long => ask rt | short => bid rt end in
  let? ts_in_cf :=
    np_int (np_div (fmul (cf_trailing_stop (cf st)) r)
                   (np_float_power 10 (pipLocation ie))) in
  let trailing_stop :=
    py_min (py_max (inject_Z ts_in_cf) (minimumTrailingStopDistance ie))
           (maximumTrailingStopDistance ie) in
  Ok {| take_profit_price :=
          float16 E (fadd r (fmul r (cf_take_profit (cf st)) * side_sign s));
        stop_loss_price :=
          float16 E (fadd r (fmul r (cf_stop_loss (cf st)) * - side_sign s));
        trailing_stop_distance := trailing_stop |}.

(** [[t for t in self.__txn_list if t.instrument == instrument]]. *)
Fixpoint inst_txns_of (instrument : string) (txns : list transaction)
    : result (list transaction) :=
  match txns with
  | [] => Ok []
  | t :: rest =>
      match txn_instrument t with
      | None => Raise (AttributeError "instrument")
      | Some i =>
          let? keep := inst_txns_of instrument rest in
          Ok (if String.eqb i instrument then t :: keep else keep)
      end
  end.

(** The margin left once the reserve [balance * preserve] is set aside, as
    the code computes it. *)
Definition margin_headroom (st : trader) : Q :=
  fsub (margin_avail st) (fmul (balance st) (preserve (cf st))).

(** [sizes] and [bet_size] of [_design_order_units], for the unit cost
    [cost] of the instrument. *)
Definition bet_size (E : collaborators) (st : trader) (instrument : string)
    (cost : Q) : result Q :=
  let? qu := truediv (fmul (balance st) (unit_ratio (cf st))) cost in
  let? qi := truediv (fmul (balance st) (init_ratio (cf st))) cost in
  let? inst_txns := inst_txns_of instrument (txn_list st) in
  calculate_size_by_pl E (np_ceil qu) (np_ceil qi) inst_txns.

Definition _design_order_units (E : collaborators) (st : trader)
    (instrument : string) (s : side) : result Z :=
  let? ie := od_getitem (inst_dict st) instrument in
  let max_size := py_int (maximumOrderUnits ie) in
  let? cost := getitem (unit_costs st) instrument in
  let? q := truediv (margin_headroom st) cost in
  let avail_size := py_max (np_ceil q) 0 in
  let? bet := bet_size E st instrument cost in
  Ok (py_int (py_min3 bet avail_size (inject_Z max_size) * side_sign s)).

(** ** Health checks and the decision table *)

Definition _is_margin_lack (st : trader) (instrument : string) : bool :=
  negb (truthy (pos_dict st !! instrument))
  && Qle_bool (margin_avail st) (fmul (balance st) (preserve (cf st))).

(** The spread ratio of a rate row, as [_is_over_spread] computes it. *)
Definition spread_ratio (r : rate_row) : npfloat :=
  np_twice (np_div (fsub (row_ask r) (row_bid r))
                   (fadd (row_ask r) (row_bid r))).

Definition _is_over_spread (st : trader) (df_rate : list rate_row)
    : result bool :=
  match last df_rate with
  | Some r => Ok (np_ge (spread_ratio r) (max_spread (cf st)))
  | None => Raise IndexError
  end.

(** ['{:.1f}'.format(n)] for an integer [n]. *)
Definition format_1f (n : Z) : string := pretty n +:+ ".0".

(** The dictionary returned by [determine_sig_state], without its log
    string. *)
Record decision : Type := Decision {
  act : option action;
  state : string;
  sig : Ewma.signal
}.

Definition side_is (pos : option position) (s : side) : bool :=
  match pos with
  | Some p => side_eqb (pos_side p) s
  | None => false
  end.

Definition sig_act_is (sg : Ewma.signal) (a : action) : bool :=
  match Ewma.sig_act sg with
  | Some b => action_eqb b a
  | None => false
  end.

(** [pos_pct]: the holding as a percentage of the balance. *)
Definition pos_pct_of (st : trader) (i : string) (pos : option position)
    : result Z :=
  match pos with
  | Some p =>
      let? cost := getitem (unit_costs st) i in
      let? q := truediv (fmul (fmul (fl (inject_Z (Z.abs (pos_units p))))
                                    cost) 100)
                        (balance st) in
      Ok (py_int q)
  | None => Ok 0%Z
  end.

Definition determine_sig_state (E : collaborators) (st : trader)
    (df_rate : list rate_row) : result decision :=
  let? i := match last df_rate with
            | Some r => Ok (row_instrument r)
            | None => Raise IndexError
            end in
  let pos := pos_dict st !! i in
  let? pos_pct := pos_pct_of st i pos in
  let? history_dict := fetch_history_dict E i in
  let? sg := ai_detect_signal E history_dict pos in
  let? ie := od_getitem (inst_dict st) i in
  let? tradeable_ :=
    match tradeable ie with
    | Some b => Ok b
    | None => Raise (AttributeError "tradeable")
    end in
  let ret (a : option action) (s : string) := Ok (Decision a s sg) in
  if negb tradeable_ then ret None "TRADING HALTED"
  else if sig_act_is sg closing then ret (Some closing) "CLOSING"
  else if Z.eqb (py_int (balance st)) 0 then ret None "NO FUND"
  else if _is_margin_lack st i then ret None "LACK OF FUNDS"
  else
    let? over := _is_over_spread st df_rate in
    if over then ret None "OVER-SPREAD"
    else if sig_act_is sg (Act long) then
      if side_is pos long then ret None (format_1f pos_pct +:+ "% LONG")
      else if side_is pos short then ret (Some (Act long)) "SHORT -> LONG"
      else ret (Some (Act long)) "-> LONG"
    else if sig_act_is sg (Act short) then
      if side_is pos short then ret None (format_1f pos_pct +:+ "% SHORT")
      else if side_is pos long then ret (Some (Act short)) "LONG -> SHORT"
      else ret (Some (Act short)) "-> SHORT"
    else if side_is pos long then ret None (format_1f pos_pct +:+ "% LONG")
    else if side_is pos short then ret None (format_1f pos_pct +:+ "% SHORT")
    else ret None "-".

(** ** The broker client, the clock and the trace of a run *)

Record position_side : Type := PositionSide {
  ps_units : Z;
  ps_tradeIDs : list string
}.

Record account_position : Type := AccountPosition {
  ap_instrument : string;
  ap_long : position_side;
  ap_short : position_side
}.

(** [res.body['account']]. *)
Record account : Type := Account {
  acc_balance : Q;
  acc_marginAvailable : Q;
  currency : string;
  positions : list account_position
}.

(** The body of a transaction response. *)
Record txn_body : Type := TxnBody {
  lastTransactionID : string;
  transactions : option (list transaction)
}.

Record price : Type := Price {
  price_instrument : string;
  closeoutBid : Q;
  closeoutAsk : Q
}.

Inductive api_call : Type :=
| AccountGet
| TransactionSince (id : string)
| TransactionList
| AccountInstruments
| PricingGet (names : list string)
| PositionClose (args : list (string * pyval))
| OrderCreate (args : list (string * pyval)).

Inductive method : Type :=
| ExpirePositions
| MakeDecision (instrument : string).

(** What a run leaves behind, each with the time at which it happens where
    the time matters. *)
Inductive event : Type :=
| Api (t : Q) (c : api_call)
| Slept (t : Q) (secs : Q)
| Logged (msg : string)
| LoggedValue (v : pyval)
| Printed (msg : string)
| Written (path : string) (data : string)
| Entered (m : method).

(** The clock and the events so far, the most recent first. *)
Record world : Type := World { now : Q; log : list event }.


(** The broker client [self.__api]: what each call answers (or raises) in a
    given world, and how long a call takes. *)
Record broker : Type := Broker {
  account_get : world -> result account;
  transaction_since : world -> string -> result txn_body;
  transaction_list : world -> result txn_body;
  account_instruments : world -> result (list instrument_info);
  pricing_get : world -> list string -> result (list price);
  position_close : world -> list (string * pyval) -> result pyval;
  order_create : world -> list (string * pyval) -> result pyval;
  latency : world -> Q
}.

(** Computations that read and change the trader and the world and may
    raise; what was changed before an exception stays changed. *)
Definition M (A : Type) : Type := trader -> world -> result A * trader * world.

Definition ret {A} (a : A) : M A := fun st w => (Ok a, st, w).

Definition bind {A B} (m : M A) (k : A -> M B) : M B :=
  fun st w =>
    match m st w with
    | (Ok a, st1, w1) => k a st1 w1
    | (Raise e, st1, w1) => (Raise e, st1, w1)
    end.

Notation "'let!' x := m 'in' k" := (bind m (fun x => k))
  (at level 10, x pattern, m at level 100, k at level 200).

Definition lift {A} (r : result A) : M A := fun st w => (r, st, w).
Definition get : M trader := fun st w => (Ok st, st, w).
Definition put (st' : trader) : M unit := fun _ w => (Ok tt, st', w).
Definition clock : M Q := fun st w => (Ok (now w), st, w).

Definition emit (e : event) : M unit :=
  fun st w => (Ok tt, st, World (now w) (e :: log w)).

(** A call of the broker client. *)
Definition call {A} (B : broker) (c : api_call) (answer : world -> result A)
    : M A :=
  fun st w =>
    (answer w, st, World (now w + latency B w) (Api (now w) c :: log w)).

(** [time.sleep(secs)]. *)
Definition sleep (secs : Q) : M unit :=
  fun st w => (Ok tt, st, World (now w + secs) (Slept (now w) secs :: log w)).

(** [try: body / except Exception as e: handler(e) / else: orelse(r)]. *)
Definition try_except_else {A B} (body : M A) (handler : exn -> M B)
    (orelse : A -> M B) : M B :=
  fun st w =>
    match body st w with
    | (Ok a, st1, w1) => orelse a st1 w1
    | (Raise e, st1, w1) => handler e st1 w1
    end.

Fixpoint for_each {A} (l : list A) (body : A -> M unit) : M unit :=
  match l with
  | [] => ret tt
  | x :: rest => let! _ := body x in for_each rest body
  end.

(** [_sleep(last, sec)]. *)
Definition _sleep (last secs : Q) : M unit :=
  let! t := clock in
  let rest := secs - (t - last) in
  if Qltb 0 rest then sleep rest else ret tt.

Definition print_log (data : string) : M unit :=
  let! st := get in
  emit (if quiet st then Logged data else Printed data).

Definition _write_data (data path : string) : M unit :=
  emit (Written path data).

(** ** Refreshing the snapshot *)

Definition side_name (s : side) : string :=
  match s with
  | long => "long"
  | short => "short"
  end.

(** A position of [pos_dict] as the dictionary it is. *)
Definition position_dict (p : position) : pyval :=
  PDict [("side", PStr (side_name (pos_side p))); ("units", PInt (pos_units p))].

(** The entry of [pos_dict] for one position of the account, if it has
    trades on a side. *)
Definition pos_entry (d : account_position) : option position :=
  match ps_tradeIDs (ap_long d), ps_tradeIDs (ap_short d) with
  | _ :: _, _ => Some (Position long (ps_units (ap_long d)))
  | [], _ :: _ => Some (Position short (ps_units (ap_short d)))
  | [], [] => None
  end.

Definition pos_dict_of (ps : list account_position) : gmap string position :=
  fold_left
    (fun m d =>
       match pos_entry d with
       | Some p => <[ap_instrument d := p]> m
       | None => m
       end)
    ps ∅.

(** [{s: d[s]['units'] for s in sides}] for an entry [d] of [pos_dict]. *)
Definition units_by_side (d : position) : result (list (string * pyval)) :=
  let? dl := subscript (position_dict d) "long" in
  let? ul := subscript dl "units" in
  let? ds := subscript (position_dict d) "short" in
  let? us := subscript ds "units" in
  Ok [("long", ul); ("short", us)].

Fixpoint pyval_eqb (a b : pyval) {struct a} : bool :=
  match a, b with
  | PStr s, PStr t => String.eqb s t
  | PInt x, PInt y => Z.eqb x y
  | PFloat x, PFloat y => Qeq_bool x y
  | PDict xs, PDict ys =>
      (fix items_eqb (xs ys : list (string * pyval)) {struct xs} : bool :=
         match xs, ys with
         | [], [] => true
         | (k, v) :: xs', (k', v') :: ys' =>
             String.eqb k k' && pyval_eqb v v' && items_eqb xs' ys'
         | _, _ => false
         end) xs ys
  | PSet xs, PSet ys =>
      (fix elems_eqb (xs ys : list pyval) {struct xs} : bool :=
         match xs, ys with
         | [], [] => true
         | v :: xs', v' :: ys' => pyval_eqb v v' && elems_eqb xs' ys'
         | _, _ => false
         end) xs ys
  | _, _ => false
  end.

(** One turn of the loop over [pos_dict.items()] that stamps positions. *)
Definition stamp_position (t0 : list (string * ptime)) (dt_now : Q)
    (item : string * position) : M unit :=
  let! units := lift (units_by_side (snd item)) in
  let fresh :=
    match assoc (fst item) t0 with
    | Some old => negb (pyval_eqb (PDict (pt_units old)) (PDict units))
    | None => true
    end in
  if fresh then
    let! st := get in
    put (set_ptime_dict st
           (od_set (fst item) (PTime dt_now units) (ptime_dict st)))
  else ret tt.

Definition _refresh_account_dicts (B : broker) : M unit :=
  let! acc := call B AccountGet (account_get B) in
  let! _ := emit (Logged "response: account.get") in
  let! st := get in
  let t0 := ptime_dict st in
  let pd := pos_dict_of (positions acc) in
  let kept :=
    List.filter (fun e => truthy (pd !! fst e)) t0 in
  let! _ := put (set_snapshot st (Some (currency acc)) (acc_balance acc)
                   (acc_marginAvailable acc) pd kept) in
  let! dt_now := clock in
  for_each (map_to_list pd) (stamp_position t0 dt_now).

Definition _refresh_txn_list (B : broker) : M unit :=
  let! st := get in
  let! res :=
    match last_txn_id st with
    | Some id =>
        if String.eqb id EmptyString then call B TransactionList (transaction_list B)
        else call B (TransactionSince id)
                    (fun w => transaction_since B w id)
    | None => call B TransactionList (transaction_list B)
    end in
  let! _ := emit (Logged "response: transaction") in
  let! _ := put (set_txns st (Some (lastTransactionID res)) (txn_list st)) in
  match transactions res with
  | Some (t :: ts) =>
      let! _ := print_log "transactions" in
      let! st1 := get in
      let! _ := put (set_txns st1 (last_txn_id st1)
                       (txn_list st1 ++ t :: ts)) in
      match txn_log_path st1 with
      | Some path => _write_data "transactions" path
      | None => ret tt
      end
  | _ => ret tt
  end.

Definition _refresh_inst_dict (B : broker) : M unit :=
  let! cs := call B AccountInstruments (account_instruments B) in
  let! _ := emit (Logged "response: account.instruments") in
  let! st := get in
  put (set_inst_dict st
         (fold_left (fun d c => od_set (inst_name c) c d) cs [])).

Definition _refresh_rate_dict (B : broker) : M unit :=
  let! st := get in
  let names := map fst (inst_dict st) in
  let! ps := call B (PricingGet names) (fun w => pricing_get B w names) in
  let! _ := emit (Logged "response: pricing.get") in
  put (set_rate_dict st
         (fold_left
            (fun m p =>
               <[price_instrument p := Rate (closeoutBid p) (closeoutAsk p)]> m)
            ps ∅)).

Definition refresh_oanda_dicts (B : broker) : M unit :=
  let! t0 := clock in
  let! _ := _refresh_account_dicts B in
  let! _ := _sleep t0 (1 # 2) in
  let! _ := _refresh_txn_list B in
  let! _ := _sleep t0 1 in
  let! _ := _refresh_inst_dict B in
  let! _ := _sleep t0 (3 # 2) in
  let! _ := _refresh_rate_dict B in
  let! st := get in
  let! st' := lift (_refresh_unit_costs st) in
  put st'.

(** ** Placing orders *)

(** [key in self.pos_dict]. *)
Definition in_pos_dict (st : trader) (key : pyval) : result bool :=
  match key with
  | PStr i => Ok (truthy (pos_dict st !! i))
  | PInt _ | PFloat _ => Ok false
  | PDict _ => Raise (TypeError "unhashable type: 'dict'")
  | PSet _ => Raise (TypeError "unhashable type: 'set'")
  end.

(** The display that builds [f_args]:
    [{'accountID': ..., **kwargs, **{ ('ALL' if ... else 'NONE') if closing else dict() }}].
    The inner braces hold one expression and no colon: a set display. *)
Definition f_args_of (st : trader) (closing_ : bool)
    (kwargs : list (string * pyval)) : result (list (string * pyval)) :=
  let? elem :=
    if closing_ then
      let? i := match assoc "instrument" kwargs with
                | Some v => Ok v
                | None => Raise (KeyError "instrument")
                end in
      let? held := in_pos_dict st i in
      Ok (PStr (if held then "ALL" else "NONE"))
    else Ok (PDict []) in
  let? braces := set_display [elem] in
  let? extra := unpack_mapping braces in
  Ok (("accountID", PStr (account_id st)) :: kwargs ++ extra).

Definition exn_message (e : exn) : string :=
  match e with
  | KeyError k => "KeyError: " +:+ k
  | IndexError => "IndexError"
  | TypeError m => "TypeError: " +:+ m
  | ValueError m => "ValueError: " +:+ m
  | OverflowError m => "OverflowError: " +:+ m
  | ZeroDivisionError => "ZeroDivisionError"
  | AttributeError a => "AttributeError: " +:+ a
  | FractRuntimeError m => "FractRuntimeError: " +:+ m
  | BrokerError m => m
  end.

Definition _place_order (B : broker) (closing_ : bool)
    (kwargs : list (string * pyval)) : M unit :=
  let! st := get in
  let! f_args := lift (f_args_of st closing_ kwargs) in
  try_except_else
    (if dry_run st then
       ret (PDict [("func", PStr (if closing_ then "position.close"
                                  else "order.create"));
                   ("args", PDict f_args)])
     else if closing_ then
       call B (PositionClose f_args) (fun w => position_close B w f_args)
     else
       call B (OrderCreate f_args) (fun w => order_create B w f_args))
    (fun e =>
       let! _ := emit (Logged (exn_message e)) in
       match order_log_path st with
       | Some path => _write_data (exn_message e) path
       | None => ret tt
       end)
    (fun r =>
       if dry_run st then emit (LoggedValue r)
       else
         let! _ := emit (LoggedValue r) in
         match order_log_path st with
         | Some path => _write_data "response body" path
         | None => sleep (1 # 2)
         end).

Definition expire_position (B : broker) (ttl : Q) (item : string * ptime)
    : M unit :=
  let! t := clock in
  let es := t - pt_time (snd item) in
  let! _ := emit (Logged "sec elapsed") in
  if Qltb ttl es then
    let! _ := emit (Logged "Close a position") in
    _place_order B true [("instrument", PStr (fst item))]
  else ret tt.

Definition expire_positions (B : broker) (ttl : Q) : M unit :=
  let! _ := emit (Entered ExpirePositions) in
  let! st := get in
  for_each (ptime_dict st) (expire_position B ttl).

Definition order_of (instrument : string) (units : Z) (l : order_limits)
    : pyval :=
  let tif := ("timeInForce", PStr "GTC") in
  PDict [("type", PStr "MARKET"); ("instrument", PStr instrument);
         ("units", PInt units); tif; ("positionFill", PStr "DEFAULT");
         ("takeProfitOnFill", PDict [("price", PFloat (take_profit_price l)); tif]);
         ("stopLossOnFill", PDict [("price", PFloat (stop_loss_price l)); tif]);
         ("trailingStopLossOnFill",
          PDict [("distance", PFloat (trailing_stop_distance l)); tif])].

(** [act and pos and (act == 'closing' or act != pos['side'])]. *)
Definition must_close (a : option action) (pos : option position) : bool :=
  match a, pos with
  | Some a', Some p =>
      action_eqb a' closing || negb (action_eqb a' (Act (pos_side p)))
  | _, _ => false
  end.

Definition design_and_place_order (B : broker) (E : collaborators)
    (instrument : string) (a : option action) : M unit :=
  let! st := get in
  let pos := pos_dict st !! instrument in
  let! _ :=
    if must_close a pos then
      let! _ := emit (Logged "Close a position") in
      let! _ := _place_order B true [("instrument", PStr instrument)] in
      _refresh_txn_list B
    else ret tt in
  match a with
  | Some (Act s) =>
      let! st1 := get in
      let! limits := lift (_design_order_limits E st1 instrument s) in
      let! _ := emit (Logged "limits") in
      let! units := lift (_design_order_units E st1 instrument s) in
      let! _ := emit (Logged "units") in
      let! _ := emit (Logged ("Open a order: " +:+ side_name s)) in
      _place_order B false [("order", order_of instrument units limits)]
  | _ => ret tt
  end.

(** ** The control loop *)

Definition run_make_decision (E : collaborators) (i : string) : M unit :=
  fun st w =>
    let '(r, st', t') := make_decision E i st (now w) in
    (r, st', World t' (Entered (MakeDecision i) :: log w)).

Definition run_check_health (E : collaborators) : M bool :=
  fun st w =>
    let '(ok, st', t') := check_health E st (now w) in
    (Ok ok, st', World t' (log w)).

(** The body of the [while] loop of [invoke]. *)
Definition cycle (B : broker) (E : collaborators) : M unit :=
  let! st := get in
  let! _ := expire_positions B (ttl_sec (cf st)) in
  let! st1 := get in
  for_each (instruments st1)
    (fun i =>
       let! _ := refresh_oanda_dicts B in
       run_make_decision E i).

(** At most [fuel] turns of the loop; the answer tells whether the health
    check ended it. *)
Fixpoint invoke_loop (B : broker) (E : collaborators) (fuel : nat) : M bool :=
  match fuel with
  | O => ret false
  | S n =>
      let! healthy := run_check_health E in
      if healthy then
        let! _ := cycle B E in
        invoke_loop B E n
      else ret true
  end.

Definition invoke (B : broker) (E : collaborators) (fuel : nat) : M bool :=
  let! _ := print_log "!!! OPEN DEALS !!!" in
  invoke_loop B E fuel.

(** [BaseTrader.__init__]: the detector is chosen by the model name; its
    [contrary] argument keeps its default. *)
Definition base_trader_ai (model : string) (alpha sigma_band : Q)
    (extract_best_feature : history -> result Ewma.best_feature)
    (ewm_mean : Q -> list Q -> result Q)
    (ewm_std_last : Q -> list Q -> option Q)
    : result (history -> option position -> result Ewma.signal) :=
  if String.eqb model "ewma" then
    Ok (fun h pos =>
          Ewma.detect_signal alpha sigma_band extract_best_feature
            ewm_mean ewm_std_last h pos false)
  else Raise (FractRuntimeError ("invalid model name: " +:+ model)).

(** ** Inputs used in the examples *)

(** A feature sieve that answers a given series, and the standard deviation
    of a series that does not vary. *)
Definition fixed_sieve (xs : list Q) (h : history)
    : result Ewma.best_feature :=
  Ok (Ewma.BestFeature xs "S5" "S5").

Definition flat_std (alpha : Q) (xs : list Q) : option Q :=
  match xs with
  | [] | [_] => None
  | _ => Some 0
  end.

(** The detector of a trader built with model ['ewma'], [alpha = 0.5] and
    [sigma_band = 2], on a series that stays at [x]. *)
Definition flat_detector (x : Q) (h : history) (pos : option position)
    : result Ewma.signal :=
  Ewma.detect_signal (1 # 2) 2 (fixed_sieve [x; x]) Ewma.ewm_mean_last
    flat_std h pos false.

Definition no_signal : Ewma.signal := Ewma.Signal None EmptyString 0 None.

(** What the detector answers on a series that stays at 3, and on one that
    stays at -3 while a long position is open. *)
Definition signal_above : Ewma.signal :=
  Eval vm_compute in
    match flat_detector 3 [] None with
    | Ok sg => sg
    | Raise _ => no_signal
    end.

Definition signal_below : Ewma.signal :=
  Eval vm_compute in
    match flat_detector (-3) [] (Some (Position long 100)) with
    | Ok sg => sg
    | Raise _ => no_signal
    end.

(** A series that rises from 1 to 3.  With [alpha = 0.5] its weighted mean
    is 7/3 and its weighted standard deviation the square root of 2: the
    library answers the doubles nearest to them. *)
Definition swing_mean (alpha : Q) (xs : list Q) : result Q :=
  match xs with
  | [] => Raise IndexError
  | _ => Ok (fl (7 # 3))
  end.

Definition swing_std (alpha : Q) (xs : list Q) : option Q :=
  match xs with
  | [] | [_] => None
  | _ => Some (6369051672525773 # 4503599627370496)
  end.

(** The detector with [alpha = 0.5] and a band of [k] standard deviations on
    that series. *)
Definition swing_detector (k : Q) : result Ewma.signal :=
  Ewma.detect_signal (1 # 2) k (fixed_sieve [1; 3]) swing_mean swing_std
    [] None false.

(** What it answers with [sigma_band = 0.5] and with [sigma_band = -2]. *)
Definition swing_signal : Ewma.signal :=
  Eval vm_compute in
    match swing_detector (1 # 2) with
    | Ok sg => sg
    | Raise _ => no_signal
    end.

Definition swing_signal_inverted : Ewma.signal :=
  Eval vm_compute in
    match swing_detector (-2) with
    | Ok sg => sg
    | Raise _ => no_signal
    end.

(** Modelled from the spec: [BettingSystem.calculate_size_by_pl] of
    [fract/model/bet.py], which is not among the sources.  Starting from the
    initial size, each realized loss on the instrument scales the size by
    [multiplier], up to [cap], and a realized win resets it to the unit size;
    the transactions of the instrument are folded in chronological order. *)
Definition martingale_step (multiplier cap unit_size size : Q)
    (t : transaction) : Q :=
  match txn_pl t with
  | Some pl =>
      if Qltb pl 0 then py_min (size * multiplier) cap
      else if Qltb 0 pl then unit_size
      else size
  | None => size
  end.

(** Modelled from the spec: the fold of [martingale_step] that stands for
    [BettingSystem.calculate_size_by_pl], missing with [bet.py]. *)
Definition martingale (multiplier cap unit_size init_size : Q)
    (inst_txns : list transaction) : result Q :=
  Ok (fold_left (martingale_step multiplier cap unit_size) inst_txns init_size).

Definition example_collaborators : collaborators :=
  {| calculate_size_by_pl := martingale 2 1000;
     ai_detect_signal := flat_detector 3;
     fetch_history_dict := fun _ => Ok [];
     float16 := fun x => x;
     check_health := fun st t => (true, st, t);
     make_decision := fun _ st t => (Ok tt, st, t) |}.

(** The configuration of the examples: the doubles written 0.05, 0.2, 0.5,
    0.01 and 0.001. *)
Definition example_config : config :=
  {| preserve := fl (1 # 20); unit_ratio := fl (1 # 5); init_ratio := 1 # 2;
     cf_trailing_stop := fl (1 # 100); cf_take_profit := fl (1 # 100);
     cf_stop_loss := fl (1 # 100); max_spread := fl (1 # 1000);
     ttl_sec := 3600 |}.

(** An instrument as the broker library answers it, without attribute
    [tradeable], and the same with the attribute set. *)
Definition plain_eur_usd : instrument_info :=
  {| inst_name := "EUR_USD"; tradeable := None; maximumOrderUnits := 1000;
     marginRate := fl (1 # 25); pipLocation := (-4)%Z;
     minimumTrailingStopDistance := 5; maximumTrailingStopDistance := 100 |}.

Definition eur_usd : instrument_info :=
  {| inst_name := "EUR_USD"; tradeable := Some true;
     maximumOrderUnits := 1000;
     marginRate := fl (1 # 25); pipLocation := (-4)%Z;
     minimumTrailingStopDistance := 5; maximumTrailingStopDistance := 100 |}.

(** A flat account in USD: balance 1000, available margin 200, a unit of
    EUR_USD costing 100 of margin, and no transaction so far. *)
Definition example_trader : trader :=
  {| cf := example_config; account_id := "001"; instruments := ["EUR_USD"];
     quiet := false; dry_run := false;
     order_log_path := None; txn_log_path := None;
     last_txn_id := None; acc_currency := Some "USD";
     pos_dict := ∅; balance := 1000; margin_avail := 200;
     ptime_dict := []; txn_list := [];
     inst_dict := [("EUR_USD", eur_usd)];
     rate_dict := {["EUR_USD" := Rate (fl (11 # 10)) (fl (11 # 10))]};
     unit_costs := {["EUR_USD" := 100]} |}.

(** The same account holding 100 units long, with a balance of zero. *)
Definition zero_balance_trader : trader :=
  set_snapshot example_trader (Some "USD") 0 200
    {["EUR_USD" := Position long 100]} [].

(** The same account with the instrument as the broker library answers
    it. *)
Definition plain_trader : trader :=
  set_inst_dict example_trader [("EUR_USD", plain_eur_usd)].

(** An account with a balance of 43758.77 and an available margin of
    2867.0085, and a unit cost of 97.01 for EUR_USD. *)
Definition rounding_trader : trader :=
  set_unit_costs
    (set_snapshot example_trader (Some "USD") (fl (4375877 # 100))
       (fl (28670085 # 10000)) ∅ [])
    {["EUR_USD" := fl (9701 # 100)]}.

(** A flat account with a balance of 10, an available margin of 3 and a
    reserve of 0.3. *)
Definition boundary_trader : trader :=
  set_preserve (set_snapshot example_trader (Some "USD") 10 3 ∅ [])
    (fl (3 # 10)).

(** A rate frame whose last row has bid 999 and ask 1001: a spread ratio of
    0.002. *)
Definition wide_rates : list rate_row := [RateRow "EUR_USD" 999 1001].

(** ** The band in the words of the specification *)

(** The band [estimate ± sigma_band * std], in doubles: its half width,
    and its two ends. *)
Definition stated_half_width (sigma_band sd : Q) : Q := fmul sd sigma_band.

Definition stated_band (m sigma_band sd : Q) : Q * Q :=
  (fsub m (stated_half_width sigma_band sd),
   fadd m (stated_half_width sigma_band sd)).

(** The interval from [a] to [b] (in either order) lies above zero, lies
    below zero, or contains zero. *)
Definition interval_above (a b : Q) : Prop := 0 < a /\ 0 < b.
Definition interval_below (a b : Q) : Prop := a < 0 /\ b < 0.
Definition interval_straddles (a b : Q) : Prop :=
  (a <= 0 /\ 0 <= b) \/ (b <= 0 /\ 0 <= a).

(** ** The decision table in the words of the specification *)



Definition holding_label (pct : Z) (held : side) : string :=
  match held with
  | long => format_1f pct +:+ "% LONG"
  | short => format_1f pct +:+ "% SHORT"
  end.

(** The rules in their order of priority; the first that matches decides. *)
Definition transition_table
    (tradingHalted closingSignal noFunds marginLack overSpread : bool)
    (signal held : option side) (pct : Z) : option action * string :=
  if tradingHalted then (None, "TRADING HALTED")
  else if closingSignal then (Some closing, "CLOSING")
  else if noFunds then (None, "NO FUND")
  else if marginLack then (None, "LACK OF FUNDS")
  else if overSpread then (None, "OVER-SPREAD")
  else
    match signal, held with
    | Some long, Some long => (None, holding_label pct long)
    | Some long, Some short => (Some (Act long), "SHORT -> LONG")
    | Some long, None => (Some (Act long), "-> LONG")
    | Some short, Some short => (None, holding_label pct short)
    | Some short, Some long => (Some (Act short), "LONG -> SHORT")
    | Some short, None => (Some (Act short), "-> SHORT")
    | None, Some s => (None, holding_label pct s)
    | None, None => (None, "-")
    end.

Definition directional (sg : Ewma.signal) : option side :=
  match Ewma.sig_act sg with
  | Some (Act s) => Some s
  | _ => None
  end.

(** ** The steps of a run *)

(** The events that matter for the order of a cycle. *)
Inductive step : Type :=
| SSweep
| SAccount
| STransactions
| SInstruments
| SRates
| SClose
| SOpen
| SDecide (instrument : string).

Definition step_of (e : event) : option step :=
  match e with
  | Api _ AccountGet => Some SAccount
  | Api _ (TransactionSince _) | Api _ TransactionList => Some STransactions
  | Api _ AccountInstruments => Some SInstruments
  | Api _ (PricingGet _) => Some SRates
  | Api _ (PositionClose _) => Some SClose
  | Api _ (OrderCreate _) => Some SOpen
  | Entered ExpirePositions => Some SSweep
  | Entered (MakeDecision i) => Some (SDecide i)
  | _ => None
  end.

Definition steps (tr : list event) : list step := omap step_of tr.

(** The events of a run from [w] to [w'], in the order they happen. *)
Definition events_between (w w' : world) (tr : list event) : Prop :=
  log w' = rev tr ++ log w.




(** The spacing of the calls of a refresh: counted from the account call,
    the transactions are asked for no earlier than 0.5 s later, the
    instruments 1 s and the rates 1.5 s. *)
Definition api_of (e : event) : option (Q * api_call) :=
  match e with
  | Api t c => Some (t, c)
  | _ => None
  end.




(** ** A broker for the examples *)

Definition usd_jpy : instrument_info :=
  {| inst_name := "USD_JPY"; tradeable := Some true;
     maximumOrderUnits := 1000;
     marginRate := fl (1 # 25); pipLocation := (-2)%Z;
     minimumTrailingStopDistance := 5; maximumTrailingStopDistance := 100 |}.

(** A broker that answers every call in 0.1 s: a flat account, no new
    transaction, two instruments and their prices. *)
Definition example_broker : broker :=
  {| account_get := fun _ => Ok (Account 1000 200 "USD" []);
     transaction_since := fun _ _ => Ok (TxnBody "10" None);
     transaction_list := fun _ => Ok (TxnBody "10" None);
     account_instruments := fun _ => Ok [eur_usd; usd_jpy];
     pricing_get := fun _ _ =>
       Ok [Price "EUR_USD" (fl (11 # 10)) (fl (11 # 10));
           Price "USD_JPY" 150 150];
     position_close := fun _ _ => Ok (PDict []);
     order_create := fun _ _ => Ok (PDict []);
     latency := fun _ => 1 # 10 |}.

Definition start_world : world := World 0 [].

(** The example trader with two instruments configured, as it is built:
    nothing fetched yet. *)
Definition fresh_trader : trader :=
  {| cf := example_config; account_id := "001";
     instruments := ["EUR_USD"; "USD_JPY"];
     quiet := false; dry_run := false;
     order_log_path := None; txn_log_path := None;
     last_txn_id := None; acc_currency := None;
     pos_dict := ∅; balance := 0; margin_avail := 0;
     ptime_dict := []; txn_list := [];
     inst_dict := []; rate_dict := ∅; unit_costs := ∅ |}.

(** The example trader holding 100 units of EUR_USD long. *)
Definition long_trader : trader :=
  set_snapshot example_trader (Some "USD") 1000 200
    {["EUR_USD" := Position long 100]} [].


(** [l'] is [l] with events on top that are no steps. *)
Inductive silently_extends (l : list event) : list event -> Prop :=
| se_refl : silently_extends l l
| se_cons e l' :
    step_of e = None -> silently_extends l l' -> silently_extends l (e :: l').

(** A run from [w] to [w'] that takes the steps [ss] and makes the broker
    calls [calls]. *)
Definition run_spec (w w' : world) (ss : list step)
    (calls : list (Q * api_call)) : Prop :=
  exists tr, events_between w w' tr /\ steps tr = ss /\ omap api_of tr = calls.


(** A rate frame whose last row has bid and ask at 1.1: no spread. *)
Definition tight_rates : list rate_row :=
  [RateRow "EUR_USD" (fl (11 # 10)) (fl (11 # 10))].

(** The example trader with a unit cost of zero for EUR_USD. *)
Definition costless_trader : trader :=
  set_unit_costs example_trader {["EUR_USD" := 0]}.

(** The example trader with all its margin in reserve. *)
Definition reserved_trader : trader := set_margin_avail example_trader 50.

(** The string holds no ['_']. *)
Fixpoint no_underscore (s : string) : bool :=
  match s with
  | EmptyString => true
  | String c rest => negb (Ascii.eqb c underscore) && no_underscore rest
  end.

(** The example trader before any account was fetched. *)
Definition unfetched_trader : trader :=
  set_snapshot example_trader None 1000 200 ∅ [].

(** The example trader with a stamp for its position taken at time 0. *)
Definition stamped_trader : trader :=
  set_ptime_dict long_trader
    [("EUR_USD", PTime 0 [("long", PInt 100); ("short", PInt 0)])].

(** A world whose clock shows 100 s. *)
Definition late_world : world := World 100 [].

(** A broker like the example one whose account holds 100 units of EUR_USD
    long. *)
Definition holding_broker : broker :=
  {| account_get := fun _ =>
       Ok (Account 1000 200 "USD"
             [AccountPosition "EUR_USD" (PositionSide 100 ["7"])
                (PositionSide 0 [])]);
     transaction_since := transaction_since example_broker;
     transaction_list := transaction_list example_broker;
     account_instruments := account_instruments example_broker;
     pricing_get := pricing_get example_broker;
     position_close := position_close example_broker;
     order_create := order_create example_broker;
     latency := latency example_broker |}.

(** The run of one refresh of the fresh trader. *)
Definition fresh_refresh_run : result unit * trader * world :=
  refresh_oanda_dicts example_broker fresh_trader start_world.



(** The sweep of the stamped trader at 100 s with a time to live of 50 s. *)
Definition late_sweep_run : result unit * trader * world :=
  expire_positions example_broker 50 stamped_trader late_world.

(** The run of an order to open a long position of the flat example
    trader. *)
Definition open_long_run : result unit * trader * world :=
  design_and_place_order example_broker example_collaborators "EUR_USD"
    (Some (Act long)) example_trader start_world.

(** Collaborators whose health check fails from 1 s on. *)
Definition tired_collaborators : collaborators :=
  {| calculate_size_by_pl := calculate_size_by_pl example_collaborators;
     ai_detect_signal := ai_detect_signal example_collaborators;
     fetch_history_dict := fetch_history_dict example_collaborators;
     float16 := float16 example_collaborators;
     check_health := fun st t => (Qltb t 1, st, t);
     make_decision := make_decision example_collaborators |}.

(** The run of the fresh trader until its health check fails. *)
Definition tired_run : result bool * trader * world :=
  invoke example_broker tired_collaborators 5 fresh_trader start_world.

(** The other direction; [closing] has none. *)
Definition opposite (a : action) : action :=
  match a with
  | Act long => Act short
  | Act short => Act long
  | closing => closing
  end.

(** A standard deviation of one, whatever the series. *)
Definition unit_std (alpha : Q) (xs : list Q) : option Q := Some 1.

(** What the detector answers with [sigma_band = -2] on a series that stays
    at zero and has a standard deviation of one. *)
Definition inverted_band_signal : Ewma.signal :=
  Eval vm_compute in
    match Ewma.detect_signal (1 # 2) (-2) (fixed_sieve [0; 0])
            Ewma.ewm_mean_last unit_std [] None false with
    | Ok sg => sg
    | Raise _ => no_signal
    end.

(** An account in USD that trades the cross pair EUR_JPY: its quote currency
    is converted through USD_JPY. *)
Definition cross_trader : trader :=
  {| cf := example_config; account_id := "001"; instruments := ["EUR_JPY"];
     quiet := false; dry_run := false;
     order_log_path := None; txn_log_path := None;
     last_txn_id := None; acc_currency := Some "USD";
     pos_dict := ∅; balance := 1000; margin_avail := 200;
     ptime_dict := []; txn_list := [];
     inst_dict := [("EUR_JPY", eur_usd); ("USD_JPY", usd_jpy)];
     rate_dict := {["EUR_JPY" := Rate 160 160; "USD_JPY" := Rate 150 150]};
     unit_costs := ∅ |}.

(** ** The cache of rates of [BaseTrader] *)

(** [df.tail(n)]: the last [n] rows; no row for [n = 0]; all rows but the
    first [-n] for a negative [n]. *)
Definition df_tail {A} (n : Z) (l : list A) : list A :=
  if Z.eqb n 0 then []
  else if Z.ltb 0 n then drop (length l - Z.to_nat n) l
  else drop (Z.to_nat (- n)) l.

(** [update_caches(df_rate)] on the frames [self.__cache_dfs] (a frame is
    the list of its rows) with [n_cache = self.__n_cache]; what it logs is
    left out. *)
Definition update_caches (n_cache : Z) (caches : gmap string (list rate_row))
    (df_rate : list rate_row) : result (gmap string (list rate_row)) :=
  let? i := match last df_rate with
            | Some r => Ok (row_instrument r)
            | None => Raise IndexError
            end in
  let? old := getitem caches i in
  Ok (<[i := df_tail n_cache (old ++ df_rate)]> caches).

(** A cache of two rows for EUR_USD, and a frame of two new rows. *)
Definition example_caches : gmap string (list rate_row) :=
  {["EUR_USD" := [RateRow "EUR_USD" 1 2; RateRow "EUR_USD" 2 3]]}.

Definition new_rates : list rate_row :=
  [RateRow "EUR_USD" 3 4; RateRow "EUR_USD" 4 5].

(** ** [fract/deprecated/base.py]: the size of an order *)

Module Deprecated.

(** What [_get_rate] answers for an instrument, as far as [_calc_units]
    reads it. *)
Record rate_info : Type := RateInfo {
  ri_instrument : string;
  ri_marginRate : Q;
  ri_maxTradeUnits : Z
}.

(** An entry of the dictionary built by [_get_prices]. *)
Record quote : Type := Quote { q_bid : Q; q_ask : Q; q_spread : Q }.

(** The dictionary built by [_get_margin]; its [total] is not read. *)
Record margin : Type := Margin { avail : Q; used : Q }.

(** The attributes of [FractTrader] that [_calc_units] reads. *)
Record fract_trader : Type := FractTrader {
  account_currency : string;
  margin_ratio : gmap string Q;
  tradable_instruments : list string
}.

(** [prices[inst]['ask']]. *)
Definition ask_of (prices : gmap string quote) (inst : string) : result Q :=
  let? p := getitem prices inst in
  Ok (q_ask p).

(** The first half of [_calc_units]: the price [bp] of a unit of the
    instrument in the account currency. *)
Definition calc_bp (T : fract_trader) (inst : string)
    (prices : gmap string quote) : result Q :=
  let cur_pair := split underscore inst in
  let? c0 := list_getitem cur_pair 0 in
  if String.eqb c0 (account_currency T) then
    let? a := ask_of prices inst in
    truediv 1 a
  else
    let? c1 := list_getitem cur_pair 1 in
    if String.eqb c1 (account_currency T) then ask_of prices inst
    else
      let tradable n := existsb (String.eqb n) (tradable_instruments T) in
      let n0 := c1 +:+ "_" +:+ account_currency T in
      let n1 := account_currency T +:+ "_" +:+ c1 in
      if tradable n0 then
        let? a := ask_of prices inst in
        let? b := ask_of prices n0 in
        Ok (fmul a b)
      else if tradable n1 then
        let? a := ask_of prices inst in
        let? b := ask_of prices n1 in
        truediv a b
      else Raise (FractRuntimeError "invalid instruments").

Section Units.

(** [np.int32(x)] on a whole float: the conversion of the numeric library;
    what it gives outside the range of 32-bit integers is left to the
    platform. *)
Variable np_int32 : Z -> Z.

Definition _calc_units (T : fract_trader) (rate : rate_info)
    (prices : gmap string quote) (m : margin) : result Z :=
  let? bp := calc_bp T (ri_instrument rate) prices in
  let mg := (fun v => fmul v (fadd (avail m) (used m))) <$> margin_ratio T in
  let mg_per_unit := fmul bp (ri_marginRate rate) in
  let? ticket := getitem mg "ticket" in
  let? pres := getitem mg "preserve" in
  if Qltb ticket (fsub (avail m) pres) then
    let? q := truediv ticket mg_per_unit in
    let units := np_int32 (Qfloor q) in
    Ok (if Z.leb units (ri_maxTradeUnits rate) then units
        else ri_maxTradeUnits rate)
  else Ok 0%Z.

End Units.

End Deprecated.

(** A trader of the deprecated kind with an account in USD, a ticket of 1 %
    and a reserve of 4 % of the total margin; EUR_USD at 1.1 with a margin
    rate of 4 %; a margin of 1000, all of it available. *)
Definition old_trader : Deprecated.fract_trader :=
  {| Deprecated.account_currency := "USD";
     Deprecated.margin_ratio :=
       {["ticket" := fl (1 # 100); "preserve" := fl (1 # 25)]};
     Deprecated.tradable_instruments := ["EUR_USD"] |}.

Definition old_rate : Deprecated.rate_info :=
  Deprecated.RateInfo "EUR_USD" (fl (1 # 25)) 1000.

Definition old_prices : gmap string Deprecated.quote :=
  {["EUR_USD" := Deprecated.Quote (fl (11 # 10)) (fl (11 # 10)) 0]}.

Definition old_margin : Deprecated.margin := Deprecated.Margin 1000 0.

(** ** [fract/trade/order.py] *)

Module Order.

(** What a run of the command leaves behind: a call of [get_positions], a
    call of [close_position] for an instrument (whether it answers or
    raises), a line printed.  What is logged is left out. *)
Inductive event : Type :=
| GotPositions
| Closed (instrument : string)
| Printed (msg : string).

(** The client [oandapy.API]: the instruments of the positions that
    [get_positions] reports, and what [close_position] answers, given the
    events so far (the most recent first). *)
Record client : Type := Client {
  get_positions : list event -> result (list string);
  close_position : list event -> string -> result unit
}.

(** The list comprehension over [insts]: it stops at the first call that
    raises. *)
Fixpoint close_each (A : client) (insts : list string) (tr : list event)
    : result unit * list event :=
  match insts with
  | [] => (Ok tt, tr)
  | i :: rest =>
      match close_position A tr i with
      | Ok _ => close_each A rest (Closed i :: tr)
      | Raise e => (Raise e, Closed i :: tr)
      end
  end.

Section ClosePositions.

(** The order in which a [set] built from a list is iterated. *)
Variable set_order : list string -> list string.

Definition close_positions (A : client) (instruments : list string)
    : result unit * list event :=
  let '(insts, tr) :=
    match instruments with
    | _ :: _ => (Ok (set_order instruments), [])
    | [] =>
        (match get_positions A [] with
         | Ok ps => Ok (set_order ps)
         | Raise e => Raise e
         end, [GotPositions])
    end in
  match insts with
  | Raise e => (Raise e, tr)
  | Ok [] => (Ok tt, Printed "No positions to close." :: tr)
  | Ok (i :: rest) =>
      match close_each A (i :: rest) tr with
      | (Ok _, tr') => (Ok tt, Printed "All the positions closed." :: tr')
      | (Raise e, tr') => (Raise e, tr')
      end
  end.

End ClosePositions.

End Order.

(** A client whose calls all succeed and whose account holds positions in
    two instruments. *)
Definition easy_api : Order.client :=
  {| Order.get_positions := fun _ => Ok ["EUR_USD"; "USD_JPY"];
     Order.close_position := fun _ _ => Ok tt |}.

(** A client that refuses to close any position. *)
Definition failing_api : Order.client :=
  {| Order.get_positions := fun _ => Ok ["EUR_USD"; "USD_JPY"];
     Order.close_position := fun _ _ => Raise (BrokerError "rejected") |}.

(** * Properties *)

(** ** Numbers *)

Lemma Qltb_lt a b : Qltb a b = true <-> a < b.
Proof.
  unfold Qltb. rewrite negb_true_iff. split.
  - intros H. apply Qnot_le_lt. intros Hle.
    apply Qle_bool_iff in Hle. congruence.
  - intros H. destruct (Qle_bool b a) eqn:E; [|reflexivity].
    apply Qle_bool_iff in E. exfalso. apply (Qlt_not_le _ _ H E).
Qed.

Lemma Qltb_ge a b : Qltb a b = false <-> b <= a.
Proof.
  unfold Qltb. rewrite negb_false_iff. apply Qle_bool_iff.
Qed.

(** ** Rounding to the nearest double *)

Lemma rne_cases q : rne q = Qfloor q \/ rne q = (Qfloor q + 1)%Z.
Proof.
  unfold rne. destruct (Qcompare _ _); [destruct (Z.even _)| |]; auto.
Qed.

Lemma rne_mono a b : a <= b -> (rne a <= rne b)%Z.
Proof.
  intros H. pose proof (Qfloor_resp_le _ _ H) as Hf.
  destruct (Z.eq_dec (Qfloor a) (Qfloor b)) as [E|N].
  - unfold rne. rewrite E.
    destruct (Qcompare (a - inject_Z (Qfloor b)) (1 # 2)) eqn:Ca;
      destruct (Qcompare (b - inject_Z (Qfloor b)) (1 # 2)) eqn:Cb;
      try (destruct (Z.even (Qfloor b))); try lia;
      first [apply Qeq_alt in Ca | apply Qlt_alt in Ca | apply Qgt_alt in Ca];
      first [apply Qeq_alt in Cb | apply Qlt_alt in Cb | apply Qgt_alt in Cb];
      exfalso; lra.
  - destruct (rne_cases a) as [-> | ->], (rne_cases b) as [-> | ->]; lia.
Qed.

Lemma rne_Z z : rne (inject_Z z) = z.
Proof.
  unfold rne. rewrite Qfloor_Z.
  assert (H : Qcompare (inject_Z z - inject_Z z) (1 # 2) = Lt).
  { apply (proj1 (Qlt_alt _ _)). lra. }
  now rewrite H.
Qed.

Lemma rne_comp a b : a == b -> rne a = rne b.
Proof.
  intros H. apply Z.le_antisymm; apply rne_mono; rewrite H; apply Qle_refl.
Qed.

(** Rounding moves a number by at most one half. *)
Lemma rne_err q : inject_Z (rne q) <= q + (1 # 2) /\ q - (1 # 2) <= inject_Z (rne q).
Proof.
  pose proof (Qfloor_le q) as Hl. pose proof (Qlt_floor q) as Hu.
  rewrite inject_Z_plus in Hu. change (inject_Z 1) with 1 in Hu.
  unfold rne.
  destruct (Qcompare (q - inject_Z (Qfloor q)) (1 # 2)) eqn:C.
  - apply Qeq_alt in C. destruct (Z.even (Qfloor q));
      rewrite ?inject_Z_plus; change (inject_Z 1) with 1; lra.
  - apply Qlt_alt in C. lra.
  - apply Qgt_alt in C. rewrite inject_Z_plus. change (inject_Z 1) with 1. lra.
Qed.

Lemma pow2_pos e : 0 < pow2 e.
Proof. apply Qpower_0_lt. reflexivity. Qed.

Lemma pow2_plus a b : pow2 (a + b) == pow2 a * pow2 b.
Proof. apply Qpower_plus. discriminate. Qed.

Lemma pow2_le a b : (a <= b)%Z -> pow2 a <= pow2 b.
Proof. intros H. apply Qpower_le_compat_l; [exact H | discriminate]. Qed.

Lemma pow2_lt a b : (a < b)%Z -> pow2 a < pow2 b.
Proof. intros H. apply Qpower_lt_compat_l; [exact H | reflexivity]. Qed.

Lemma pow2_lt_inv a b : pow2 a < pow2 b -> (a < b)%Z.
Proof. intros H. apply (Qpower_lt_compat_l_inv 2); [exact H | reflexivity]. Qed.

Lemma pow2_Z e : (0 <= e)%Z -> pow2 e == inject_Z (2 ^ e).
Proof. intros H. unfold pow2. now rewrite Zpower_Qpower. Qed.

(** A positive integer lies between two powers of two. *)
Lemma log2_bounds (n : Z) :
  (0 < n)%Z ->
  pow2 (Z.log2 n) <= inject_Z n /\ inject_Z n < pow2 (Z.log2 n + 1).
Proof.
  intros Hn. destruct (Z.log2_spec n Hn) as [Hl Hu].
  pose proof (Z.log2_nonneg n) as H0.
  rewrite !pow2_Z by lia. rewrite <- Zle_Qle, <- Zlt_Qlt.
  replace (Z.log2 n + 1)%Z with (Z.succ (Z.log2 n)) by lia. split; assumption.
Qed.

Lemma binade_spec q :
  0 < q -> pow2 (binade q) <= q /\ q < pow2 (binade q + 1).
Proof.
  intros Hq. destruct q as [n d]. unfold binade. cbn [Qnum Qden].
  assert (Hn : (0 < n)%Z).
  { unfold Qlt in Hq. cbn in Hq. lia. }
  destruct (log2_bounds n Hn) as [Hnl Hnu].
  destruct (log2_bounds (Z.pos d) eq_refl) as [Hdl Hdu].
  set (a := Z.log2 n) in *. set (b := Z.log2 (Z.pos d)) in *.
  assert (Hqd : n # d == inject_Z n / inject_Z (Z.pos d)) by apply Qmake_Qdiv.
  assert (Hd0 : 0 < inject_Z (Z.pos d)) by reflexivity.
  pose proof (pow2_pos a) as Pa. pose proof (pow2_pos b) as Pb.
  pose proof (pow2_pos (a - b)) as Pg.
  assert (Hup : n # d < pow2 (a - b + 1)).
  { rewrite Hqd. apply Qlt_shift_div_r; [exact Hd0|].
    replace (a - b + 1)%Z with ((a + 1) + - b)%Z by lia.
    rewrite pow2_plus. unfold pow2 at 2. rewrite Qpower_opp. fold (pow2 b).
    pose proof (pow2_pos (a + 1)) as Pa1.
    assert (Hi : 0 < / pow2 b) by now apply Qinv_lt_0_compat.
    assert (He : pow2 (a + 1) * / pow2 b * pow2 b == pow2 (a + 1))
      by (field; lra).
    assert (Hm : pow2 (a + 1) * / pow2 b * pow2 b
                 <= pow2 (a + 1) * / pow2 b * inject_Z (Z.pos d)).
    { apply Qmult_le_l; [|exact Hdl].
      apply Qmult_lt_0_compat; assumption. }
    lra. }
  assert (Hlo : pow2 (a - b - 1) <= n # d).
  { rewrite Hqd. apply Qle_shift_div_l; [exact Hd0|].
    replace (a - b - 1)%Z with (a + - (b + 1))%Z by lia.
    rewrite pow2_plus. unfold pow2 at 2. rewrite Qpower_opp.
    fold (pow2 (b + 1)).
    pose proof (pow2_pos (b + 1)) as Pb1.
    assert (Hi : 0 < / pow2 (b + 1)) by now apply Qinv_lt_0_compat.
    assert (He : pow2 a * / pow2 (b + 1) * pow2 (b + 1) == pow2 a)
      by (field; lra).
    assert (Hm : pow2 a * / pow2 (b + 1) * inject_Z (Z.pos d)
                 <= pow2 a * / pow2 (b + 1) * pow2 (b + 1)).
    { apply Qmult_le_l; [|lra].
      apply Qmult_lt_0_compat; assumption. }
    lra. }
  destruct (Qle_bool (pow2 (a - b)) (n # d)) eqn:E.
  - apply Qle_bool_iff in E. split; assumption.
  - assert (Hlt : n # d < pow2 (a - b)).
    { apply Qnot_le_lt. intros Hle. apply Qle_bool_iff in Hle. congruence. }
    replace (a - b - 1 + 1)%Z with (a - b)%Z by lia. split; assumption.
Qed.

Lemma binade_unique q e :
  pow2 e <= q -> q < pow2 (e + 1) -> binade q = e.
Proof.
  intros Hl Hu.
  assert (Hq : 0 < q) by (pose proof (pow2_pos e); lra).
  destruct (binade_spec q Hq) as [Bl Bu].
  assert (H1 : pow2 e < pow2 (binade q + 1)) by lra.
  assert (H2 : pow2 (binade q) < pow2 (e + 1)) by lra.
  apply pow2_lt_inv in H1, H2. lia.
Qed.

Lemma binade_mono a b : 0 < a -> a <= b -> (binade a <= binade b)%Z.
Proof.
  intros Ha Hab.
  destruct (binade_spec a Ha) as [Al Au].
  destruct (binade_spec b ltac:(lra)) as [Bl Bu].
  assert (H : pow2 (binade a) < pow2 (binade b + 1)) by lra.
  apply pow2_lt_inv in H. lia.
Qed.

Lemma to_grid_mono s a b : a <= b -> to_grid s a <= to_grid s b.
Proof.
  intros H. unfold to_grid. pose proof (pow2_pos s) as P.
  apply Qmult_le_compat_r; [|lra]. rewrite <- Zle_Qle. apply rne_mono.
  apply Qmult_le_compat_r; [exact H|].
  apply Qlt_le_weak, Qinv_lt_0_compat, P.
Qed.

Lemma to_grid_comp s a b : a == b -> to_grid s a == to_grid s b.
Proof.
  intros H. apply Qle_antisym; apply to_grid_mono; rewrite H; apply Qle_refl.
Qed.

Lemma to_grid_fix s n : to_grid s (inject_Z n * pow2 s) == inject_Z n * pow2 s.
Proof.
  unfold to_grid. pose proof (pow2_pos s) as P.
  rewrite (rne_comp _ (inject_Z n)) by (field; lra).
  now rewrite rne_Z.
Qed.

Lemma to_grid_err s q :
  to_grid s q <= q + pow2 (s - 1) /\ q - pow2 (s - 1) <= to_grid s q.
Proof.
  unfold to_grid. pose proof (pow2_pos s) as P.
  destruct (rne_err (q / pow2 s)) as [Hu Hl].
  assert (Hh : pow2 (s - 1) == (1 # 2) * pow2 s).
  { replace (s - 1)%Z with (-1 + s)%Z by lia. rewrite pow2_plus. reflexivity. }
  assert (Hq : q / pow2 s * pow2 s == q) by (field; lra).
  apply (Qmult_le_compat_r _ _ (pow2 s)) in Hu; [|lra].
  apply (Qmult_le_compat_r _ _ (pow2 s)) in Hl; [|lra].
  rewrite Hh. split; lra.
Qed.

Lemma round_pos_grid q : round_pos q = to_grid (Z.max (binade q - 52) (-1074)) q.
Proof. reflexivity. Qed.

Lemma round_pos_nonneg q : 0 <= q -> 0 <= round_pos q.
Proof.
  intros H. rewrite round_pos_grid.
  set (s := Z.max _ _).
  assert (H0 : to_grid s 0 == 0).
  { unfold to_grid.
    rewrite (rne_comp (0 / pow2 s) (inject_Z 0)) by (unfold Qdiv; ring).
    rewrite rne_Z. ring. }
  rewrite <- H0. now apply to_grid_mono.
Qed.

Lemma round_pos_mono a b : 0 < a -> a <= b -> round_pos a <= round_pos b.
Proof.
  intros Ha Hab. rewrite !round_pos_grid.
  pose proof (binade_mono a b Ha Hab) as He.
  set (sa := Z.max (binade a - 52) (-1074)).
  set (sb := Z.max (binade b - 52) (-1074)).
  destruct (Z.eq_dec sa sb) as [E|N].
  - rewrite E. now apply to_grid_mono.
  - assert (Hs : (sa < sb)%Z) by lia.
    assert (Hsb : sb = (binade b - 52)%Z) by lia.
    assert (Hlt : (binade a < binade b)%Z) by lia.
    destruct (binade_spec a Ha) as [_ Au].
    destruct (binade_spec b ltac:(lra)) as [Bl _].
    set (g := pow2 (binade b)).
    assert (Hag : a <= g).
    { unfold g. pose proof (pow2_le (binade a + 1) (binade b) ltac:(lia)). lra. }
    assert (Hga : g == inject_Z (2 ^ (binade b - sa)) * pow2 sa).
    { unfold g. rewrite <- pow2_Z by lia. rewrite <- pow2_plus.
      now replace (binade b - sa + sa)%Z with (binade b) by lia. }
    assert (Hgb : g == inject_Z (2 ^ 52) * pow2 sb).
    { unfold g. rewrite <- pow2_Z by lia. rewrite <- pow2_plus.
      now replace (52 + sb)%Z with (binade b) by lia. }
    apply Qle_trans with g.
    + apply Qle_trans with (to_grid sa g); [now apply to_grid_mono|].
      rewrite (to_grid_comp sa g _ Hga), to_grid_fix, <- Hga. apply Qle_refl.
    + apply Qle_trans with (to_grid sb g); [|now apply to_grid_mono].
      rewrite (to_grid_comp sb g _ Hgb), to_grid_fix, <- Hgb. apply Qle_refl.
Qed.

Lemma fl_pos q : 0 < q -> fl q = round_pos q.
Proof.
  intros H. unfold fl.
  assert (E : Qcompare q 0 = Gt) by (apply (proj1 (Qgt_alt _ _)); exact H).
  now rewrite E.
Qed.

Lemma fl_neg q : q < 0 -> fl q = - round_pos (- q).
Proof.
  intros H. unfold fl.
  assert (E : Qcompare q 0 = Lt) by (apply (proj1 (Qlt_alt _ _)); exact H).
  now rewrite E.
Qed.

Lemma fl_zero q : q == 0 -> fl q = 0.
Proof.
  intros H. unfold fl.
  assert (E : Qcompare q 0 = Eq) by (apply (proj1 (Qeq_alt _ _)); exact H).
  now rewrite E.
Qed.

Lemma fl_nonneg q : 0 <= q -> 0 <= fl q.
Proof.
  intros H. destruct (Qlt_le_dec 0 q) as [Hp|Hn].
  - rewrite fl_pos by exact Hp. now apply round_pos_nonneg.
  - rewrite fl_zero by lra. apply Qle_refl.
Qed.

Lemma fl_nonpos q : q <= 0 -> fl q <= 0.
Proof.
  intros H. destruct (Qlt_le_dec q 0) as [Hn|Hp].
  - rewrite fl_neg by exact Hn.
    pose proof (round_pos_nonneg (- q) ltac:(lra)). lra.
  - rewrite fl_zero by lra. apply Qle_refl.
Qed.

(** Rounding keeps the order. *)
Lemma fl_mono a b : a <= b -> fl a <= fl b.
Proof.
  intros H. destruct (Qlt_le_dec 0 a) as [Ha|Ha].
  - rewrite !fl_pos by lra. now apply round_pos_mono.
  - destruct (Qlt_le_dec b 0) as [Hb|Hb].
    + rewrite !fl_neg by lra.
      pose proof (round_pos_mono (- b) (- a) ltac:(lra) ltac:(lra)). lra.
    + pose proof (fl_nonpos a Ha). pose proof (fl_nonneg b Hb). lra.
Qed.

Lemma fl_comp a b : a == b -> fl a == fl b.
Proof.
  intros H. apply Qle_antisym; apply fl_mono; rewrite H; apply Qle_refl.
Qed.

#[global] Instance fl_proper : Proper (Qeq ==> Qeq) fl.
Proof. intros a b H. now apply fl_comp. Qed.

Lemma fl_opp q : fl (- q) == - fl q.
Proof.
  destruct (Q_dec q 0) as [[Hn|Hp]|Hz].
  - rewrite (fl_neg q Hn), (fl_pos (- q)) by lra. ring.
  - rewrite (fl_pos q Hp), (fl_neg (- q)) by lra.
    assert (E : round_pos (- - q) == round_pos q).
    { apply Qle_antisym; apply round_pos_mono; lra. }
    rewrite E. ring.
  - rewrite (fl_zero q Hz), (fl_zero (- q)) by lra. reflexivity.
Qed.

(** A positive result comes from a positive number, a negative one from a
    negative number. *)
Lemma fl_pos_inv q : 0 < fl q -> 0 < q.
Proof.
  intros H. apply Qnot_le_lt. intros Hq. pose proof (fl_nonpos q Hq). lra.
Qed.

Lemma fl_neg_inv q : fl q < 0 -> q < 0.
Proof.
  intros H. apply Qnot_le_lt. intros Hq. pose proof (fl_nonneg q Hq). lra.
Qed.

(** From [2^-1022] on, rounding changes a number by at most [2^-53] of
    it. *)
Lemma fl_rel q :
  pow2 (-1022) <= q ->
  fl q <= q * (1 + pow2 (-53)) /\ q * (1 - pow2 (-53)) <= fl q.
Proof.
  intros H. pose proof (pow2_pos (-1022)) as P.
  assert (Hq : 0 < q) by lra.
  rewrite (fl_pos q Hq), round_pos_grid.
  destruct (binade_spec q Hq) as [Bl Bu].
  assert (He : (-1022 <= binade q)%Z).
  { assert (Hlt : pow2 (-1022) < pow2 (binade q + 1)) by lra.
    apply pow2_lt_inv in Hlt. lia. }
  replace (Z.max (binade q - 52) (-1074)) with (binade q - 52)%Z by lia.
  destruct (to_grid_err (binade q - 52) q) as [Hu Hl].
  assert (Hh : pow2 (binade q - 52 - 1) == pow2 (binade q) * pow2 (-53)).
  { rewrite <- pow2_plus. now replace (binade q + -53)%Z with (binade q - 52 - 1)%Z by lia. }
  pose proof (pow2_pos (-53)) as P53.
  assert (Hm : pow2 (binade q) * pow2 (-53) <= q * pow2 (-53)).
  { apply Qmult_le_compat_r; lra. }
  rewrite Hh in Hu, Hl. split; lra.
Qed.

(** Below [2^-1022] the result stays below [2^-1022]. *)
Lemma fl_small q : q <= pow2 (-1022) -> fl q <= pow2 (-1022).
Proof.
  intros H. apply fl_mono in H.
  assert (E : fl (pow2 (-1022)) == pow2 (-1022)) by (vm_compute; reflexivity).
  lra.
Qed.

(** The ceiling and the floor of a rounded positive number. *)
Lemma fl_ceil_bound q :
  0 < q -> inject_Z (Qceiling (fl q)) < q * (1 + pow2 (-53)) + 1.
Proof.
  intros Hq. pose proof (pow2_pos (-53)) as P53.
  pose proof (Qceiling_lt (fl q)) as Hc.
  unfold Z.sub in Hc. rewrite inject_Z_plus, inject_Z_opp in Hc.
  change (inject_Z 1) with 1 in Hc.
  destruct (Qlt_le_dec q (pow2 (-1022))) as [Hs|Hn].
  - pose proof (fl_small q ltac:(lra)) as Hf.
    assert (H1 : pow2 (-1022) < 1) by reflexivity.
    assert (Hc1 : (Qceiling (fl q) <= 1)%Z).
    { change 1%Z with (Qceiling 1). apply Qceiling_resp_le. lra. }
    rewrite Zle_Qle in Hc1. change (inject_Z 1) with 1 in Hc1.
    assert (0 < q * pow2 (-53)) by (apply Qmult_lt_0_compat; lra).
    lra.
  - destruct (fl_rel q Hn) as [Hu _]. lra.
Qed.

Lemma fl_floor_bound q :
  0 <= q -> inject_Z (Qfloor (fl q)) <= q * (1 + pow2 (-53)).
Proof.
  intros Hq. pose proof (pow2_pos (-53)) as P53.
  pose proof (Qfloor_le (fl q)) as Hc.
  destruct (Qlt_le_dec q (pow2 (-1022))) as [Hs|Hn].
  - pose proof (fl_small q ltac:(lra)) as Hf.
    assert (H1 : pow2 (-1022) < 1) by reflexivity.
    assert (Hc1 : (Qfloor (fl q) <= 0)%Z).
    { assert (Hlt : (Qfloor (fl q) < 1)%Z).
      { rewrite Zlt_Qlt. change (inject_Z 1) with 1. lra. }
      lia. }
    rewrite Zle_Qle in Hc1. change (inject_Z 0) with 0 in Hc1.
    assert (0 <= q * pow2 (-53)) by (apply Qmult_le_0_compat; lra).
    lra.
  - destruct (fl_rel q Hn) as [Hu _]. lra.
Qed.

(** Doubling commutes with rounding from [2^-1022] on. *)
Lemma fl_double q : pow2 (-1022) <= q -> fl (q * 2) == fl q * 2.
Proof.
  intros H. pose proof (pow2_pos (-1022)) as P.
  assert (Hq : 0 < q) by lra.
  rewrite (fl_pos q Hq), (fl_pos (q * 2)) by lra.
  rewrite !round_pos_grid.
  destruct (binade_spec q Hq) as [Bl Bu].
  assert (He : (-1022 <= binade q)%Z).
  { assert (Hlt : pow2 (-1022) < pow2 (binade q + 1)) by lra.
    apply pow2_lt_inv in Hlt. lia. }
  assert (E2 : binade (q * 2) = (binade q + 1)%Z).
  { apply binade_unique.
    - replace (binade q + 1)%Z with (1 + binade q)%Z by lia.
      rewrite pow2_plus. change (pow2 1) with 2. lra.
    - replace (binade q + 1 + 1)%Z with (1 + (binade q + 1))%Z by lia.
      rewrite pow2_plus. change (pow2 1) with 2. lra. }
  rewrite E2.
  replace (Z.max (binade q + 1 - 52) (-1074)) with (1 + (binade q - 52))%Z by lia.
  replace (Z.max (binade q - 52) (-1074)) with (binade q - 52)%Z by lia.
  set (s := (binade q - 52)%Z). unfold to_grid.
  pose proof (pow2_pos s) as Ps.
  assert (Ep : pow2 (1 + s) == 2 * pow2 s).
  { rewrite pow2_plus. reflexivity. }
  rewrite (rne_comp (q * 2 / pow2 (1 + s)) (q / pow2 s)).
  - rewrite Ep. ring.
  - rewrite Ep. field. lra.
Qed.

Lemma round_pos_comp a b : 0 < a -> a == b -> round_pos a == round_pos b.
Proof.
  intros Ha H. apply Qle_antisym; apply round_pos_mono; lra.
Qed.

(** A number with at most 53 significant bits on a grid of doubles is a
    double. *)
Lemma round_pos_fix n s :
  (0 < n <= 2 ^ 53)%Z -> (-1074 <= s)%Z ->
  round_pos (inject_Z n * pow2 s) == inject_Z n * pow2 s.
Proof.
  intros Hn Hs. pose proof (pow2_pos s) as Ps.
  set (y := inject_Z n * pow2 s).
  assert (Hn0 : 0 < inject_Z n).
  { change 0 with (inject_Z 0). rewrite <- Zlt_Qlt. lia. }
  assert (Hy : 0 < y) by (unfold y; apply Qmult_lt_0_compat; assumption).
  assert (Hle : y <= pow2 (53 + s)).
  { unfold y. rewrite pow2_plus, (pow2_Z 53) by lia.
    apply Qmult_le_compat_r; [|lra]. rewrite <- Zle_Qle. lia. }
  rewrite round_pos_grid.
  destruct (binade_spec y Hy) as [Bl Bu].
  destruct (Z.eq_dec n (2 ^ 53)%Z) as [E|N].
  - assert (Ey : y == pow2 (53 + s)).
    { unfold y. rewrite E, pow2_plus, (pow2_Z 53) by lia. reflexivity. }
    assert (Eb : binade y = (53 + s)%Z).
    { apply binade_unique; [lra|]. rewrite Ey. apply pow2_lt. lia. }
    rewrite Eb.
    replace (Z.max (53 + s - 52) (-1074)) with (1 + s)%Z by lia.
    assert (Eg : y == inject_Z (2 ^ 52) * pow2 (1 + s)).
    { rewrite Ey, <- pow2_Z, <- pow2_plus by lia.
      now replace (52 + (1 + s))%Z with (53 + s)%Z by lia. }
    rewrite (to_grid_comp _ _ _ Eg), to_grid_fix, <- Eg. reflexivity.
  - assert (Hlt : y < pow2 (53 + s)).
    { unfold y. rewrite pow2_plus, (pow2_Z 53) by lia.
      apply Qmult_lt_compat_r; [exact Ps|]. rewrite <- Zlt_Qlt. lia. }
    assert (Hb : (binade y < 53 + s)%Z).
    { apply pow2_lt_inv. lra. }
    set (s' := Z.max (binade y - 52) (-1074)).
    assert (Hs' : (s' <= s)%Z) by lia.
    assert (Eg : y == inject_Z (n * 2 ^ (s - s')) * pow2 s').
    { unfold y. rewrite inject_Z_mult, <- pow2_Z by lia.
      rewrite <- Qmult_assoc, <- pow2_plus.
      now replace (s - s' + s')%Z with s by lia. }
    rewrite (to_grid_comp _ _ _ Eg), to_grid_fix, <- Eg. reflexivity.
Qed.


(** Halving commutes with rounding from [2^-1021] on. *)
Lemma fl_half q : pow2 (-1021) <= q -> fl (q / 2) == fl q / 2.
Proof.
  intros H.
  assert (Hh : pow2 (-1022) <= q / 2).
  { assert (E : pow2 (-1021) == 2 * pow2 (-1022)) by reflexivity.
    apply Qle_shift_div_l; [reflexivity|]. lra. }
  pose proof (fl_double (q / 2) Hh) as Hd.
  assert (E : q / 2 * 2 == q) by (field; discriminate).
  rewrite (fl_comp _ _ E) in Hd. rewrite Hd. field.
Qed.

(** A whole number of at most 53 bits is a double. *)
Lemma fl_int n : (0 <= n <= 2 ^ 53)%Z -> fl (inject_Z n) == inject_Z n.
Proof.
  intros Hn. destruct (Z.eq_dec n 0%Z) as [->|N].
  - rewrite fl_zero; reflexivity.
  - assert (Hp : 0 < inject_Z n).
    { change 0 with (inject_Z 0). rewrite <- Zlt_Qlt. lia. }
    rewrite (fl_pos _ Hp).
    assert (E : inject_Z n == inject_Z n * pow2 0).
    { change (pow2 0) with 1. ring. }
    rewrite (round_pos_comp _ _ Hp E), round_pos_fix by lia.
    symmetry. exact E.
Qed.

(** Rounding a number of at most [2^53] does not lift it over a whole
    number: the ceiling and the floor stay within one of the number. *)
Lemma fl_ceil_exact q :
  0 < q -> q <= inject_Z (2 ^ 53) ->
  inject_Z (Qceiling (fl q)) < q + 1.
Proof.
  intros Hq Hle.
  assert (Hc : (0 <= Qceiling q <= 2 ^ 53)%Z).
  { split.
    - change 0%Z with (Qceiling 0). apply Qceiling_resp_le. lra.
    - rewrite <- (Qceiling_Z (2 ^ 53)). now apply Qceiling_resp_le. }
  assert (Hf : fl q <= inject_Z (Qceiling q)).
  { rewrite <- (fl_int _ Hc). apply fl_mono. apply Qle_ceiling. }
  assert (Hcc : (Qceiling (fl q) <= Qceiling q)%Z).
  { rewrite <- (Qceiling_Z (Qceiling q)). now apply Qceiling_resp_le. }
  rewrite Zle_Qle in Hcc.
  pose proof (Qceiling_lt q) as Hl.
  unfold Z.sub in Hl. rewrite inject_Z_plus, inject_Z_opp in Hl.
  change (inject_Z 1) with 1 in Hl. lra.
Qed.

Lemma fl_floor_exact q :
  0 <= q -> q <= inject_Z (2 ^ 53) ->
  inject_Z (Qfloor (fl q)) <= q + 1 /\ q - 1 < inject_Z (Qfloor (fl q)) + 1.
Proof.
  intros Hq Hle.
  assert (Hc : (0 <= Qceiling q <= 2 ^ 53)%Z).
  { split.
    - change 0%Z with (Qceiling 0). apply Qceiling_resp_le. lra.
    - rewrite <- (Qceiling_Z (2 ^ 53)). now apply Qceiling_resp_le. }
  assert (Hfl : (0 <= Qfloor q <= 2 ^ 53)%Z).
  { split.
    - change 0%Z with (Qfloor 0). apply Qfloor_resp_le. lra.
    - rewrite <- (Qfloor_Z (2 ^ 53)). now apply Qfloor_resp_le. }
  assert (Hu : fl q <= inject_Z (Qceiling q)).
  { rewrite <- (fl_int _ Hc). apply fl_mono. apply Qle_ceiling. }
  assert (Hl : inject_Z (Qfloor q) <= fl q).
  { rewrite <- (fl_int _ Hfl). apply fl_mono. apply Qfloor_le. }
  pose proof (Qceiling_lt q) as Hcl.
  unfold Z.sub in Hcl. rewrite inject_Z_plus, inject_Z_opp in Hcl.
  change (inject_Z 1) with 1 in Hcl.
  pose proof (Qlt_floor q) as Hfl2.
  rewrite inject_Z_plus in Hfl2. change (inject_Z 1) with 1 in Hfl2.
  pose proof (Qfloor_le (fl q)) as H1.
  pose proof (Qlt_floor (fl q)) as H2.
  rewrite inject_Z_plus in H2. change (inject_Z 1) with 1 in H2.
  split; lra.
Qed.



(** The least positive double is [2^-1074], and only numbers of at most half
    of it round to zero. *)
Lemma fl_pos_min q : 0 < fl q -> pow2 (-1074) <= fl q.
Proof.
  intros H. pose proof (fl_pos_inv q H) as Hq.
  rewrite (fl_pos q Hq), round_pos_grid in *.
  set (s := Z.max (binade q - 52) (-1074)) in *.
  pose proof (pow2_pos s) as Ps. unfold to_grid in *.
  assert (Hr : (1 <= rne (q / pow2 s))%Z).
  { destruct (Z_lt_le_dec (rne (q / pow2 s)) 1) as [Hlt|]; [|assumption].
    exfalso. assert (Hz : inject_Z (rne (q / pow2 s)) <= 0).
    { change 0 with (inject_Z 0). rewrite <- Zle_Qle. lia. }
    assert (Hm : inject_Z (rne (q / pow2 s)) * pow2 s <= 0 * pow2 s)
      by (apply Qmult_le_compat_r; lra).
    lra. }
  rewrite Zle_Qle in Hr. change (inject_Z 1) with 1 in Hr.
  assert (Hm : 1 * pow2 s <= inject_Z (rne (q / pow2 s)) * pow2 s)
    by (apply Qmult_le_compat_r; lra).
  assert (Hs : pow2 (-1074) <= pow2 s) by (apply pow2_le; lia).
  lra.
Qed.

Lemma fl_zero_bound q : 0 < q -> fl q == 0 -> q <= pow2 (-1075).
Proof.
  intros Hq H. rewrite (fl_pos q Hq), round_pos_grid in H.
  set (s := Z.max (binade q - 52) (-1074)) in *.
  destruct (to_grid_err s q) as [_ Hl]. rewrite H in Hl.
  destruct (binade_spec q Hq) as [Bl _].
  destruct (Z_lt_le_dec (-1074) (binade q - 52)) as [Hb | Hb].
  - exfalso. assert (Es : s = (binade q - 52)%Z) by lia.
    assert (Hlt : pow2 (s - 1) < pow2 (binade q)) by (apply pow2_lt; lia).
    lra.
  - assert (Es : s = (-1074)%Z) by lia. rewrite Es in Hl.
    change (-1074 - 1)%Z with (-1075)%Z in Hl. lra.
Qed.

Lemma fl_nonneg_inv q : 0 <= fl q -> - pow2 (-1075) <= q.
Proof.
  intros H. pose proof (pow2_pos (-1075)) as P.
  destruct (Qlt_le_dec q 0) as [Hq | Hq]; [|lra].
  assert (Hz : fl q == 0).
  { pose proof (fl_nonpos q ltac:(lra)). lra. }
  assert (Hz' : fl (- q) == 0) by (rewrite fl_opp, Hz; reflexivity).
  pose proof (fl_zero_bound (- q) ltac:(lra) Hz'). lra.
Qed.

Lemma fl_nonpos_inv q : fl q <= 0 -> q <= pow2 (-1075).
Proof.
  intros H. pose proof (pow2_pos (-1075)) as P.
  destruct (Qlt_le_dec 0 q) as [Hq | Hq]; [|lra].
  assert (Hz : fl q == 0).
  { pose proof (fl_nonneg q ltac:(lra)). lra. }
  now apply fl_zero_bound.
Qed.

(** ** Maxima, minima and [int] *)

Lemma py_max_spec a b : (a < b /\ py_max a b = b) \/ (b <= a /\ py_max a b = a).
Proof.
  unfold py_max. destruct (Qltb a b) eqn:E.
  - left. split; [now apply Qltb_lt | reflexivity].
  - right. split; [now apply Qltb_ge | reflexivity].
Qed.

Lemma py_min_spec a b : (b < a /\ py_min a b = b) \/ (a <= b /\ py_min a b = a).
Proof.
  unfold py_min. destruct (Qltb b a) eqn:E.
  - left. split; [now apply Qltb_lt | reflexivity].
  - right. split; [now apply Qltb_ge | reflexivity].
Qed.

(** [int] rounds down on non-negative numbers and up on negative ones. *)
Lemma py_int_floor x : 0 <= x -> py_int x = Qfloor x.
Proof.
  destruct x as [n d]. unfold py_int, Qfloor, Qle. simpl.
  intros H. apply Z.quot_div_nonneg; lia.
Qed.

Lemma py_int_opp x : py_int (- x) = (- py_int x)%Z.
Proof.
  destruct x as [n d]. unfold py_int. simpl.
  apply Z.quot_opp_l. lia.
Qed.

Lemma py_int_ceiling x : x <= 0 -> py_int x = Qceiling x.
Proof.
  intros H. unfold Qceiling.
  rewrite <- (py_int_floor (- x)) by lra.
  rewrite py_int_opp. lia.
Qed.

Lemma py_int_comp x y : x == y -> py_int x = py_int y.
Proof.
  intros H. destruct (Qlt_le_dec x 0) as [Hx | Hx].
  - rewrite (py_int_ceiling x), (py_int_ceiling y) by lra.
    now rewrite H.
  - rewrite (py_int_floor x), (py_int_floor y) by lra.
    now rewrite H.
Qed.

Lemma py_int_mono x y : x <= y -> (py_int x <= py_int y)%Z.
Proof.
  intros H.
  destruct (Qlt_le_dec x 0) as [Hx | Hx]; destruct (Qlt_le_dec y 0) as [Hy | Hy].
  - rewrite (py_int_ceiling x), (py_int_ceiling y) by lra.
    now apply Qceiling_resp_le.
  - rewrite (py_int_ceiling x), (py_int_floor y) by lra.
    assert (Qceiling x <= 0)%Z.
    { change 0%Z with (Qceiling 0). apply Qceiling_resp_le. lra. }
    assert (0 <= Qfloor y)%Z.
    { change 0%Z with (Qfloor 0). now apply Qfloor_resp_le. }
    lia.
  - lra.
  - rewrite (py_int_floor x), (py_int_floor y) by lra.
    now apply Qfloor_resp_le.
Qed.

Lemma py_int_le x : 0 <= x -> inject_Z (py_int x) <= x.
Proof. intros H. rewrite py_int_floor by exact H. apply Qfloor_le. Qed.

Lemma py_int_signed x s : Z.abs (py_int (x * side_sign s)) = Z.abs (py_int x).
Proof.
  destruct s; simpl.
  - now rewrite (py_int_comp (x * 1) x) by ring.
  - rewrite (py_int_comp (x * -1) (- x)) by ring.
    rewrite py_int_opp. lia.
Qed.

(** ** The EWMA detector *)

Lemma detect_signal_inv alpha k sieve mean std h pos c sg :
  Ewma.detect_signal alpha k sieve mean std h pos c = Ok sg ->
  exists bf m,
    sieve h = Ok bf /\ mean alpha (Ewma.series bf) = Ok m /\
    Ewma.sig_ewma sg = m /\
    Ewma.sig_ewmbb sg =
      match std alpha (Ewma.series bf) with
      | Some sd => Some (fadd (fmul (fmul (-1) sd) k) m,
                         fadd (fmul (fmul 1 sd) k) m)
      | None => None
      end /\
    Ewma.sig_act sg =
      match Ewma.sig_ewmbb sg with
      | Some (lo, hi) =>
          if Qltb hi 0 || Qltb 0 lo
          then Some (Act (if Qltb (m * (if c then -1 else 1)) 0
                          then short else long))
          else None
      | None => None
      end.
Proof.
  unfold Ewma.detect_signal, Ewma._ewm_stats, rbind.
  destruct (sieve h) as [bf|e] eqn:Hs; [|discriminate].
  destruct (mean alpha (Ewma.series bf)) as [m|e] eqn:Hm;
    [|discriminate].
  intros H. injection H as <-. exists bf, m. simpl.
  repeat split; solve [reflexivity | assumption].
Qed.

(** With a sieve and a mean that answer, the detector answers. *)
Lemma detect_signal_ok alpha k sieve mean std h pos c bf m :
  sieve h = Ok bf -> mean alpha (Ewma.series bf) = Ok m ->
  exists sg, Ewma.detect_signal alpha k sieve mean std h pos c = Ok sg.
Proof.
  intros Hs Hm. unfold Ewma.detect_signal, Ewma._ewm_stats.
  rewrite Hs. cbn [rbind]. rewrite Hm. cbn [rbind]. eexists. reflexivity.
Qed.

(** The two ends of the band that the code computes are the mean minus and
    plus the rounded product of the standard deviation and [sigma_band]. *)
Lemma band_ends m k sd :
  fadd (fmul (fmul (-1) sd) k) m == fst (stated_band m k (fl sd)) /\
  fadd (fmul (fmul 1 sd) k) m == snd (stated_band m k (fl sd)).
Proof.
  unfold stated_band, stated_half_width, fadd, fsub, fmul. cbn [fst snd].
  assert (E1 : fl (1 * sd) == fl sd) by (apply fl_comp; ring).
  assert (E2 : fl (-1 * sd) == - fl sd).
  { rewrite <- fl_opp. apply fl_comp. ring. }
  assert (E3 : fl (fl (-1 * sd) * k) == - fl (fl sd * k)).
  { rewrite <- fl_opp. apply fl_comp. rewrite E2. ring. }
  assert (E4 : fl (fl (1 * sd) * k) == fl (fl sd * k)).
  { apply fl_comp. rewrite E1. reflexivity. }
  split; apply fl_comp.
  - rewrite E3. ring.
  - rewrite E4. ring.
Qed.

(** With a non-negative standard deviation and a non-negative [sigma_band]
    the half width is not negative and the band is in order. *)
Lemma stated_band_ordered m k sd :
  0 <= sd -> 0 <= k ->
  0 <= stated_half_width k sd /\
  fst (stated_band m k sd) <= snd (stated_band m k sd).
Proof.
  intros Hsd Hk. unfold stated_band, stated_half_width, fadd, fsub, fmul.
  cbn [fst snd].
  assert (Hw : 0 <= fl (sd * k)).
  { apply fl_nonneg. apply Qmult_le_0_compat; assumption. }
  split; [exact Hw|]. apply fl_mono. lra.
Qed.

(** C5, amended.  Given a series, its mean [m] and its standard deviation
    (a double that is not negative, or NaN) and a non-negative [sigma_band],
    the detector called with [contrary=False] answers; its estimate is [m];
    its band is [m -/+ sigma_band * std] computed in doubles, in this order
    ([fl sd] is the standard deviation as the double it is);
    and it answers [long] exactly when the band lies entirely above zero,
    [short] exactly when it lies entirely below zero, and no action exactly
    when it does neither, in particular when the band straddles zero.  With
    a NaN standard deviation there is no band and no action. *)
Theorem detect_signal_follows_band alpha k sieve mean std h pos bf m :
  0 <= k ->
  (forall sd, std alpha (Ewma.series bf) = Some sd -> 0 <= sd) ->
  sieve h = Ok bf ->
  mean alpha (Ewma.series bf) = Ok m ->
  exists sg,
    Ewma.detect_signal alpha k sieve mean std h pos false = Ok sg /\
    Ewma.sig_ewma sg = m /\
    match std alpha (Ewma.series bf) with
    | Some sd =>
        exists lo hi,
          Ewma.sig_ewmbb sg = Some (lo, hi) /\
          lo == fst (stated_band m k (fl sd)) /\
          hi == snd (stated_band m k (fl sd)) /\
          lo <= hi /\
          (Ewma.sig_act sg = Some (Act long) <-> interval_above lo hi) /\
          (Ewma.sig_act sg = Some (Act short) <-> interval_below lo hi) /\
          (Ewma.sig_act sg = None <-> interval_straddles lo hi)
    | None => Ewma.sig_ewmbb sg = None /\ Ewma.sig_act sg = None
    end /\
    (Ewma.sig_act sg = Some (Act long) <-> Ewma.band_above sg) /\
    (Ewma.sig_act sg = Some (Act short) <-> Ewma.band_below sg) /\
    (Ewma.sig_act sg = None <->
       ~ Ewma.band_above sg /\ ~ Ewma.band_below sg) /\
    (Ewma.band_straddles sg -> Ewma.sig_act sg = None).
Proof.
  intros Hk Hstd Hs Hm.
  destruct (detect_signal_ok alpha k sieve mean std h pos false bf m Hs Hm)
    as [sg H].
  exists sg. split; [exact H|].
  destruct (detect_signal_inv _ _ _ _ _ _ _ _ _ H)
    as (bf' & m' & Hs' & Hm' & Hsm & Hbb & Hact).
  assert (Eb : bf' = bf) by congruence. rewrite Eb in *. clear Eb bf'.
  assert (Em : m' = m) by congruence. rewrite Em in *. clear Em m'.
  split; [exact Hsm|].
  unfold Ewma.band_above, Ewma.band_below, Ewma.band_straddles.
  rewrite Hact. clear Hact.
  destruct (std alpha (Ewma.series bf)) as [sd|] eqn:Hsd; rewrite Hbb.
  - pose proof (Hstd sd eq_refl) as Hsd0.
    destruct (band_ends m k sd) as [Elo' Ehi'].
    destruct (stated_band_ordered m k (fl sd) (fl_nonneg sd Hsd0) Hk)
      as [Hw Hord].
    set (lo := fadd (fmul (fmul (-1) sd) k) m) in *.
    set (hi := fadd (fmul (fmul 1 sd) k) m) in *.
    assert (Hlh : lo <= hi) by (rewrite Elo', Ehi'; exact Hord).
    assert (Hneg : hi < 0 -> m < 0).
    { intros Hh. rewrite Ehi' in Hh. unfold stated_band, fadd in Hh.
      cbn [snd] in Hh. apply fl_neg_inv in Hh. lra. }
    assert (Hpos : 0 < lo -> 0 < m).
    { intros Hl. rewrite Elo' in Hl. unfold stated_band, fsub in Hl.
      cbn [fst] in Hl. apply fl_pos_inv in Hl. lra. }
    assert (Hm1 : m * 1 == m) by ring.
    unfold interval_above, interval_below, interval_straddles.
    destruct (Qltb hi 0) eqn:E1; [apply Qltb_lt in E1 | apply Qltb_ge in E1];
      (destruct (Qltb 0 lo) eqn:E2;
         [apply Qltb_lt in E2 | apply Qltb_ge in E2]); cbn [orb];
      (destruct (Qltb (m * 1) 0) eqn:E3;
         [apply Qltb_lt in E3 | apply Qltb_ge in E3]);
      try (pose proof (Hneg E1)); try (pose proof (Hpos E2));
      try (exfalso; lra).
    all: split;
      [exists lo, hi; split; [reflexivity|]; split; [exact Elo'|];
       split; [exact Ehi'|]; split; [exact Hlh|]; repeat split |
       repeat split];
      try (intros (l & u & Heq & H1 & H2); injection Heq as <- <-);
      try (intros [[H1 H2] | [H1 H2]]);
      try (intros [Ha Hb]);
      try discriminate; try reflexivity; try lra;
      try (intros _; exists lo, hi; split; [reflexivity | split; lra]);
      try (intros _; split;
           intros (l & u & Heq & H1 & H2); injection Heq as <- <-; lra);
      try (intros _; left; split; lra);
      try (exfalso; apply Ha; exists lo, hi;
           split; [reflexivity | split; lra]);
      try (exfalso; apply Hb; exists lo, hi;
           split; [reflexivity | split; lra]).
  - repeat split; try discriminate; try reflexivity;
      try (intros (l & u & Heq & _); discriminate);
      try (intros _; split; intros (l & u & Heq & _); discriminate).
Qed.

Lemma detect_signal_follows_band_witness :
  0 <= 1 # 2 /\
  exists sg,
    swing_detector (1 # 2) = Ok sg /\
    Ewma.sig_ewma sg = fl (7 # 3) /\
    (exists lo hi,
       Ewma.sig_ewmbb sg = Some (lo, hi) /\
       lo == fst (stated_band (fl (7 # 3)) (1 # 2)
                    (fl (6369051672525773 # 4503599627370496))) /\
       hi == snd (stated_band (fl (7 # 3)) (1 # 2)
                    (fl (6369051672525773 # 4503599627370496))) /\
       lo <= hi /\
       (Ewma.sig_act sg = Some (Act long) <-> interval_above lo hi) /\
       (Ewma.sig_act sg = Some (Act short) <-> interval_below lo hi) /\
       (Ewma.sig_act sg = None <-> interval_straddles lo hi)) /\
    (Ewma.sig_act sg = Some (Act long) <-> Ewma.band_above sg) /\
    (Ewma.sig_act sg = Some (Act short) <-> Ewma.band_below sg) /\
    (Ewma.sig_act sg = None <->
       ~ Ewma.band_above sg /\ ~ Ewma.band_below sg) /\
    (Ewma.band_straddles sg -> Ewma.sig_act sg = None).
Proof.
  split; [discriminate|].
  apply (detect_signal_follows_band (1 # 2) (1 # 2) (fixed_sieve [1; 3])
           swing_mean swing_std [] None (Ewma.BestFeature [1; 3] "S5" "S5")
           (fl (7 # 3))).
  - discriminate.
  - intros sd H. injection H as <-. discriminate.
  - reflexivity.
  - reflexivity.
Defined.

(** C5, as stated, fails for a negative [sigma_band]: on the series that
    rises from 1 to 3, with [sigma_band = -2], the interval
    [estimate ± sigma_band * std] runs from -0.495 to 5.16 and straddles
    zero, and the detector answers [long]. *)
Lemma detect_signal_long_on_straddling_band :
  swing_detector (-2) = Ok swing_signal_inverted /\
  Ewma.sig_ewma swing_signal_inverted = fl (7 # 3) /\
  (exists lo hi,
     Ewma.sig_ewmbb swing_signal_inverted = Some (lo, hi) /\
     lo == fst (stated_band (fl (7 # 3)) (-2)
                  (6369051672525773 # 4503599627370496)) /\
     hi == snd (stated_band (fl (7 # 3)) (-2)
                  (6369051672525773 # 4503599627370496)) /\
     interval_straddles lo hi) /\
  ~ Ewma.band_above swing_signal_inverted /\
  Ewma.sig_act swing_signal_inverted = Some (Act long).
Proof.
  split; [reflexivity|]. split; [reflexivity|]. split; [|split].
  - eexists _, _. split; [reflexivity|].
    split; [vm_compute; reflexivity|]. split; [vm_compute; reflexivity|].
    right. split; discriminate.
  - intros (lo & hi & Heq & H1 & H2). injection Heq as <- <-.
    revert H2. vm_compute. discriminate.
  - reflexivity.
Qed.

(** C4, as stated, fails: a long position is open, the band lies entirely
    below zero (a short signal that opposes the position), and the detector
    answers [short], not [closing]. *)
Lemma detect_signal_opposed_not_closing :
  flat_detector (-3) [] (Some (Position long 100)) = Ok signal_below /\
  Ewma.band_below signal_below /\
  Ewma.sig_act signal_below = Some (Act short) /\
  Ewma.sig_act signal_below <> Some closing.
Proof.
  split; [reflexivity|]. split.
  - eexists _, _. split; [reflexivity|]. split; reflexivity.
  - split; [reflexivity | discriminate].
Qed.

(** C4, amended.  The detector never answers [closing] and does not look at
    the open position: with a band that does not straddle zero it answers
    the direction of the estimate whatever the side of the position, and
    with a band that straddles zero it answers no action. *)
Theorem detect_signal_never_closing alpha k sieve mean std h pos contrary sg :
  Ewma.detect_signal alpha k sieve mean std h pos contrary = Ok sg ->
  Ewma.sig_act sg <> Some closing /\
  (forall pos',
     Ewma.detect_signal alpha k sieve mean std h pos' contrary = Ok sg) /\
  (~ Ewma.band_straddles sg -> Ewma.sig_ewmbb sg <> None ->
   Ewma.sig_act sg =
     Some (Act (if Qltb (Ewma.sig_ewma sg * (if contrary then -1 else 1)) 0
                then short else long))) /\
  (Ewma.band_straddles sg -> Ewma.sig_act sg = None).
Proof.
  intros H.
  destruct (detect_signal_inv _ _ _ _ _ _ _ _ _ H)
    as (bf & m & _ & _ & Hm & _ & Hact).
  split; [|split; [|split]].
  - rewrite Hact. destruct (Ewma.sig_ewmbb sg) as [[lo hi]|]; [|discriminate].
    destruct (Qltb hi 0 || Qltb 0 lo); discriminate.
  - intros pos'. exact H.
  - intros Hns Hsome. rewrite Hact, Hm. unfold Ewma.band_straddles in Hns.
    destruct (Ewma.sig_ewmbb sg) as [[lo hi]|]; [|congruence].
    destruct (Qltb hi 0) eqn:E1; [reflexivity|].
    destruct (Qltb 0 lo) eqn:E2; [reflexivity|].
    exfalso. apply Hns. exists lo, hi.
    apply Qltb_ge in E1, E2. repeat split; assumption.
  - intros (lo & hi & Hbb & Hlo & Hhi). rewrite Hact, Hbb.
    apply Qltb_ge in Hlo, Hhi. now rewrite Hlo, Hhi.
Qed.

Lemma detect_signal_never_closing_witness :
  flat_detector (-3) [] (Some (Position long 100)) = Ok signal_below /\
  Ewma.sig_act signal_below <> Some closing /\
  (forall pos', flat_detector (-3) [] pos' = Ok signal_below) /\
  (~ Ewma.band_straddles signal_below ->
   Ewma.sig_ewmbb signal_below <> None ->
   Ewma.sig_act signal_below =
     Some (Act (if Qltb (Ewma.sig_ewma signal_below * 1) 0
                then short else long))) /\
  (Ewma.band_straddles signal_below -> Ewma.sig_act signal_below = None).
Proof.
  split; [reflexivity|].
  apply (detect_signal_never_closing (1 # 2) 2 (fixed_sieve [-3; -3])
           Ewma.ewm_mean_last flat_std
           [] (Some (Position long 100)) false signal_below).
  reflexivity.
Defined.

(** ** Order sizing *)

Lemma py_min3_le_l a b c : py_min3 a b c <= a.
Proof.
  unfold py_min3.
  destruct (py_min_spec (py_min a b) c) as [[? ->] | [? ->]];
    destruct (py_min_spec a b) as [[? E] | [? E]]; rewrite ?E in *; lra.
Qed.

Lemma py_min3_le_m a b c : py_min3 a b c <= b.
Proof.
  unfold py_min3.
  destruct (py_min_spec (py_min a b) c) as [[? ->] | [? ->]];
    destruct (py_min_spec a b) as [[? E] | [? E]]; rewrite ?E in *; lra.
Qed.

Lemma py_min3_le_r a b c : py_min3 a b c <= c.
Proof.
  unfold py_min3.
  destruct (py_min_spec (py_min a b) c) as [[? ->] | [? ->]];
    destruct (py_min_spec a b) as [[? E] | [? E]]; rewrite ?E in *; lra.
Qed.

Lemma py_min3_glb z a b c : z <= a -> z <= b -> z <= c -> z <= py_min3 a b c.
Proof.
  intros. unfold py_min3.
  destruct (py_min_spec (py_min a b) c) as [[? ->] | [? ->]];
    destruct (py_min_spec a b) as [[? E] | [? E]]; rewrite ?E in *; lra.
Qed.

Lemma py_min3_mono a b b' c : b <= b' -> py_min3 a b c <= py_min3 a b' c.
Proof.
  intros H. apply py_min3_glb.
  - apply py_min3_le_l.
  - pose proof (py_min3_le_m a b c). lra.
  - apply py_min3_le_r.
Qed.

Lemma py_max_0_nonneg a : 0 <= py_max a 0.
Proof. destruct (py_max_spec a 0) as [[? ->] | [? ->]]; lra. Qed.

Lemma py_max_0_ge a : a <= py_max a 0.
Proof. destruct (py_max_spec a 0) as [[? ->] | [? ->]]; lra. Qed.

Lemma py_max_0_mono a b : a <= b -> py_max a 0 <= py_max b 0.
Proof.
  intros H.
  destruct (py_max_spec a 0) as [[? ->] | [? ->]];
    destruct (py_max_spec b 0) as [[? ->] | [? ->]]; lra.
Qed.

Lemma np_ceil_mono a b : a <= b -> np_ceil a <= np_ceil b.
Proof.
  intros H. unfold np_ceil. rewrite <- Zle_Qle. now apply Qceiling_resp_le.
Qed.

Lemma truediv_ok a b : ~ b == 0 -> truediv a b = Ok (fl (a / b)).
Proof.
  intros H. unfold truediv. destruct (Qeq_bool b 0) eqn:E; [|reflexivity].
  apply Qeq_bool_iff in E. contradiction.
Qed.

(** The margin-limited size overshoots the headroom by less than a unit and
    the rounding of the quotient. *)
Lemma avail_size_exact h cost :
  0 < cost -> h <= inject_Z (2 ^ 53) * cost ->
  py_max (np_ceil (fl (h / cost))) 0 * cost < py_max h 0 + cost.
Proof.
  intros Hc Hle.
  pose proof (py_max_0_nonneg h) as Hn. pose proof (py_max_0_ge h) as Hg.
  destruct (py_max_spec (np_ceil (fl (h / cost))) 0) as [[_ ->] | [Hpos ->]].
  - lra.
  - destruct (Qlt_le_dec 0 h) as [Hh | Hh].
    + assert (Hq : 0 < h / cost).
      { apply Qlt_shift_div_l; [exact Hc | lra]. }
      assert (Hq' : h / cost <= inject_Z (2 ^ 53)).
      { apply Qle_shift_div_r; [exact Hc | exact Hle]. }
      pose proof (fl_ceil_exact (h / cost) Hq Hq') as Hlt.
      fold (np_ceil (fl (h / cost))) in Hlt.
      apply (Qmult_lt_compat_r _ _ cost) in Hlt; [|exact Hc].
      assert (Hx : (h / cost + 1) * cost == h + cost) by (field; lra).
      rewrite Hx in Hlt. lra.
    + assert (Hq : h / cost <= 0).
      { apply Qle_shift_div_r; [exact Hc | lra]. }
      pose proof (fl_nonpos _ Hq) as Hf.
      assert (Hz : np_ceil (fl (h / cost)) <= 0).
      { unfold np_ceil. change 0 with (inject_Z (Qceiling 0)).
        rewrite <- Zle_Qle. now apply Qceiling_resp_le. }
      assert (Hz' : np_ceil (fl (h / cost)) * cost <= 0).
      { assert (E0 : np_ceil (fl (h / cost)) == 0) by lra.
        rewrite E0. lra. }
      lra.
Qed.

Lemma avail_size_bound h cost :
  0 < cost ->
  py_max (np_ceil (fl (h / cost))) 0 * cost
    < py_max h 0 * (1 + pow2 (-53)) + cost.
Proof.
  intros Hc.
  pose proof (py_max_0_nonneg h) as Hn. pose proof (py_max_0_ge h) as Hg.
  assert (He : 0 < pow2 (-53)) by apply pow2_pos.
  assert (Hne : 0 <= py_max h 0 * pow2 (-53))
    by (apply Qmult_le_0_compat; lra).
  destruct (py_max_spec (np_ceil (fl (h / cost))) 0) as [[_ ->] | [Hpos ->]].
  - lra.
  - destruct (Qlt_le_dec 0 h) as [Hh | Hh].
    + assert (Hq : 0 < h / cost).
      { apply Qlt_shift_div_l; [exact Hc | lra]. }
      pose proof (fl_ceil_bound (h / cost) Hq) as Hlt.
      fold (np_ceil (fl (h / cost))) in Hlt.
      apply (Qmult_lt_compat_r _ _ cost) in Hlt; [|exact Hc].
      assert (Hx : (h / cost * (1 + pow2 (-53)) + 1) * cost
                   == h * (1 + pow2 (-53)) + cost) by (field; lra).
      rewrite Hx in Hlt.
      assert (Hh' : h * pow2 (-53) <= py_max h 0 * pow2 (-53))
        by (apply Qmult_le_compat_r; lra).
      lra.
    + assert (Hq : h / cost <= 0).
      { apply Qle_shift_div_r; [exact Hc | lra]. }
      pose proof (fl_nonpos _ Hq) as Hf.
      assert (Hz : np_ceil (fl (h / cost)) <= 0).
      { unfold np_ceil. change 0 with (inject_Z (Qceiling 0)).
        rewrite <- Zle_Qle. now apply Qceiling_resp_le. }
      assert (Hz' : np_ceil (fl (h / cost)) * cost <= 0).
      { assert (E0 : np_ceil (fl (h / cost)) == 0) by lra.
        rewrite E0. lra. }
      lra.
Qed.

(** What [_design_order_units] answers once its look-ups succeed. *)
Lemma design_order_units_eq E st i s ie cost bet :
  od_getitem (inst_dict st) i = Ok ie ->
  unit_costs st !! i = Some cost ->
  0 < cost ->
  bet_size E st i cost = Ok bet ->
  _design_order_units E st i s =
    Ok (py_int (py_min3 bet
                  (py_max (np_ceil (fl (margin_headroom st / cost))) 0)
                  (inject_Z (py_int (maximumOrderUnits ie)))
                * side_sign s)).
Proof.
  intros Hie Hcost Hc Hbet. unfold _design_order_units, getitem.
  rewrite Hie, Hcost. simpl.
  rewrite truediv_ok by lra. simpl. rewrite Hbet. reflexivity.
Qed.

Lemma order_size_nonneg bet avail ie :
  0 <= bet -> 0 <= avail -> 0 <= maximumOrderUnits ie ->
  0 <= py_min3 bet avail (inject_Z (py_int (maximumOrderUnits ie))).
Proof.
  intros Hb Ha Hm. apply py_min3_glb; try assumption.
  change 0 with (inject_Z 0). rewrite <- Zle_Qle.
  change 0%Z with (py_int 0). now apply py_int_mono.
Qed.

Lemma order_units_abs bet avail ie s :
  0 <= bet -> 0 <= avail -> 0 <= maximumOrderUnits ie ->
  let m := py_min3 bet avail (inject_Z (py_int (maximumOrderUnits ie))) in
  Z.abs (py_int (m * side_sign s)) = py_int m /\ inject_Z (py_int m) <= m.
Proof.
  intros Hb Ha Hm m.
  assert (H0 : 0 <= m) by now apply order_size_nonneg.
  rewrite py_int_signed. split.
  - apply Z.abs_eq. change 0%Z with (py_int 0). now apply py_int_mono.
  - now apply py_int_le.
Qed.

(** C2, as stated, fails: with headroom 150 and a unit cost of 100 the size
    is 2 units, whose margin of 200 exceeds the headroom. *)
Lemma design_order_units_exceeds_headroom :
  _design_order_units example_collaborators example_trader "EUR_USD" long
    = Ok 2%Z /\
  unit_costs example_trader !! "EUR_USD" = Some 100 /\
  margin_headroom example_trader == 150 /\
  ~ inject_Z (Z.abs 2) * 100 <= margin_headroom example_trader.
Proof.
  split; [vm_compute; reflexivity|]. split; [reflexivity|].
  split; [vm_compute; reflexivity|].
  intros H. vm_compute in H. apply H. reflexivity.
Qed.

(** The arithmetic is that of doubles.  With a balance of 43758.77, a
    reserve of 5 %, an available margin of 2867.0085 and a unit cost of
    97.01, the headroom is 7 times the cost in decimals; in doubles the
    headroom is 679.0700000000002, its quotient by the cost is the double
    next above 7, and the size is 8 units. *)
Lemma design_order_units_rounded_quotient :
  (28670085 # 10000) - (4375877 # 100) * (1 # 20) == 7 * (9701 # 100) /\
  margin_headroom rounding_trader == 1493290722147697 # 2199023255552 /\
  (exists q,
     truediv (margin_headroom rounding_trader) (fl (9701 # 100)) = Ok q /\
     q == 7 + pow2 (-50)) /\
  _design_order_units example_collaborators rounding_trader "EUR_USD" long
    = Ok 8%Z.
Proof.
  split; [reflexivity|]. split; [vm_compute; reflexivity|]. split.
  - eexists. split; [reflexivity|]. vm_compute. reflexivity.
  - vm_compute. reflexivity.
Qed.

(** C2, amended.  For a positive unit cost, a betting system that answers no
    negative size and non-negative maximum order units, the margin implied
    by the size that [_design_order_units] answers is less than the headroom
    (the double [margin_avail - balance * preserve], counted as zero when
    negative) plus the cost of one unit, as long as the headroom is at most
    [2^53] times the cost; whatever the headroom, it is less than the
    headroom increased by one part in [2^53], plus the cost of one unit.
    The quotient of the headroom by the cost is rounded to a double and then
    up to a whole number. *)
Theorem design_order_units_margin E st i s ie cost bet u :
  od_getitem (inst_dict st) i = Ok ie ->
  unit_costs st !! i = Some cost ->
  0 < cost ->
  0 <= maximumOrderUnits ie ->
  bet_size E st i cost = Ok bet ->
  0 <= bet ->
  _design_order_units E st i s = Ok u ->
  (margin_headroom st <= inject_Z (2 ^ 53) * cost ->
   inject_Z (Z.abs u) * cost < py_max (margin_headroom st) 0 + cost) /\
  inject_Z (Z.abs u) * cost
    < py_max (margin_headroom st) 0 * (1 + pow2 (-53)) + cost.
Proof.
  intros Hie Hcost Hc Hmax Hbet Hb H.
  rewrite (design_order_units_eq E st i s ie cost bet) in H by assumption.
  injection H as <-.
  set (avail := py_max (np_ceil (fl (margin_headroom st / cost))) 0).
  destruct (order_units_abs bet avail ie s Hb (py_max_0_nonneg _) Hmax)
    as [-> Hle].
  pose proof (py_min3_le_m bet avail
                (inject_Z (py_int (maximumOrderUnits ie)))) as Hm.
  assert (Hua : inject_Z (py_int (py_min3 bet avail
                   (inject_Z (py_int (maximumOrderUnits ie))))) * cost
                <= avail * cost)
    by (apply Qmult_le_compat_r; lra).
  split.
  - intros Hsmall.
    pose proof (avail_size_exact (margin_headroom st) cost Hc Hsmall) as Hav.
    fold avail in Hav. lra.
  - pose proof (avail_size_bound (margin_headroom st) cost Hc) as Hav.
    fold avail in Hav. lra.
Qed.

Lemma design_order_units_margin_witness :
  od_getitem (inst_dict example_trader) "EUR_USD" = Ok eur_usd /\
  unit_costs example_trader !! "EUR_USD" = Some 100 /\
  0 < 100 /\
  0 <= maximumOrderUnits eur_usd /\
  bet_size example_collaborators example_trader "EUR_USD" 100 = Ok 5 /\
  0 <= 5 /\
  _design_order_units example_collaborators example_trader "EUR_USD" long
    = Ok 2%Z /\
  (margin_headroom example_trader <= inject_Z (2 ^ 53) * 100 ->
   inject_Z (Z.abs 2) * 100
     < py_max (margin_headroom example_trader) 0 + 100) /\
  inject_Z (Z.abs 2) * 100
    < py_max (margin_headroom example_trader) 0 * (1 + pow2 (-53)) + 100.
Proof.
  repeat (split; [vm_compute; reflexivity || discriminate|]).
  apply (design_order_units_margin example_collaborators example_trader
           "EUR_USD" long eur_usd 100 5 2);
    vm_compute; reflexivity || discriminate.
Defined.

(** C3, as stated, fails: with the available margin kept at 200, raising the
    balance from 1000 to 4000 raises the reserve to 200 and brings the size
    from 2 units down to 0. *)
Lemma design_order_units_not_monotone_in_balance :
  1000 <= 4000 /\
  _design_order_units example_collaborators (set_balance example_trader 1000)
    "EUR_USD" long = Ok 2%Z /\
  _design_order_units example_collaborators (set_balance example_trader 4000)
    "EUR_USD" long = Ok 0%Z /\
  ~ (Z.abs 2 <= Z.abs 0)%Z.
Proof.
  split; [discriminate|]. split; [reflexivity|]. split; [reflexivity|].
  simpl. lia.
Qed.

(** C3, amended.  For a positive unit cost, a betting system that answers no
    negative size and non-negative maximum order units, the absolute size is
    at most the instrument's maximum order units, and, the balance and all
    else being fixed, it is non-decreasing in the available margin.  (It is
    not non-decreasing in the balance: the reserve grows with the
    balance.) *)
Theorem design_order_units_cap_and_margin E st i s ie cost bet u :
  od_getitem (inst_dict st) i = Ok ie ->
  unit_costs st !! i = Some cost ->
  0 < cost ->
  0 <= maximumOrderUnits ie ->
  bet_size E st i cost = Ok bet ->
  0 <= bet ->
  _design_order_units E st i s = Ok u ->
  (Z.abs u <= py_int (maximumOrderUnits ie))%Z /\
  forall m' u',
    margin_avail st <= m' ->
    _design_order_units E (set_margin_avail st m') i s = Ok u' ->
    (Z.abs u <= Z.abs u')%Z.
Proof.
  intros Hie Hcost Hc Hmax Hbet Hb H.
  rewrite (design_order_units_eq E st i s ie cost bet) in H by assumption.
  injection H as <-.
  set (avail := py_max (np_ceil (fl (margin_headroom st / cost))) 0).
  destruct (order_units_abs bet avail ie s Hb (py_max_0_nonneg _) Hmax)
    as [-> Hle].
  split.
  - rewrite Zle_Qle.
    pose proof (py_min3_le_r bet avail
                  (inject_Z (py_int (maximumOrderUnits ie)))). lra.
  - intros m' u' Hm' H'.
    rewrite (design_order_units_eq E (set_margin_avail st m') i s ie cost bet)
      in H' by assumption.
    injection H' as <-.
    set (avail' :=
           py_max (np_ceil (fl (margin_headroom (set_margin_avail st m')
                                / cost))) 0).
    destruct (order_units_abs bet avail' ie s Hb (py_max_0_nonneg _) Hmax)
      as [-> _].
    apply py_int_mono, py_min3_mono. unfold avail, avail'.
    apply py_max_0_mono, np_ceil_mono, fl_mono.
    apply Qmult_le_compat_r;
      [|apply Qlt_le_weak, Qinv_lt_0_compat, Hc].
    unfold margin_headroom, fsub. simpl.
    apply fl_mono. lra.
Qed.

Lemma design_order_units_cap_and_margin_witness :
  od_getitem (inst_dict example_trader) "EUR_USD" = Ok eur_usd /\
  unit_costs example_trader !! "EUR_USD" = Some 100 /\
  0 < 100 /\
  0 <= maximumOrderUnits eur_usd /\
  bet_size example_collaborators example_trader "EUR_USD" 100 = Ok 5 /\
  0 <= 5 /\
  _design_order_units example_collaborators example_trader "EUR_USD" long
    = Ok 2%Z /\
  (Z.abs 2 <= py_int (maximumOrderUnits eur_usd))%Z /\
  forall m' u',
    margin_avail example_trader <= m' ->
    _design_order_units example_collaborators
      (set_margin_avail example_trader m') "EUR_USD" long = Ok u' ->
    (Z.abs 2 <= Z.abs u')%Z.
Proof.
  repeat (split; [reflexivity || discriminate|]).
  apply (design_order_units_cap_and_margin example_collaborators
           example_trader "EUR_USD" long eur_usd 100 5 2);
    reflexivity || discriminate.
Defined.

(** ** The decision table *)

Lemma is_over_spread_eq st df r :
  last df = Some r ->
  _is_over_spread st df = Ok (np_ge (spread_ratio r) (max_spread (cf st))).
Proof. intros H. unfold _is_over_spread. now rewrite H. Qed.

(** Once the holding percentage, the history and the signal are there, the
    answer of [determine_sig_state] is the entry of the table. *)
Lemma determine_sig_state_eq E st df r pct h sg ie t :
  last df = Some r ->
  pos_pct_of st (row_instrument r) (pos_dict st !! row_instrument r) = Ok pct ->
  fetch_history_dict E (row_instrument r) = Ok h ->
  ai_detect_signal E h (pos_dict st !! row_instrument r) = Ok sg ->
  od_getitem (inst_dict st) (row_instrument r) = Ok ie ->
  tradeable ie = Some t ->
  determine_sig_state E st df =
    let '(a, s) :=
      transition_table (negb t) (sig_act_is sg closing)
        (Z.eqb (py_int (balance st)) 0)
        (_is_margin_lack st (row_instrument r))
        (np_ge (spread_ratio r) (max_spread (cf st)))
        (directional sg) (pos_side <$> pos_dict st !! row_instrument r) pct in
    Ok (Decision a s sg).
Proof.
  intros Hlast Hpct Hh Hsg Hie Ht.
  unfold determine_sig_state. rewrite Hlast. cbn [rbind].
  rewrite Hpct. cbn [rbind]. rewrite Hh. cbn [rbind].
  rewrite Hsg. cbn [rbind]. rewrite Hie. cbn [rbind].
  rewrite Ht. cbn [rbind].
  rewrite (is_over_spread_eq st df r Hlast).
  unfold transition_table, sig_act_is, directional, side_is.
  destruct t; cbn [negb rbind]; [|reflexivity].
  destruct (Ewma.sig_act sg) as [[[|]|]|]; cbn [action_eqb side_eqb];
    try reflexivity;
    (destruct (Z.eqb (py_int (balance st)) 0); [reflexivity|]);
    (destruct (_is_margin_lack st (row_instrument r)); [reflexivity|]);
    cbn [rbind];
    (destruct (np_ge (spread_ratio r) (max_spread (cf st))); [reflexivity|]);
    destruct (pos_dict st !! row_instrument r) as [[[|] n]|];
    reflexivity.
Qed.

(** An instrument without the attribute [tradeable] ends the decision with
    an [AttributeError], once the holding percentage, the history and the
    signal are there. *)
Lemma determine_sig_state_no_attribute E st df r pct h sg ie :
  last df = Some r ->
  pos_pct_of st (row_instrument r) (pos_dict st !! row_instrument r) = Ok pct ->
  fetch_history_dict E (row_instrument r) = Ok h ->
  ai_detect_signal E h (pos_dict st !! row_instrument r) = Ok sg ->
  od_getitem (inst_dict st) (row_instrument r) = Ok ie ->
  tradeable ie = None ->
  determine_sig_state E st df = Raise (AttributeError "tradeable").
Proof.
  intros Hlast Hpct Hh Hsg Hie Ht.
  unfold determine_sig_state. rewrite Hlast. cbn [rbind].
  rewrite Hpct. cbn [rbind]. rewrite Hh. cbn [rbind].
  rewrite Hsg. cbn [rbind]. rewrite Hie. cbn [rbind].
  rewrite Ht. reflexivity.
Qed.

(** Conversely an answer comes with a holding percentage, a history, a signal
    and an instrument that has the attribute [tradeable]. *)
Lemma determine_sig_state_inv E st df d :
  determine_sig_state E st df = Ok d ->
  exists r pct h sg ie t,
    last df = Some r /\
    pos_pct_of st (row_instrument r) (pos_dict st !! row_instrument r)
      = Ok pct /\
    fetch_history_dict E (row_instrument r) = Ok h /\
    ai_detect_signal E h (pos_dict st !! row_instrument r) = Ok sg /\
    od_getitem (inst_dict st) (row_instrument r) = Ok ie /\
    tradeable ie = Some t.
Proof.
  unfold determine_sig_state.
  destruct (last df) as [r|] eqn:Hlast; [|discriminate]. cbn [rbind].
  destruct (pos_pct_of _ _ _) as [pct|] eqn:Hpct; [|discriminate].
  cbn [rbind].
  destruct (fetch_history_dict E _) as [h|] eqn:Hh; [|discriminate].
  cbn [rbind].
  destruct (ai_detect_signal E h _) as [sg|] eqn:Hsg; [|discriminate].
  cbn [rbind].
  destruct (od_getitem _ _) as [ie|] eqn:Hie; [|discriminate].
  cbn [rbind].
  destruct (tradeable ie) as [t|] eqn:Ht; [|discriminate].
  intros _. exists r, pct, h, sg, ie, t. repeat split; assumption.
Qed.

(** The holding percentage divides by the balance before any rule is
    tried. *)
Lemma pos_pct_zero_balance st i p cost :
  unit_costs st !! i = Some cost ->
  balance st == 0 ->
  pos_pct_of st i (Some p) = Raise ZeroDivisionError.
Proof.
  intros Hc Hb. unfold pos_pct_of, getitem, truediv. rewrite Hc. cbn [rbind].
  apply Qeq_bool_iff in Hb. now rewrite Hb.
Qed.

Lemma determine_sig_state_zero_balance_raises E st df r p cost :
  last df = Some r ->
  pos_dict st !! row_instrument r = Some p ->
  unit_costs st !! row_instrument r = Some cost ->
  balance st == 0 ->
  determine_sig_state E st df = Raise ZeroDivisionError.
Proof.
  intros Hlast Hp Hc Hb. unfold determine_sig_state.
  rewrite Hlast. cbn [rbind]. rewrite Hp.
  now rewrite (pos_pct_zero_balance st _ p cost Hc Hb).
Qed.

(** C1 at the failing input: a tradeable instrument, 100 units held long and
    a balance of exactly zero.  The rule "NO FUND" applies
    ([int(balance) == 0]) and no rule of higher priority does, yet no
    action comes out: the holding percentage has already raised. *)
Theorem determine_sig_state_no_action_on_zero_balance :
  pos_dict zero_balance_trader !! "EUR_USD" = Some (Position long 100) /\
  od_getitem (inst_dict zero_balance_trader) "EUR_USD" = Ok eur_usd /\
  tradeable eur_usd = Some true /\
  Z.eqb (py_int (balance zero_balance_trader)) 0 = true /\
  determine_sig_state example_collaborators zero_balance_trader wide_rates
    = Raise ZeroDivisionError.
Proof. repeat split; reflexivity. Qed.

(** ** Health checks *)


(** The comparison is that of doubles: with a bid of 62.46875, an ask of
    62.53125 and a maximum of 0.001 the ratio is the double 0.001 and the
    check is true, although one thousandth is less than that double. *)
Lemma over_spread_at_the_double :
  _is_over_spread example_trader
    [RateRow "EUR_USD" (1998875 # 32000) (2001125 # 32000)] = Ok true /\
  (1 # 1000) < max_spread (cf example_trader).
Proof. split; vm_compute; reflexivity. Qed.



Lemma append_assoc (s t u : string) : (s +:+ t) +:+ u = s +:+ (t +:+ u).
Proof.
  induction s as [|c s IH]; [reflexivity|].
  change (String c ((s +:+ t) +:+ u) = String c (s +:+ (t +:+ u))).
  now rewrite IH.
Qed.

Lemma holding_label_not_lack pct s : holding_label pct s <> "LACK OF FUNDS".
Proof.
  unfold holding_label, format_1f.
  destruct s; rewrite append_assoc;
    generalize (pretty pct); intros t;
    do 14 (destruct t as [|? t];
           [intros H; cbv [String.append] in H; congruence|]);
    intros H; cbv [String.append] in H; congruence.
Qed.

(** C10.  The margin-lack check is false for every instrument with an open
    position, whatever the balance and the available margin; it is true
    exactly when there is no open position and the available margin is at
    most [balance * preserve], the product being the double that the code
    computes; and [determine_sig_state] answers the state "LACK OF FUNDS"
    only for an instrument without open position. *)
Theorem margin_lack_only_when_flat E st i :
  (forall p, pos_dict st !! i = Some p -> _is_margin_lack st i = false) /\
  (_is_margin_lack st i = true <->
     pos_dict st !! i = None /\
     margin_avail st <= fmul (balance st) (preserve (cf st))) /\
  (forall df r d,
     last df = Some r -> row_instrument r = i ->
     determine_sig_state E st df = Ok d ->
     state d = "LACK OF FUNDS" ->
     pos_dict st !! i = None /\ act d = None).
Proof.
  assert (Hiff : forall j, _is_margin_lack st j = true <->
            pos_dict st !! j = None /\
            margin_avail st <= fmul (balance st) (preserve (cf st))).
  { intros j. unfold _is_margin_lack.
    destruct (pos_dict st !! j) as [p|]; cbn [truthy negb andb].
    - split; [discriminate | intros [? _]; discriminate].
    - rewrite Qle_bool_iff. split; [intros; split; [reflexivity | assumption]
                                   | intros [_ ?]; assumption]. }
  split; [|split].
  - intros p Hp. unfold _is_margin_lack. now rewrite Hp.
  - apply Hiff.
  - intros df r d Hlast <- Hd Hstate.
    destruct (determine_sig_state_inv E st df d Hd)
      as (r' & pct & h & sg & ie & t & Hlast' & Hpct & Hh & Hsg & Hie & Ht).
    assert (r' = r) by congruence. subst r'.
    rewrite (determine_sig_state_eq E st df r pct h sg ie t) in Hd
      by assumption.
    unfold transition_table in Hd.
    destruct (negb t);
      [injection Hd as <-; discriminate|].
    destruct (sig_act_is sg closing);
      [injection Hd as <-; discriminate|].
    destruct (Z.eqb (py_int (balance st)) 0);
      [injection Hd as <-; discriminate|].
    destruct (_is_margin_lack st (row_instrument r)) eqn:Hml.
    { injection Hd as <-. split; [apply Hiff, Hml | reflexivity]. }
    destruct (np_ge (spread_ratio r) (max_spread (cf st)));
      [injection Hd as <-; discriminate|].
    exfalso.
    destruct (directional sg) as [[|]|];
      destruct (pos_side <$> pos_dict st !! row_instrument r) as [[|]|];
      injection Hd as <-; cbn [state] in Hstate;
      first [ discriminate
            | exact (holding_label_not_lack pct long Hstate)
            | exact (holding_label_not_lack pct short Hstate) ].
Qed.

(** The comparison is with the double [balance * preserve]: a balance of
    10 with a reserve of 0.3 and an available margin of 3 lacks margin, the
    double 0.3 being less than three tenths and ten times it rounding to
    3. *)
Lemma margin_lack_only_when_flat_witness :
  pos_dict zero_balance_trader !! "EUR_USD" = Some (Position long 100) /\
  _is_margin_lack zero_balance_trader "EUR_USD" = false /\
  pos_dict boundary_trader !! "EUR_USD" = None /\
  preserve (cf boundary_trader) < 3 # 10 /\
  fmul (balance boundary_trader) (preserve (cf boundary_trader)) == 3 /\
  _is_margin_lack boundary_trader "EUR_USD" = true /\
  determine_sig_state example_collaborators boundary_trader tight_rates
    = Ok (Decision None "LACK OF FUNDS" signal_above) /\
  (forall d,
     determine_sig_state example_collaborators boundary_trader tight_rates
       = Ok d ->
     state d = "LACK OF FUNDS" ->
     pos_dict boundary_trader !! "EUR_USD" = None /\ act d = None).
Proof.
  pose proof (margin_lack_only_when_flat example_collaborators
                zero_balance_trader "EUR_USD") as (Hheld & _ & _).
  pose proof (margin_lack_only_when_flat example_collaborators
                boundary_trader "EUR_USD") as (_ & Hiff & Hstate).
  split; [reflexivity|].
  split; [exact (Hheld (Position long 100) eq_refl)|].
  split; [reflexivity|].
  split; [vm_compute; reflexivity|].
  split; [vm_compute; reflexivity|].
  split.
  - apply (proj2 Hiff). split; [reflexivity|]. vm_compute. discriminate.
  - split; [vm_compute; reflexivity|].
    intros d. apply (Hstate tight_rates (RateRow "EUR_USD" (fl (11 # 10))
                                           (fl (11 # 10))));
      reflexivity.
Defined.

(** ** Placing orders *)

(** The display that builds [f_args] raises whatever the request: its inner
    braces make a set, which [**] cannot unpack, or fail to make one of a
    dictionary. *)
Lemma f_args_of_raises st closing_ kwargs :
  exists e, f_args_of st closing_ kwargs = Raise e.
Proof.
  unfold f_args_of. destruct closing_.
  - destruct (assoc "instrument" kwargs) as [v|]; cbn [rbind]; [|eauto].
    destruct v; cbn; eauto.
  - cbn. eauto.
Qed.

Lemma place_order_raises B closing_ kwargs st w :
  exists e, _place_order B closing_ kwargs st w = (Raise e, st, w).
Proof.
  destruct (f_args_of_raises st closing_ kwargs) as [e He].
  exists e. unfold _place_order, bind, get, lift. now rewrite He.
Qed.

Lemma place_order_close_type_error B st w i :
  _place_order B true [("instrument", PStr i)] st w
  = (Raise (TypeError "'set' object is not a mapping"), st, w).
Proof.
  unfold _place_order, bind, get, lift, f_args_of.
  cbn. destruct (truthy (pos_dict st !! i)); reflexivity.
Qed.

Lemma place_order_create_type_error B st w order :
  _place_order B false [("order", order)] st w
  = (Raise (TypeError "unhashable type: 'dict'"), st, w).
Proof. reflexivity. Qed.

(** C8 on the requests the trader makes.  Closing the position of an
    instrument, or creating an order, never gets as far as the [try] block:
    building [f_args] raises [TypeError], which leaves [_place_order]; no
    broker call is made, and nothing is logged or written, in dry-run mode
    or not. *)
Theorem place_order_raises_type_error B st w :
  (forall i,
     _place_order B true [("instrument", PStr i)] st w
     = (Raise (TypeError "'set' object is not a mapping"), st, w)) /\
  (forall order,
     _place_order B false [("order", order)] st w
     = (Raise (TypeError "unhashable type: 'dict'"), st, w)).
Proof.
  split.
  - apply place_order_close_type_error.
  - apply place_order_create_type_error.
Qed.

(** C6 where a position must first be closed.  The close request is never
    issued: [_place_order] raises, so [design_and_place_order] stops after
    its log line, without any broker call and without reading the
    transactions again. *)
Theorem design_and_place_order_close_raises B E st w i a p :
  pos_dict st !! i = Some p ->
  must_close (Some a) (Some p) = true ->
  design_and_place_order B E i (Some a) st w
  = (Raise (TypeError "'set' object is not a mapping"), st,
     World (now w) (Logged "Close a position" :: log w)).
Proof.
  intros Hp Hc. unfold design_and_place_order, bind, get. rewrite Hp, Hc.
  unfold emit. cbn [now log].
  set (w1 := World (now w) (Logged "Close a position" :: log w)).
  now rewrite (place_order_close_type_error B st w1 i).
Qed.

Lemma design_and_place_order_close_raises_witness :
  pos_dict long_trader !! "EUR_USD" = Some (Position long 100) /\
  must_close (Some (Act short)) (Some (Position long 100)) = true /\
  design_and_place_order example_broker example_collaborators "EUR_USD"
    (Some (Act short)) long_trader start_world
  = (Raise (TypeError "'set' object is not a mapping"), long_trader,
     World 0 [Logged "Close a position"]).
Proof.
  split; [reflexivity|]. split; [reflexivity|].
  apply (design_and_place_order_close_raises example_broker
           example_collaborators long_trader start_world "EUR_USD"
           (Act short) (Position long 100)); reflexivity.
Defined.

(** ** The control loop *)


(** Closes goals [silently_extends l (e1 :: ... :: l)]. *)
Ltac silent_events :=
  repeat (first [apply se_refl | apply se_cons; [reflexivity|]]).

Lemma step_of_api t c : exists s, step_of (Api t c) = Some s.
Proof. destruct c; cbn; eauto. Qed.

Lemma silent_no_api e : step_of e = None -> api_of e = None.
Proof.
  destruct e as [t c| | | | | |]; try reflexivity.
  destruct (step_of_api t c) as [s Hs]. congruence.
Qed.

Lemma run_spec_refl w : run_spec w w [] [].
Proof. exists []. repeat split. Qed.


Lemma silently_extends_run l l' :
  silently_extends l l' ->
  exists tr, l' = rev tr ++ l /\ steps tr = [] /\ omap api_of tr = [].
Proof.
  induction 1 as [|e l' He _ (tr & -> & Hs & Ha)].
  - exists []. repeat split.
  - exists (tr ++ [e]). unfold steps in *. rewrite !omap_app, Hs, Ha.
    cbn. rewrite He, (silent_no_api e He), rev_app_distr. repeat split.
Qed.

Lemma silent_run w w' :
  silently_extends (log w) (log w') -> run_spec w w' [] [].
Proof.
  intros H. destruct (silently_extends_run _ _ H) as (tr & Hl & Hs & Ha).
  exists tr. repeat split; assumption.
Qed.


(** [_sleep(last, sec)] is silent and returns no earlier than [last + sec]. *)
Lemma sleep_run last secs st w :
  exists w', _sleep last secs st w = (Ok tt, st, w') /\
             run_spec w w' [] [] /\ last + secs <= now w'.
Proof.
  unfold _sleep, bind, clock, sleep, ret.
  destruct (Qltb 0 (secs - (now w - last))) eqn:E.
  - eexists. split; [reflexivity|]. split.
    + apply silent_run. cbn. apply se_cons; [reflexivity | apply se_refl].
    + cbn. lra.
  - exists w. split; [reflexivity|]. split; [apply run_spec_refl|].
    apply Qltb_ge in E. lra.
Qed.

Lemma units_by_side_raises d : units_by_side d = Raise (KeyError "long").
Proof. reflexivity. Qed.










Lemma silently_extends_cons_inv e l l' :
  step_of e = None -> silently_extends (e :: l) l' -> silently_extends l l'.
Proof.
  intros He H. induction H as [|e' l' He' H IH].
  - apply se_cons; [exact He | apply se_refl].
  - apply se_cons; assumption.
Qed.

(** The sweep changes nothing in the trader and takes no step but its
    own. *)
Lemma expire_each_silent B ttl items : forall st w r st' w',
  for_each items (expire_position B ttl) st w = (r, st', w') ->
  st' = st /\ silently_extends (log w) (log w').
Proof.
  induction items as [|item items IH]; intros st w r st' w'.
  - cbn. unfold ret. intros H. injection H as <- <- <-.
    split; [reflexivity | apply se_refl].
  - cbn [for_each]. unfold bind at 1, expire_position, bind, clock, emit, ret.
    destruct (Qltb ttl (now w - pt_time (snd item))).
    + cbn [now log].
      destruct (place_order_raises B true [("instrument", PStr (fst item))] st
                  (World (now w)
                     (Logged "Close a position" :: Logged "sec elapsed" :: log w)))
        as [e ->].
      intros H. injection H as <- <- <-. split; [reflexivity|]. cbn [log].
      silent_events.
    + intros H. apply IH in H. destruct H as [-> H]. split; [reflexivity|].
      cbn [log] in H.
      now apply (silently_extends_cons_inv (Logged "sec elapsed")).
Qed.

(** The stamps are read against the time to live: the sweep returns when
    none is older, and raises at the first that is. *)
Lemma expire_each_result B ttl items : forall st w r st' w',
  for_each items (expire_position B ttl) st w = (r, st', w') ->
  now w' = now w /\
  (Forall (fun it => now w - pt_time (snd it) <= ttl) items -> r = Ok tt) /\
  (Exists (fun it => ttl < now w - pt_time (snd it)) items ->
   r = Raise (TypeError "'set' object is not a mapping")).
Proof.
  induction items as [|item items IH]; intros st w r st' w'.
  - cbn. unfold ret. intros H. injection H as <- <- <-.
    split; [reflexivity|]. split; [reflexivity|].
    intros H. now apply Exists_nil in H.
  - cbn [for_each]. unfold bind at 1, expire_position, bind, clock, emit, ret.
    destruct (Qltb ttl (now w - pt_time (snd item))) eqn:E.
    + apply Qltb_lt in E. cbn [now log].
      rewrite place_order_close_type_error.
      intros H. injection H as <- <- <-. cbn [now].
      split; [reflexivity|]. split; [|reflexivity].
      intros HF. apply Forall_cons in HF. destruct HF as [HF _].
      exfalso. lra.
    + apply Qltb_ge in E. cbn [now log]. intros H.
      apply IH in H. cbn [now] in H. destruct H as (Hn & HF & HE).
      split; [exact Hn|]. split.
      * intros H. apply Forall_cons in H. now apply HF.
      * intros H. apply Exists_cons in H. destruct H as [H|H]; [|now apply HE].
        exfalso. lra.
Qed.


Lemma expire_positions_run B ttl st w r st' w' :
  expire_positions B ttl st w = (r, st', w') ->
  st' = st /\ run_spec w w' [SSweep] [].
Proof.
  unfold expire_positions, bind at 1 2, emit, get. cbn [now log].
  intros H. apply expire_each_silent in H. destruct H as [-> H].
  split; [reflexivity|]. cbn [log] in H.
  destruct (silently_extends_run _ _ H) as (tr & Hl & Hs & Ha).
  exists (Entered ExpirePositions :: tr). unfold events_between, steps in *.
  cbn [omap list_omap rev api_of step_of]. cbn.
  rewrite Hs, Ha, Hl, <- app_assoc. repeat split.
Qed.




(** * Further properties of the code *)

(** ** [determine_sig_state] *)

(** X1.  Whenever the holding percentage, the history, the signal and the
    instrument of the last rate row are there, [determine_sig_state] reads
    the attribute [tradeable] of the instrument: it raises [AttributeError]
    when the instrument has none, and otherwise answers the entry of the
    table of rules taken in their order of priority: halted, closing signal,
    no fund, lack of margin, over-spread, then the direction of the signal
    against the side held. *)
Theorem determine_sig_state_follows_table E st df r pct h sg ie :
  last df = Some r ->
  pos_pct_of st (row_instrument r) (pos_dict st !! row_instrument r) = Ok pct ->
  fetch_history_dict E (row_instrument r) = Ok h ->
  ai_detect_signal E h (pos_dict st !! row_instrument r) = Ok sg ->
  od_getitem (inst_dict st) (row_instrument r) = Ok ie ->
  determine_sig_state E st df =
    match tradeable ie with
    | None => Raise (AttributeError "tradeable")
    | Some t =>
        Ok (Decision
              (fst (transition_table (negb t) (sig_act_is sg closing)
                      (Z.eqb (py_int (balance st)) 0)
                      (_is_margin_lack st (row_instrument r))
                      (np_ge (spread_ratio r) (max_spread (cf st)))
                      (directional sg)
                      (pos_side <$> pos_dict st !! row_instrument r) pct))
              (snd (transition_table (negb t) (sig_act_is sg closing)
                      (Z.eqb (py_int (balance st)) 0)
                      (_is_margin_lack st (row_instrument r))
                      (np_ge (spread_ratio r) (max_spread (cf st)))
                      (directional sg)
                      (pos_side <$> pos_dict st !! row_instrument r) pct))
              sg)
    end.
Proof.
  intros Hlast Hpct Hh Hsg Hie.
  destruct (tradeable ie) as [t|] eqn:Ht.
  - rewrite (determine_sig_state_eq E st df r pct h sg ie t) by assumption.
    destruct (transition_table _ _ _ _ _ _ _ _). reflexivity.
  - now apply (determine_sig_state_no_attribute E st df r pct h sg ie).
Qed.

Lemma determine_sig_state_follows_table_witness :
  last tight_rates = Some (RateRow "EUR_USD" (fl (11 # 10)) (fl (11 # 10))) /\
  od_getitem (inst_dict plain_trader) "EUR_USD" = Ok plain_eur_usd /\
  tradeable plain_eur_usd = None /\
  determine_sig_state example_collaborators plain_trader tight_rates
    = Raise (AttributeError "tradeable") /\
  pos_pct_of long_trader "EUR_USD" (pos_dict long_trader !! "EUR_USD")
    = Ok 1000%Z /\
  od_getitem (inst_dict long_trader) "EUR_USD" = Ok eur_usd /\
  determine_sig_state example_collaborators long_trader tight_rates
    = Ok (Decision None "1000.0% LONG" signal_above).
Proof.
  split; [reflexivity|]. split; [reflexivity|]. split; [reflexivity|].
  split.
  - apply (determine_sig_state_follows_table example_collaborators
             plain_trader tight_rates
             (RateRow "EUR_USD" (fl (11 # 10)) (fl (11 # 10))) 0 []
             signal_above plain_eur_usd); reflexivity.
  - split; [vm_compute; reflexivity|]. split; [reflexivity|].
    apply (determine_sig_state_follows_table example_collaborators
             long_trader tight_rates
             (RateRow "EUR_USD" (fl (11 # 10)) (fl (11 # 10))) 1000 []
             signal_above eur_usd); vm_compute; reflexivity.
Defined.

(** X2.  An answer that opens a position on side [s] is backed by every
    check: the instrument has the attribute [tradeable] and it is true, the
    signal is [s] and not closing,
    [int(balance)] is not zero, margin is not lacking, the spread is within
    bounds, and no position is held on side [s] already. *)
Theorem open_decision_is_checked E st df d s :
  determine_sig_state E st df = Ok d ->
  act d = Some (Act s) ->
  exists r ie,
    last df = Some r /\
    od_getitem (inst_dict st) (row_instrument r) = Ok ie /\
    tradeable ie = Some true /\
    Ewma.sig_act (sig d) = Some (Act s) /\
    py_int (balance st) <> 0%Z /\
    _is_margin_lack st (row_instrument r) = false /\
    _is_over_spread st df = Ok false /\
    side_is (pos_dict st !! row_instrument r) s = false.
Proof.
  intros Hd Hact.
  destruct (determine_sig_state_inv E st df d Hd)
    as (r & pct & h & sg & ie & t & Hlast & Hpct & Hh & Hsg & Hie & Ht).
  rewrite (determine_sig_state_eq E st df r pct h sg ie t) in Hd
    by assumption.
  exists r, ie. rewrite (is_over_spread_eq st df r Hlast), Ht.
  unfold transition_table, sig_act_is, directional, side_is in *.
  destruct t; cbn [negb] in Hd;
    [|injection Hd as <-; discriminate].
  destruct (Ewma.sig_act sg) as [[[|]|]|] eqn:Hs;
    cbn [action_eqb side_eqb] in Hd;
    try (injection Hd as <-; discriminate);
    (destruct (Z.eqb (py_int (balance st)) 0) eqn:Hb;
       [injection Hd as <-; discriminate|]);
    (destruct (_is_margin_lack st (row_instrument r));
       [injection Hd as <-; discriminate|]);
    (destruct (np_ge (spread_ratio r) (max_spread (cf st)));
       [injection Hd as <-; discriminate|]);
    apply Z.eqb_neq in Hb;
    destruct (pos_dict st !! row_instrument r) as [[[|] n]|];
    cbn in Hd; injection Hd as <-; cbn [act sig] in *;
    try discriminate; injection Hact as <-;
    repeat split; solve [assumption | reflexivity].
Qed.

Lemma open_decision_is_checked_witness :
  determine_sig_state example_collaborators example_trader tight_rates
    = Ok (Decision (Some (Act long)) "-> LONG" signal_above) /\
  exists r ie,
    last tight_rates = Some r /\
    od_getitem (inst_dict example_trader) (row_instrument r) = Ok ie /\
    tradeable ie = Some true /\
    Ewma.sig_act signal_above = Some (Act long) /\
    py_int (balance example_trader) <> 0%Z /\
    _is_margin_lack example_trader (row_instrument r) = false /\
    _is_over_spread example_trader tight_rates = Ok false /\
    side_is (pos_dict example_trader !! row_instrument r) long = false.
Proof.
  split; [vm_compute; reflexivity|].
  apply (open_decision_is_checked example_collaborators example_trader
           tight_rates (Decision (Some (Act long)) "-> LONG" signal_above)
           long); vm_compute; reflexivity.
Defined.

(** ** [_design_order_units] and [_design_order_limits] *)

(** X3.  The size of a short order is the size of the long order negated,
    and the two raise alike. *)
Theorem design_order_units_short_negates_long E st i :
  _design_order_units E st i short =
    match _design_order_units E st i long with
    | Ok u => Ok (- u)%Z
    | Raise e => Raise e
    end.
Proof.
  unfold _design_order_units.
  destruct (od_getitem (inst_dict st) i) as [ie|]; [|reflexivity].
  cbn [rbind].
  destruct (getitem (unit_costs st) i) as [cost|]; [|reflexivity].
  cbn [rbind].
  destruct (truediv (margin_headroom st) cost) as [q|]; [|reflexivity].
  cbn [rbind].
  destruct (bet_size E st i cost) as [bet|]; [|reflexivity].
  cbn [rbind side_sign]. f_equal.
  set (m := py_min3 _ _ _).
  rewrite (py_int_comp (m * -1) (- m)) by ring.
  rewrite (py_int_comp (m * 1) m) by ring.
  apply py_int_opp.
Qed.

(** X4.  With no margin beyond the reserve ([margin_avail <= balance *
    preserve], the condition of the margin-lack check: the product is the
    double that the code computes, or the exact product when the available
    margin is a double), a positive unit cost, a betting system that answers
    no negative size and non-negative maximum order units, the size is
    zero. *)
Theorem design_order_units_zero_without_headroom E st i s ie cost bet :
  od_getitem (inst_dict st) i = Ok ie ->
  unit_costs st !! i = Some cost ->
  0 < cost ->
  0 <= maximumOrderUnits ie ->
  bet_size E st i cost = Ok bet ->
  0 <= bet ->
  margin_avail st <= fmul (balance st) (preserve (cf st)) \/
  (fl (margin_avail st) == margin_avail st /\
   margin_avail st <= balance st * preserve (cf st)) ->
  _design_order_units E st i s = Ok 0%Z.
Proof.
  intros Hie Hcost Hc Hmax Hbet Hb Hm.
  assert (Hm' : margin_avail st <= fmul (balance st) (preserve (cf st))).
  { destruct Hm as [Hm | [Hd Hm]]; [exact Hm|].
    rewrite <- Hd. now apply fl_mono. }
  rewrite (design_order_units_eq E st i s ie cost bet) by assumption.
  f_equal.
  set (avail := py_max (np_ceil (fl (margin_headroom st / cost))) 0).
  assert (Hav : avail == 0).
  { unfold avail.
    destruct (py_max_spec (np_ceil (fl (margin_headroom st / cost))) 0)
      as [[_ ->] | [Hge ->]]; [reflexivity|].
    assert (Hh : margin_headroom st <= 0).
    { unfold margin_headroom, fsub. apply fl_nonpos. lra. }
    assert (Hq : fl (margin_headroom st / cost) <= 0).
    { apply fl_nonpos. unfold Qdiv.
      rewrite <- (Qmult_0_l (/ cost)). apply Qmult_le_compat_r; [lra|].
      apply Qlt_le_weak, Qinv_lt_0_compat, Hc. }
    apply np_ceil_mono in Hq. change (np_ceil 0) with 0 in Hq. lra. }
  set (m := py_min3 bet avail (inject_Z (py_int (maximumOrderUnits ie)))).
  assert (Hm0 : m == 0).
  { pose proof (py_min3_le_m bet avail
                  (inject_Z (py_int (maximumOrderUnits ie)))) as Hle.
    assert (0 <= avail) by (rewrite Hav; lra).
    pose proof (order_size_nonneg bet avail ie Hb H Hmax). fold m in Hle, H0.
    lra. }
  rewrite (py_int_comp (m * side_sign s) 0); [reflexivity|].
  rewrite Hm0. ring.
Qed.

Lemma design_order_units_zero_without_headroom_witness :
  od_getitem (inst_dict reserved_trader) "EUR_USD" = Ok eur_usd /\
  unit_costs reserved_trader !! "EUR_USD" = Some 100 /\
  0 < 100 /\
  0 <= maximumOrderUnits eur_usd /\
  bet_size example_collaborators reserved_trader "EUR_USD" 100 = Ok 5 /\
  0 <= 5 /\
  margin_avail reserved_trader
    <= fmul (balance reserved_trader) (preserve (cf reserved_trader)) /\
  _design_order_units example_collaborators reserved_trader "EUR_USD" short
    = Ok 0%Z.
Proof.
  repeat (split; [vm_compute; reflexivity || discriminate|]).
  apply (design_order_units_zero_without_headroom example_collaborators
           reserved_trader "EUR_USD" short eur_usd 100 5);
    try (vm_compute; reflexivity || discriminate).
  left. vm_compute. discriminate.
Defined.

(** X5.  [_design_order_units] raises [KeyError] for an instrument that
    [inst_dict] or [unit_costs] does not hold, [ZeroDivisionError] for a
    unit cost of zero, and [AttributeError] when some transaction of the
    list has no instrument. *)
Theorem design_order_units_errors E st i s :
  (assoc i (inst_dict st) = None ->
   _design_order_units E st i s = Raise (KeyError i)) /\
  (forall ie, assoc i (inst_dict st) = Some ie ->
   unit_costs st !! i = None ->
   _design_order_units E st i s = Raise (KeyError i)) /\
  (forall ie cost, assoc i (inst_dict st) = Some ie ->
   unit_costs st !! i = Some cost -> cost == 0 ->
   _design_order_units E st i s = Raise ZeroDivisionError) /\
  (forall ie cost, assoc i (inst_dict st) = Some ie ->
   unit_costs st !! i = Some cost -> ~ cost == 0 ->
   Exists (fun t => txn_instrument t = None) (txn_list st) ->
   _design_order_units E st i s = Raise (AttributeError "instrument")).
Proof.
  unfold _design_order_units, od_getitem, getitem.
  split; [|split; [|split]].
  - intros ->. reflexivity.
  - intros ie -> ->. reflexivity.
  - intros ie cost -> -> Hz. cbn [rbind]. unfold truediv.
    apply Qeq_bool_iff in Hz. now rewrite Hz.
  - intros ie cost -> -> Hz Hex. cbn [rbind].
    rewrite truediv_ok by exact Hz. cbn [rbind].
    unfold bet_size. rewrite !truediv_ok by exact Hz. cbn [rbind].
    assert (Hr : inst_txns_of i (txn_list st)
                 = Raise (AttributeError "instrument")).
    { induction Hex as [t l Ht | t l _ IH]; cbn [inst_txns_of].
      - now rewrite Ht.
      - destruct (txn_instrument t); [|reflexivity]. now rewrite IH. }
    now rewrite Hr.
Qed.

Lemma design_order_units_errors_witness :
  assoc "EUR_USD" (inst_dict costless_trader) = Some eur_usd /\
  unit_costs costless_trader !! "EUR_USD" = Some 0 /\
  0 == 0 /\
  _design_order_units example_collaborators costless_trader "EUR_USD" long
    = Raise ZeroDivisionError.
Proof.
  repeat (split; [reflexivity|]).
  apply (proj1 (proj2 (proj2 (design_order_units_errors example_collaborators
                                costless_trader "EUR_USD" long)))
           eur_usd 0); reflexivity.
Defined.

(** The pips of the trailing stop are truncated from a quotient of doubles:
    a ratio of 0.03125 on a price of 1 with pips of [10^-5] makes 3124 pips,
    the double [1e-05] being more than a hundred-thousandth. *)
Lemma trailing_stop_pips_of_doubles :
  np_int (np_div (fmul (1 # 32) 1) (np_float_power 10 (-5))) = Ok 3124%Z /\
  py_int ((1 # 32) * 1 / 10 ^ (-5)) = 3125%Z.
Proof. split; vm_compute; reflexivity. Qed.

(** X6.  The trailing-stop distance of an order never exceeds the
    instrument's maximum distance; when the minimum is at most the maximum
    it is at least the minimum, and it is the configured ratio of the price,
    in pips (the quotient of doubles that the code computes) and truncated,
    whenever that lies between the two. *)
Theorem design_order_limits_clamps E st i s l :
  _design_order_limits E st i s = Ok l ->
  exists ie rt,
    assoc i (inst_dict st) = Some ie /\ rate_dict st !! i = Some rt /\
    ~ np_float_power 10 (pipLocation ie) == 0 /\
    let r := match s with long => ask rt | short => bid rt end in
    let pips :=
      inject_Z (py_int (fl (fmul (cf_trailing_stop (cf st)) r
                            / np_float_power 10 (pipLocation ie)))) in
    trailing_stop_distance l <= maximumTrailingStopDistance ie /\
    (minimumTrailingStopDistance ie <= maximumTrailingStopDistance ie ->
     minimumTrailingStopDistance ie <= trailing_stop_distance l) /\
    (minimumTrailingStopDistance ie <= pips ->
     pips <= maximumTrailingStopDistance ie ->
     trailing_stop_distance l == pips).
Proof.
  unfold _design_order_limits, od_getitem, getitem.
  destruct (assoc i (inst_dict st)) as [ie|]; [|discriminate].
  destruct (rate_dict st !! i) as [rt|]; [|discriminate].
  cbn [rbind]. unfold np_div.
  destruct (Qeq_bool (np_float_power 10 (pipLocation ie)) 0) eqn:Ez.
  { destruct (Qltb 0 _); [discriminate|].
    destruct (Qltb _ 0); discriminate. }
  apply Qeq_bool_neq in Ez.
  cbn [np_int rbind]. intros H. injection H as <-. exists ie, rt.
  split; [reflexivity|]. split; [reflexivity|]. split; [exact Ez|].
  cbn [trailing_stop_distance].
  set (r := match s with long => ask rt | short => bid rt end).
  set (pips := inject_Z _).
  destruct (py_min_spec (py_max pips (minimumTrailingStopDistance ie))
              (maximumTrailingStopDistance ie)) as [[H1 ->] | [H1 ->]];
    destruct (py_max_spec pips (minimumTrailingStopDistance ie))
      as [[H2 Ex] | [H2 Ex]]; rewrite ?Ex in *;
    repeat split; intros; lra.
Qed.

Lemma design_order_limits_clamps_witness :
  (exists tp sl,
     _design_order_limits example_collaborators example_trader "EUR_USD" long
     = Ok (OrderLimits tp sl 100)) /\
  exists ie rt,
    assoc "EUR_USD" (inst_dict example_trader) = Some ie /\
    rate_dict example_trader !! "EUR_USD" = Some rt /\
    ~ np_float_power 10 (pipLocation ie) == 0 /\
    let r := ask rt in
    let pips :=
      inject_Z (py_int (fl (fmul (cf_trailing_stop (cf example_trader)) r
                            / np_float_power 10 (pipLocation ie)))) in
    100 <= maximumTrailingStopDistance ie /\
    (minimumTrailingStopDistance ie <= maximumTrailingStopDistance ie ->
     minimumTrailingStopDistance ie <= 100) /\
    (minimumTrailingStopDistance ie <= pips ->
     pips <= maximumTrailingStopDistance ie -> 100 == pips).
Proof.
  split; [eexists _, _; vm_compute; reflexivity|].
  destruct (_design_order_limits example_collaborators example_trader
              "EUR_USD" long) as [l|e] eqn:El; [|vm_compute in El; discriminate].
  assert (Ed : trailing_stop_distance l = 100).
  { vm_compute in El. injection El as <-. reflexivity. }
  rewrite <- Ed.
  apply (design_order_limits_clamps example_collaborators example_trader
           "EUR_USD" long l El).
Defined.

(** ** [_calculate_bp_value] and [_refresh_unit_costs] *)

Lemma split_nonempty sep s : exists w ws, split sep s = w :: ws.
Proof.
  induction s as [|c s (w & ws & IH)]; cbn [split]; [eauto|].
  destruct (Ascii.eqb c sep); [eauto|]. rewrite IH. eauto.
Qed.

Lemma split_no_underscore s :
  no_underscore s = true -> split underscore s = [s].
Proof.
  induction s as [|c s IH]; [reflexivity|].
  cbn [no_underscore split]. intros H. apply andb_true_iff in H.
  destruct H as [Hc Hs]. apply negb_true_iff in Hc. rewrite Hc.
  now rewrite (IH Hs).
Qed.

Lemma split_pair a rest :
  no_underscore a = true ->
  split underscore (a +:+ "_" +:+ rest) = a :: split underscore rest.
Proof.
  induction a as [|c a IH]; intros H.
  - reflexivity.
  - cbn [no_underscore] in H. apply andb_true_iff in H.
    destruct H as [Hc Hs]. apply negb_true_iff in Hc.
    change (String c a +:+ "_" +:+ rest)
      with (String c (a +:+ "_" +:+ rest)).
    cbn [split]. rewrite Hc. now rewrite (IH Hs).
Qed.

(** X7.  For a pair quoted in the account currency the break-even value of a
    unit is the ask price; for a pair based in the account currency it is
    the inverse of the ask price, and [ZeroDivisionError] when the ask is
    zero. *)
Theorem calculate_bp_value_direct st cur other rt :
  acc_currency st = Some cur ->
  no_underscore cur = true ->
  no_underscore other = true ->
  other <> cur ->
  (rate_dict st !! (other +:+ "_" +:+ cur) = Some rt ->
   _calculate_bp_value st (other +:+ "_" +:+ cur) = Ok (ask rt)) /\
  (rate_dict st !! (cur +:+ "_" +:+ other) = Some rt ->
   _calculate_bp_value st (cur +:+ "_" +:+ other) = truediv 1 (ask rt)).
Proof.
  intros Hcur Hn Ho Hne. unfold _calculate_bp_value, getitem.
  rewrite !split_pair, !split_no_underscore by assumption.
  cbn [list_getitem nth_error rbind]. rewrite Hcur. cbn [rbind].
  rewrite (proj2 (String.eqb_neq other cur) Hne), !String.eqb_refl.
  split; intros ->; reflexivity.
Qed.

Lemma calculate_bp_value_direct_witness :
  acc_currency example_trader = Some "USD" /\
  no_underscore "USD" = true /\
  no_underscore "EUR" = true /\
  "EUR" <> "USD" /\
  rate_dict example_trader !! "EUR_USD"
    = Some (Rate (fl (11 # 10)) (fl (11 # 10))) /\
  _calculate_bp_value example_trader "EUR_USD" = Ok (fl (11 # 10)).
Proof.
  split; [reflexivity|]. split; [reflexivity|]. split; [reflexivity|].
  split; [discriminate|]. split; [reflexivity|].
  apply (proj1 (calculate_bp_value_direct example_trader "USD" "EUR"
                  (Rate (fl (11 # 10)) (fl (11 # 10))) eq_refl eq_refl eq_refl
                  ltac:(discriminate))).
  reflexivity.
Defined.

(** X8.  [_calculate_bp_value] raises [AttributeError] while no account has
    been fetched, [KeyError] for a direct pair without rate, and
    [IndexError] for a cross pair when no instrument converts its quote
    currency into the account currency. *)
Theorem calculate_bp_value_errors st :
  (forall i, acc_currency st = None ->
   _calculate_bp_value st i = Raise (AttributeError "currency")) /\
  (forall cur other, acc_currency st = Some cur ->
   no_underscore cur = true -> no_underscore other = true -> other <> cur ->
   rate_dict st !! (other +:+ "_" +:+ cur) = None ->
   _calculate_bp_value st (other +:+ "_" +:+ cur)
   = Raise (KeyError (other +:+ "_" +:+ cur))) /\
  (forall cur a b, acc_currency st = Some cur ->
   no_underscore a = true -> no_underscore b = true ->
   a <> cur -> b <> cur ->
   Forall (fun n => same_set (split underscore n) [b; cur] = false)
     (map fst (inst_dict st)) ->
   _calculate_bp_value st (a +:+ "_" +:+ b) = Raise IndexError).
Proof.
  split; [|split].
  - intros i Hcur. unfold _calculate_bp_value. rewrite Hcur.
    destruct (split_nonempty underscore i) as (w & ws & ->). reflexivity.
  - intros cur other Hcur Hn Ho Hne Hr. unfold _calculate_bp_value, getitem.
    rewrite !split_pair, !split_no_underscore by assumption.
    cbn [list_getitem nth_error rbind]. rewrite Hcur. cbn [rbind].
    rewrite (proj2 (String.eqb_neq other cur) Hne), !String.eqb_refl, Hr.
    reflexivity.
  - intros cur a b Hcur Ha Hb Hac Hbc Hall. unfold _calculate_bp_value.
    rewrite !split_pair, !split_no_underscore by assumption.
    cbn [list_getitem nth_error rbind]. rewrite Hcur. cbn [rbind].
    rewrite (proj2 (String.eqb_neq a cur) Hac),
      (proj2 (String.eqb_neq b cur) Hbc).
    assert (Hnil : List.filter
                     (fun n => same_set (split underscore n) [b; cur])
                     (map fst (inst_dict st)) = []).
    { induction Hall as [|n l Hn _ IH]; [reflexivity|].
      cbn [List.filter]. now rewrite Hn. }
    now rewrite Hnil.
Qed.

Lemma calculate_bp_value_errors_witness :
  acc_currency unfetched_trader = None /\
  _calculate_bp_value unfetched_trader "EUR_USD"
  = Raise (AttributeError "currency").
Proof.
  split; [reflexivity|].
  apply (proj1 (calculate_bp_value_errors unfetched_trader) "EUR_USD").
  reflexivity.
Defined.

Lemma unit_cost_fold_raise st items e :
  fold_left (unit_cost_step st) items (Raise e) = Raise e.
Proof. induction items as [|x items IH]; [reflexivity | exact IH]. Qed.

Lemma unit_cost_fold_inv st items : forall m0 m,
  fold_left (unit_cost_step st) items (Ok m0) = Ok m ->
  (forall i c, m !! i = Some c ->
     m0 !! i = Some c \/
     (existsb (String.eqb i) (instruments st) = true /\
      exists ie bpv, In (i, ie) items /\
        _calculate_bp_value st i = Ok bpv /\ c = fmul bpv (marginRate ie))) /\
  (forall i, is_Some (m0 !! i) -> is_Some (m !! i)) /\
  (forall i ie, In (i, ie) items ->
     existsb (String.eqb i) (instruments st) = true -> is_Some (m !! i)).
Proof.
  induction items as [|[k ie] items IH]; intros m0 m.
  - cbn. intros H. injection H as <-.
    split; [auto|]. split; [auto|]. intros i ie [].
  - cbn [fold_left]. unfold unit_cost_step at 2. cbn [rbind fst snd].
    destruct (existsb (String.eqb k) (instruments st)) eqn:Hk.
    + destruct (_calculate_bp_value st k) as [bpv|e] eqn:Hb; cbn [rbind];
        [|rewrite unit_cost_fold_raise; discriminate].
      intros H. destruct (IH _ _ H) as (H1 & H2 & H3).
      split; [|split].
      * intros i c Hi. destruct (H1 i c Hi) as [Hm | (Hin & ie' & b & Hx & Hy)].
        -- destruct (decide (k = i)) as [->|Hne].
           ++ rewrite lookup_insert_eq in Hm. injection Hm as <-.
              right. split; [exact Hk|]. exists ie, bpv.
              split; [now left | split; [exact Hb | reflexivity]].
           ++ rewrite lookup_insert_ne in Hm by exact Hne. now left.
        -- right. split; [exact Hin|]. exists ie', b.
           split; [now right | exact Hy].
      * intros i Hi. apply H2. destruct (decide (k = i)) as [->|Hne].
        -- rewrite lookup_insert_eq. eauto.
        -- now rewrite lookup_insert_ne by exact Hne.
      * intros i ie' [Heq | Hin] Hc.
        -- injection Heq as <- <-. apply H2. rewrite lookup_insert_eq. eauto.
        -- now apply (H3 i ie').
    + intros H. destruct (IH _ _ H) as (H1 & H2 & H3).
      split; [|split].
      * intros i c Hi. destruct (H1 i c Hi) as [Hm | (Hin & ie' & b & Hx & Hy)].
        -- now left.
        -- right. split; [exact Hin|]. exists ie', b.
           split; [now right | exact Hy].
      * exact H2.
      * intros i ie' [Heq | Hin] Hc.
        -- injection Heq as <- <-. congruence.
        -- now apply (H3 i ie').
Qed.

(** X9.  After [_refresh_unit_costs] the unit costs are replaced wholesale:
    an instrument has a unit cost exactly when it is configured and known
    to [inst_dict], and the cost is the break-even value of a unit times a
    margin rate of that name, as a double; nothing else of the trader
    changes. *)
Theorem refresh_unit_costs_spec st st' :
  _refresh_unit_costs st = Ok st' ->
  st' = set_unit_costs st (unit_costs st') /\
  (forall i c, unit_costs st' !! i = Some c ->
     existsb (String.eqb i) (instruments st) = true /\
     exists ie bpv, In (i, ie) (inst_dict st) /\
       _calculate_bp_value st i = Ok bpv /\ c = fmul bpv (marginRate ie)) /\
  (forall i ie, In (i, ie) (inst_dict st) ->
     existsb (String.eqb i) (instruments st) = true ->
     is_Some (unit_costs st' !! i)).
Proof.
  unfold _refresh_unit_costs.
  destruct (fold_left (unit_cost_step st) (inst_dict st) (Ok ∅))
    as [m|e] eqn:Hf; [|discriminate].
  cbn [rbind]. intros H. injection H as <-.
  destruct (unit_cost_fold_inv st _ _ _ Hf) as (H1 & _ & H3).
  split; [reflexivity|]. cbn [unit_costs set_unit_costs]. split.
  - intros i c Hi. destruct (H1 i c Hi) as [Hm | Hr]; [|exact Hr].
    rewrite lookup_empty in Hm. discriminate.
  - exact H3.
Qed.

Lemma refresh_unit_costs_spec_witness :
  _refresh_unit_costs example_trader
  = Ok (set_unit_costs example_trader
          {["EUR_USD" := fmul (fl (11 # 10)) (fl (1 # 25))]}) /\
  (forall i c,
     ({["EUR_USD" := fmul (fl (11 # 10)) (fl (1 # 25))]} : gmap string Q) !! i = Some c ->
     existsb (String.eqb i) (instruments example_trader) = true /\
     exists ie bpv, In (i, ie) (inst_dict example_trader) /\
       _calculate_bp_value example_trader i = Ok bpv /\
       c = fmul bpv (marginRate ie)).
Proof.
  split; [reflexivity|].
  destruct (refresh_unit_costs_spec example_trader
              (set_unit_costs example_trader
                 {["EUR_USD" := fmul (fl (11 # 10)) (fl (1 # 25))]}))
    as (_ & H & _); [reflexivity | exact H].
Defined.


(** ** Refreshing the snapshot *)

Lemma pos_fold_lookup ps i : forall m : gmap string position,
  fold_left
    (fun m d =>
       match pos_entry d with
       | Some p => <[ap_instrument d := p]> m
       | None => m
       end) ps m !! i
  = match last (omap (fun d => if String.eqb (ap_instrument d) i
                               then pos_entry d else None) ps) with
    | Some p => Some p
    | None => m !! i
    end.
Proof.
  induction ps as [|d ps IH]; intros m; [reflexivity|].
  cbn [fold_left omap list_omap]. rewrite IH.
  destruct (String.eqb_spec (ap_instrument d) i) as [->|Hne];
    destruct (pos_entry d) as [p|]; try reflexivity.
  - rewrite last_cons.
    destruct (last (omap _ ps)); [reflexivity|].
    now simplify_map_eq.
  - destruct (last (omap _ ps)); [reflexivity|].
    now simplify_map_eq.
Qed.

Lemma pos_entry_inv d p :
  pos_entry d = Some p ->
  (ps_tradeIDs (ap_long d) <> [] /\ p = Position long (ps_units (ap_long d)))
  \/ (ps_tradeIDs (ap_long d) = [] /\ ps_tradeIDs (ap_short d) <> [] /\
      p = Position short (ps_units (ap_short d))).
Proof.
  unfold pos_entry.
  destruct (ps_tradeIDs (ap_long d)); [destruct (ps_tradeIDs (ap_short d))|];
    intros H; try discriminate; injection H as <-.
  - right. repeat split; discriminate.
  - left. split; [discriminate | reflexivity].
Qed.

(** X10.  [pos_dict] built from the positions of the account: the entry of
    an instrument is that of the last reported position of this instrument
    that has trades on a side; it shows the long side and its units when
    the long side has trades, the short side otherwise; an instrument has
    no entry exactly when none of its reported positions has a trade. *)
Theorem pos_dict_of_lookup ps i :
  pos_dict_of ps !! i
  = last (omap (fun d => if String.eqb (ap_instrument d) i
                         then pos_entry d else None) ps) /\
  (forall p, pos_dict_of ps !! i = Some p ->
     exists d, In d ps /\ ap_instrument d = i /\
       ((ps_tradeIDs (ap_long d) <> [] /\
         p = Position long (ps_units (ap_long d))) \/
        (ps_tradeIDs (ap_long d) = [] /\ ps_tradeIDs (ap_short d) <> [] /\
         p = Position short (ps_units (ap_short d))))) /\
  (pos_dict_of ps !! i = None <->
     forall d, In d ps -> ap_instrument d = i ->
       ps_tradeIDs (ap_long d) = [] /\ ps_tradeIDs (ap_short d) = []).
Proof.
  assert (L : pos_dict_of ps !! i
    = last (omap (fun d => if String.eqb (ap_instrument d) i
                         then pos_entry d else None) ps)).
  { unfold pos_dict_of. rewrite pos_fold_lookup.
    destruct (last _); [reflexivity | apply lookup_empty]. }
  split; [exact L|]. rewrite L. clear L. split.
  - intros p Hp. apply last_Some in Hp. destruct Hp as [l' Hl'].
    assert (Hin : p ∈ omap (fun d => if String.eqb (ap_instrument d) i
                         then pos_entry d else None) ps).
    { rewrite Hl'. apply elem_of_app. right. apply list_elem_of_singleton.
      reflexivity. }
    apply list_elem_of_omap in Hin. destruct Hin as (d & Hd & Hf).
    exists d. split; [now apply list_elem_of_In|].
    destruct (String.eqb_spec (ap_instrument d) i) as [->|]; [|discriminate].
    split; [reflexivity|]. now apply pos_entry_inv.
  - rewrite last_None. split.
    + intros Hnil d Hd Hi.
      destruct (pos_entry d) as [p|] eqn:Hp.
      * exfalso.
        assert (Hin : p ∈ omap (fun d => if String.eqb (ap_instrument d) i
                         then pos_entry d else None) ps).
        { apply list_elem_of_omap. exists d.
          split; [now apply list_elem_of_In|].
          rewrite <- Hi, String.eqb_refl. exact Hp. }
        rewrite Hnil in Hin. now apply elem_of_nil in Hin.
      * unfold pos_entry in Hp.
        destruct (ps_tradeIDs (ap_long d)); [|discriminate].
        destruct (ps_tradeIDs (ap_short d)); [|discriminate]. now split.
    + intros Hall.
      induction ps as [|d ps IH]; [reflexivity|].
      cbn [omap list_omap].
      rewrite IH by (intros d' Hd'; apply Hall; now right).
      destruct (String.eqb_spec (ap_instrument d) i) as [Hi|]; [|reflexivity].
      destruct (Hall d (or_introl eq_refl) Hi) as [Hl Hs].
      unfold pos_entry. now rewrite Hl, Hs.
Qed.

Lemma refresh_account_eq B st w :
  _refresh_account_dicts B st w =
  match account_get B w with
  | Ok acc =>
      let pd := pos_dict_of (positions acc) in
      (match map_to_list pd with
       | [] => Ok tt
       | _ :: _ => Raise (KeyError "long")
       end,
       set_snapshot st (Some (currency acc)) (acc_balance acc)
         (acc_marginAvailable acc) pd
         (List.filter (fun e => truthy (pd !! fst e)) (ptime_dict st)),
       World (now w + latency B w)
         (Logged "response: account.get" :: Api (now w) AccountGet :: log w))
  | Raise e =>
      (Raise e, st,
       World (now w + latency B w) (Api (now w) AccountGet :: log w))
  end.
Proof.
  unfold _refresh_account_dicts, bind, call, emit, get, put, clock.
  destruct (account_get B w) as [acc|e]; [|reflexivity]. cbn [now log].
  destruct (map_to_list (pos_dict_of (positions acc))) as [|x items];
    reflexivity.
Qed.

(** X11.  [_refresh_account_dicts]: when the broker call raises, the
    exception leaves the method and the trader is untouched.  When it
    answers, the currency, the balance, the available margin and [pos_dict]
    are replaced and the stamps of instruments without a position are
    dropped; the method then returns normally only if no position is open:
    with an open position the loop over [pos_dict] raises [KeyError]
    (['long']), the entry of [pos_dict] having the keys [side] and
    [units]. *)
Theorem refresh_account_dicts_spec B st w :
  match account_get B w with
  | Ok acc =>
      let pd := pos_dict_of (positions acc) in
      exists r,
        _refresh_account_dicts B st w =
          (r,
           set_snapshot st (Some (currency acc)) (acc_balance acc)
             (acc_marginAvailable acc) pd
             (List.filter (fun e => truthy (pd !! fst e)) (ptime_dict st)),
           World (now w + latency B w)
             (Logged "response: account.get" :: Api (now w) AccountGet
                :: log w)) /\
        (pd = ∅ -> r = Ok tt) /\
        (pd <> ∅ -> r = Raise (KeyError "long"))
  | Raise e =>
      _refresh_account_dicts B st w =
        (Raise e, st,
         World (now w + latency B w) (Api (now w) AccountGet :: log w))
  end.
Proof.
  rewrite refresh_account_eq.
  destruct (account_get B w) as [acc|e]; [|reflexivity]. cbn zeta.
  eexists. split; [reflexivity|].
  destruct (map_to_list (pos_dict_of (positions acc))) as [|x items] eqn:E.
  - split; [reflexivity|]. intros Hne. exfalso. apply Hne.
    now apply map_to_list_empty_iff.
  - split; [|reflexivity]. intros He. rewrite He, map_to_list_empty in E.
    discriminate.
Qed.

Lemma filter_no_position (t0 : list (string * ptime)) :
  List.filter (fun e => truthy ((∅ : gmap string position) !! fst e)) t0 = [].
Proof.
  induction t0 as [|e t0 IH]; [reflexivity|].
  cbn [List.filter]. now rewrite lookup_empty.
Qed.

Lemma refresh_account_ok B st w st' w' :
  _refresh_account_dicts B st w = (Ok tt, st', w') ->
  pos_dict st' = ∅ /\ ptime_dict st' = [] /\ acc_currency st' <> None.
Proof.
  rewrite refresh_account_eq.
  destruct (account_get B w) as [acc|e]; [|discriminate]. cbn zeta.
  destruct (map_to_list (pos_dict_of (positions acc))) as [|x items] eqn:E;
    [|discriminate].
  apply map_to_list_empty_iff in E. rewrite E.
  intros H. injection H as <- <-. cbn.
  rewrite filter_no_position. repeat split. discriminate.
Qed.

Lemma refresh_txn_eq B st w :
  exists w',
    now w' == now w + latency B w /\
    _refresh_txn_list B st w =
      match
        match last_txn_id st with
        | Some id =>
            if String.eqb id EmptyString then transaction_list B w
            else transaction_since B w id
        | None => transaction_list B w
        end
      with
      | Ok res =>
          (Ok tt,
           set_txns st (Some (lastTransactionID res))
             (txn_list st ++ default [] (transactions res)), w')
      | Raise e => (Raise e, st, w')
      end.
Proof.
  unfold _refresh_txn_list, bind, get, call, emit, put, print_log,
    _write_data, ret, bind, get, emit.
  destruct (last_txn_id st) as [id|]; [destruct (String.eqb id EmptyString)|];
    match goal with
    | |- context [match ?a with Ok _ => _ | Raise _ => _ end] =>
        destruct a as [res|e]
    end;
    try (destruct (transactions res) as [[|t ts]|]);
    cbn [now log quiet txn_log_path set_txns default txn_list last_txn_id];
    try (destruct (quiet st)); try (destruct (txn_log_path st));
    cbn [now log]; rewrite ?app_nil_r;
    (eexists; split; [|reflexivity]); cbn [now]; reflexivity.
Qed.

(** X12.  [_refresh_txn_list] asks for all transactions while no last id is
    known (or it is empty) and for those since the last id otherwise; the
    call takes the time of one broker call.  When the call raises, the
    exception leaves the method and the trader is untouched; otherwise the
    last id becomes the one of the response and the transactions of the
    response, if any, are appended to the list, whatever is printed or
    written. *)
Theorem refresh_txn_list_spec B st w :
  exists w',
    now w' == now w + latency B w /\
    _refresh_txn_list B st w =
      match
        match last_txn_id st with
        | Some id =>
            if String.eqb id EmptyString then transaction_list B w
            else transaction_since B w id
        | None => transaction_list B w
        end
      with
      | Ok res =>
          (Ok tt,
           set_txns st (Some (lastTransactionID res))
             (txn_list st ++ default [] (transactions res)), w')
      | Raise e => (Raise e, st, w')
      end.
Proof. apply refresh_txn_eq. Qed.

Lemma assoc_od_set {V} k (v : V) d k' :
  assoc k' (od_set k v d)
  = if String.eqb k' k then Some v else assoc k' d.
Proof.
  induction d as [|[k0 v0] d IH]; cbn [od_set assoc].
  - now destruct (String.eqb k' k).
  - destruct (String.eqb_spec k k0) as [->|Hne]; cbn [assoc].
    + now destruct (String.eqb k' k0).
    + rewrite IH. destruct (String.eqb_spec k' k0) as [->|]; [|reflexivity].
      destruct (String.eqb_spec k0 k); [congruence | reflexivity].
Qed.

Lemma od_set_keys {V} k (v : V) d :
  map fst (od_set k v d)
  = if existsb (String.eqb k) (map fst d) then map fst d
    else map fst d ++ [k].
Proof.
  induction d as [|[k0 v0] d IH]; cbn [od_set map fst existsb]; [reflexivity|].
  destruct (String.eqb_spec k k0) as [->|Hne]; cbn [orb map fst];
    [reflexivity|].
  rewrite IH. now destruct (existsb (String.eqb k) (map fst d)).
Qed.

Lemma od_set_nodup {V} k (v : V) d :
  NoDup (map fst d) -> NoDup (map fst (od_set k v d)).
Proof.
  intros H. rewrite od_set_keys.
  destruct (existsb (String.eqb k) (map fst d)) eqn:E; [exact H|].
  apply NoDup_app. split; [exact H|]. split; [|apply NoDup_singleton].
  intros x Hx Hk. apply list_elem_of_singleton in Hk. subst x.
  assert (Ht : existsb (String.eqb k) (map fst d) = true).
  { apply existsb_exists. exists k.
    split; [now apply list_elem_of_In | apply String.eqb_refl]. }
  congruence.
Qed.

Lemma inst_fold_spec cs : forall d : list (string * instrument_info),
  NoDup (map fst d) ->
  let d' := fold_left (fun d c => od_set (inst_name c) c d) cs d in
  NoDup (map fst d') /\
  forall n,
    assoc n d'
    = match last (List.filter (fun c => String.eqb (inst_name c) n) cs) with
      | Some c => Some c
      | None => assoc n d
      end.
Proof.
  induction cs as [|c cs IH]; intros d Hd; cbn zeta.
  - split; [exact Hd | reflexivity].
  - cbn [fold_left List.filter].
    destruct (IH (od_set (inst_name c) c d) (od_set_nodup _ _ _ Hd))
      as [Hn Ha].
    split; [exact Hn|]. intros n. rewrite Ha, assoc_od_set.
    rewrite (String.eqb_sym n).
    destruct (String.eqb (inst_name c) n).
    + rewrite last_cons. now destruct (last _).
    + reflexivity.
Qed.

(** X13.  [_refresh_inst_dict] replaces [inst_dict] by the instruments of
    the response: no name occurs twice, and a name maps to the last
    instrument of the response with this name (to none if there is none);
    when the call raises, the trader is untouched. *)
Theorem refresh_inst_dict_spec B st w :
  let w1 := World (now w + latency B w)
              (Api (now w) AccountInstruments :: log w) in
  match account_instruments B w with
  | Ok cs =>
      exists d,
        _refresh_inst_dict B st w =
          (Ok tt, set_inst_dict st d,
           World (now w1) (Logged "response: account.instruments" :: log w1))
        /\ NoDup (map fst d)
        /\ forall n,
             assoc n d
             = last (List.filter (fun c => String.eqb (inst_name c) n) cs)
  | Raise e => _refresh_inst_dict B st w = (Raise e, st, w1)
  end.
Proof.
  unfold _refresh_inst_dict, bind, call, emit, get, put. cbn zeta.
  destruct (account_instruments B w) as [cs|e]; [|reflexivity].
  eexists. split; [reflexivity|].
  destruct (inst_fold_spec cs [] (NoDup_nil_2 (A:=string))) as [Hn Ha].
  split; [exact Hn|]. intros n. rewrite Ha. now destruct (last _).
Qed.

Lemma rate_fold_lookup ps i : forall m : gmap string rate,
  fold_left
    (fun m p =>
       <[price_instrument p := Rate (closeoutBid p) (closeoutAsk p)]> m)
    ps m !! i
  = match last (List.filter (fun p => String.eqb (price_instrument p) i) ps)
    with
    | Some p => Some (Rate (closeoutBid p) (closeoutAsk p))
    | None => m !! i
    end.
Proof.
  induction ps as [|p ps IH]; intros m; [reflexivity|].
  cbn [fold_left List.filter]. rewrite IH.
  destruct (String.eqb_spec (price_instrument p) i) as [->|Hne].
  - rewrite last_cons.
    destruct (last _); [reflexivity|]. now simplify_map_eq.
  - destruct (last _); [reflexivity|]. now simplify_map_eq.
Qed.

(** X14.  [_refresh_rate_dict] asks for the prices of exactly the names of
    [inst_dict], in its order, and replaces the rates: an instrument maps to
    the closeout bid and ask of its last price in the response, and has no
    rate when the response has no price for it; when the call raises, the
    trader is untouched. *)
Theorem refresh_rate_dict_spec B st w :
  let names := map fst (inst_dict st) in
  let w1 := World (now w + latency B w)
              (Api (now w) (PricingGet names) :: log w) in
  match pricing_get B w names with
  | Ok ps =>
      exists d,
        _refresh_rate_dict B st w =
          (Ok tt, set_rate_dict st d,
           World (now w1) (Logged "response: pricing.get" :: log w1))
        /\ forall i,
             d !! i
             = (fun p => Rate (closeoutBid p) (closeoutAsk p))
               <$> last (List.filter
                           (fun p => String.eqb (price_instrument p) i) ps)
  | Raise e => _refresh_rate_dict B st w = (Raise e, st, w1)
  end.
Proof.
  unfold _refresh_rate_dict, bind, call, emit, get, put. cbn zeta.
  destruct (pricing_get B w (map fst (inst_dict st))) as [ps|e];
    [|reflexivity].
  eexists. split; [reflexivity|].
  intros i. rewrite rate_fold_lookup.
  destruct (last _); [reflexivity | apply lookup_empty].
Qed.

Lemma refresh_txn_keeps B st w r st' w' :
  _refresh_txn_list B st w = (r, st', w') ->
  pos_dict st' = pos_dict st /\ ptime_dict st' = ptime_dict st /\
  acc_currency st' = acc_currency st /\
  (r = Ok tt -> last_txn_id st' <> None).
Proof.
  destruct (refresh_txn_eq B st w) as (w1 & _ & ->).
  destruct (match last_txn_id st with
            | Some id => if String.eqb id EmptyString
                         then transaction_list B w
                         else transaction_since B w id
            | None => transaction_list B w
            end) as [res|e];
    intros H; injection H as <- <- <-; cbn; repeat split; discriminate.
Qed.

Lemma refresh_inst_keeps B st w r st' w' :
  _refresh_inst_dict B st w = (r, st', w') ->
  pos_dict st' = pos_dict st /\ ptime_dict st' = ptime_dict st /\
  acc_currency st' = acc_currency st /\ last_txn_id st' = last_txn_id st.
Proof.
  unfold _refresh_inst_dict, bind, call, emit, get, put.
  destruct (account_instruments B w) as [cs|e];
    intros H; injection H as <- <- <-; cbn; repeat split.
Qed.

Lemma refresh_rate_keeps B st w r st' w' :
  _refresh_rate_dict B st w = (r, st', w') ->
  pos_dict st' = pos_dict st /\ ptime_dict st' = ptime_dict st /\
  acc_currency st' = acc_currency st /\ last_txn_id st' = last_txn_id st.
Proof.
  unfold _refresh_rate_dict, bind, call, emit, get, put.
  destruct (pricing_get B w (map fst (inst_dict st))) as [ps|e];
    intros H; injection H as <- <- <-; cbn; repeat split.
Qed.

Lemma refresh_ok_flat B st w st' w' :
  refresh_oanda_dicts B st w = (Ok tt, st', w') ->
  pos_dict st' = ∅ /\ ptime_dict st' = [] /\
  acc_currency st' <> None /\ last_txn_id st' <> None.
Proof.
  unfold refresh_oanda_dicts, bind, clock.
  destruct (_refresh_account_dicts B st w) as [[r1 st1] w1] eqn:H1.
  destruct r1 as [[]|e]; [|discriminate].
  destruct (refresh_account_ok _ _ _ _ _ H1) as (P1 & T1 & C1).
  destruct (sleep_run (now w) (1 # 2) st1 w1) as (w2 & -> & _).
  destruct (_refresh_txn_list B st1 w2) as [[r2 st2] w3] eqn:H2.
  destruct (refresh_txn_keeps _ _ _ _ _ _ H2) as (P2 & T2 & C2 & L2).
  destruct r2 as [[]|e]; [|discriminate].
  destruct (sleep_run (now w) 1 st2 w3) as (w4 & -> & _).
  destruct (_refresh_inst_dict B st2 w4) as [[r3 st3] w5] eqn:H3.
  destruct (refresh_inst_keeps _ _ _ _ _ _ H3) as (P3 & T3 & C3 & L3).
  destruct r3 as [[]|e]; [|discriminate].
  destruct (sleep_run (now w) (3 # 2) st3 w5) as (w6 & -> & _).
  destruct (_refresh_rate_dict B st3 w6) as [[r4 st4] w7] eqn:H4.
  destruct (refresh_rate_keeps _ _ _ _ _ _ H4) as (P4 & T4 & C4 & L4).
  destruct r4 as [[]|e]; [|discriminate].
  unfold get, lift, put, _refresh_unit_costs.
  destruct (fold_left (unit_cost_step st4) (inst_dict st4) (Ok ∅))
    as [costs|e]; [|discriminate].
  cbn. intros H. injection H as <- <-. cbn.
  specialize (L2 eq_refl). repeat split; congruence.
Qed.

(** X15.  Whenever [refresh_oanda_dicts] returns normally, the trader holds
    no position and no stamp, and knows the account's currency and a last
    transaction id: a refresh that finds an open position raises. *)
Theorem refresh_oanda_dicts_ok_flat B st w st' w' :
  refresh_oanda_dicts B st w = (Ok tt, st', w') ->
  pos_dict st' = ∅ /\ ptime_dict st' = [] /\
  acc_currency st' <> None /\ last_txn_id st' <> None.
Proof. apply refresh_ok_flat. Qed.

Lemma refresh_oanda_dicts_ok_flat_witness :
  refresh_oanda_dicts example_broker fresh_trader start_world
  = (Ok tt, snd (fst fresh_refresh_run), snd fresh_refresh_run) /\
  pos_dict (snd (fst fresh_refresh_run)) = ∅ /\
  ptime_dict (snd (fst fresh_refresh_run)) = [] /\
  acc_currency (snd (fst fresh_refresh_run)) <> None /\
  last_txn_id (snd (fst fresh_refresh_run)) <> None.
Proof.
  split; [vm_compute; reflexivity|].
  apply (refresh_oanda_dicts_ok_flat example_broker fresh_trader start_world
           (snd (fst fresh_refresh_run)) (snd fresh_refresh_run)).
  vm_compute. reflexivity.
Defined.


(** ** Sleeping, sweeping and ordering *)

(** X16.  [_sleep(last, sec)] always returns and leaves the trader alone:
    when [sec] seconds have passed since [last] it does nothing at all, and
    otherwise it sleeps once, for the rest, so that the clock then shows
    [last + sec]. *)
Theorem sleep_waits_for_the_rest last secs st w :
  exists w',
    _sleep last secs st w = (Ok tt, st, w') /\
    (last + secs <= now w -> w' = w) /\
    (now w < last + secs ->
     now w' == last + secs /\
     log w' = Slept (now w) (secs - (now w - last)) :: log w).
Proof.
  unfold _sleep, bind, clock, sleep, ret.
  destruct (Qltb 0 (secs - (now w - last))) eqn:E.
  - apply Qltb_lt in E. eexists. split; [reflexivity|]. split.
    + intros H. exfalso. lra.
    + intros _. cbn. split; [ring | reflexivity].
  - apply Qltb_ge in E. exists w. split; [reflexivity|].
    split; [reflexivity|]. intros H. exfalso. lra.
Qed.

(** X17.  [expire_positions] never changes the trader, takes no time and
    makes no broker call.  It returns normally when no stamp is older than
    the time to live; when one is, the attempt to close its position raises
    the [TypeError] of [_place_order], which leaves the sweep. *)
Theorem expire_positions_spec B ttl st w r st' w' :
  expire_positions B ttl st w = (r, st', w') ->
  st' = st /\ now w' = now w /\ run_spec w w' [SSweep] [] /\
  (Forall (fun it => now w - pt_time (snd it) <= ttl) (ptime_dict st) ->
   r = Ok tt) /\
  (Exists (fun it => ttl < now w - pt_time (snd it)) (ptime_dict st) ->
   r = Raise (TypeError "'set' object is not a mapping")).
Proof.
  intros H. destruct (expire_positions_run _ _ _ _ _ _ _ H) as [-> R].
  split; [reflexivity|]. revert H.
  unfold expire_positions, bind at 1 2, emit, get. cbn [now log].
  intros H. apply expire_each_result in H. cbn [now] in H.
  destruct H as (Hn & HF & HE). repeat split; assumption.
Qed.

Lemma expire_positions_spec_witness :
  expire_positions example_broker 50 stamped_trader late_world
  = (Raise (TypeError "'set' object is not a mapping"), stamped_trader,
     snd late_sweep_run) /\
  now (snd late_sweep_run) = now late_world /\
  run_spec late_world (snd late_sweep_run) [SSweep] [].
Proof.
  split; [vm_compute; reflexivity|].
  destruct (expire_positions_spec example_broker 50 stamped_trader late_world
              (Raise (TypeError "'set' object is not a mapping"))
              stamped_trader (snd late_sweep_run))
    as (_ & Hn & Hr & _); [vm_compute; reflexivity|].
  split; [exact Hn | exact Hr].
Defined.

Lemma must_close_closing_flat pos :
  must_close (Some closing) pos = false -> pos = None.
Proof. destruct pos; [discriminate | reflexivity]. Qed.

Lemma design_and_place_order_run B E i a st w r st' w' :
  design_and_place_order B E i a st w = (r, st', w') ->
  st' = st /\ now w' = now w /\ silently_extends (log w) (log w') /\
  (r = Ok tt <-> a = None \/ (a = Some closing /\ pos_dict st !! i = None)).
Proof.
  unfold design_and_place_order, bind at 1 2, get.
  destruct (must_close a (pos_dict st !! i)) eqn:Hc.
  - unfold bind at 1 2 3, emit. cbn [now log].
    rewrite place_order_close_type_error.
    intros H. injection H as <- <- <-. cbn [now log].
    split; [reflexivity|]. split; [reflexivity|]. split; [silent_events|].
    split; [discriminate|].
    intros [->|[-> Hp]]; [discriminate|]. rewrite Hp in Hc. discriminate.
  - unfold ret at 1. destruct a as [[s|]|].
    + unfold bind, get, lift, emit.
      destruct (_design_order_limits E st i s) as [l|e].
      * cbn [now log]. destruct (_design_order_units E st i s) as [u|e].
        -- cbn [now log]. rewrite place_order_create_type_error.
           intros H. injection H as <- <- <-. cbn [now log].
           split; [reflexivity|]. split; [reflexivity|].
           split; [silent_events|]. split; [discriminate|].
           intros [H|[H _]]; discriminate.
        -- intros H. injection H as <- <- <-. cbn [now log].
           split; [reflexivity|]. split; [reflexivity|].
           split; [silent_events|]. split; [discriminate|].
           intros [H|[H _]]; discriminate.
      * intros H. injection H as <- <- <-.
        split; [reflexivity|]. split; [reflexivity|].
        split; [silent_events|]. split; [discriminate|].
        intros [H|[H _]]; discriminate.
    + unfold ret. intros H. injection H as <- <- <-.
      split; [reflexivity|]. split; [reflexivity|]. split; [silent_events|].
      split; [|reflexivity]. intros _. right. split; [reflexivity|].
      now apply must_close_closing_flat.
    + unfold ret. intros H. injection H as <- <- <-.
      split; [reflexivity|]. split; [reflexivity|]. split; [silent_events|].
      split; [|reflexivity]. intros _. now left.
Qed.

(** X18.  [design_and_place_order] never changes the trader, takes no time
    and makes no broker call, whatever the action.  It returns normally
    exactly when there is nothing to place: no action, or a closing action
    for an instrument without a position; every other call ends in an
    exception. *)
Theorem design_and_place_order_spec B E i a st w r st' w' :
  design_and_place_order B E i a st w = (r, st', w') ->
  st' = st /\ now w' = now w /\ run_spec w w' [] [] /\
  (r = Ok tt <-> a = None \/ (a = Some closing /\ pos_dict st !! i = None)).
Proof.
  intros H. apply design_and_place_order_run in H.
  destruct H as (Hs & Hn & Hl & Hr).
  split; [exact Hs|]. split; [exact Hn|]. split; [|exact Hr].
  now apply silent_run.
Qed.

Lemma design_and_place_order_spec_witness :
  design_and_place_order example_broker example_collaborators "EUR_USD"
    (Some (Act long)) example_trader start_world
  = (Raise (TypeError "unhashable type: 'dict'"), example_trader,
     snd open_long_run) /\
  now (snd open_long_run) = now start_world /\
  run_spec start_world (snd open_long_run) [] [].
Proof.
  split; [vm_compute; reflexivity|].
  destruct (design_and_place_order_spec example_broker example_collaborators
              "EUR_USD" (Some (Act long)) example_trader start_world
              (Raise (TypeError "unhashable type: 'dict'")) example_trader
              (snd open_long_run))
    as (_ & Hn & Hr & _); [vm_compute; reflexivity|].
  split; [exact Hn | exact Hr].
Defined.

Lemma invoke_loop_ends B E n : forall st w st' w',
  invoke_loop B E n st w = (Ok true, st', w') ->
  exists st0 t0, check_health E st0 t0 = (false, st', now w').
Proof.
  induction n as [|n IH]; intros st w st' w'; [discriminate|].
  cbn [invoke_loop]. unfold bind at 1, run_check_health.
  destruct (check_health E st (now w)) as [[ok st1] t1] eqn:Hh.
  destruct ok.
  - unfold bind.
    destruct (cycle B E st1 (World t1 (log w))) as [[[[]|e] st2] w2];
      [apply IH | discriminate].
  - unfold ret. intros H. injection H as <- <-. cbn. eauto.
Qed.

(** X19.  The loop of [invoke] ends normally only through its health
    check: when [invoke] returns, the trader and the clock are those left by
    a call of [check_health] that answered false. *)
Theorem invoke_ends_on_failed_health_check B E n st w st' w' :
  invoke B E n st w = (Ok true, st', w') ->
  exists st0 t0, check_health E st0 t0 = (false, st', now w').
Proof.
  unfold invoke, bind at 1, print_log, bind, get, emit.
  destruct (quiet st); apply invoke_loop_ends.
Qed.

Lemma invoke_ends_on_failed_health_check_witness :
  invoke example_broker tired_collaborators 5 fresh_trader start_world
  = (Ok true, snd (fst tired_run), snd tired_run) /\
  exists st0 t0,
    check_health tired_collaborators st0 t0
    = (false, snd (fst tired_run), now (snd tired_run)).
Proof.
  split; [vm_compute; reflexivity|].
  apply (invoke_ends_on_failed_health_check example_broker
           tired_collaborators 5 fresh_trader start_world).
  vm_compute. reflexivity.
Defined.


(** ** The detector *)

(** X20.  Calling the detector with [contrary=True] changes nothing but the
    direction: it answers whenever the plain call does, with the same
    estimate, band and granularity, and its action is the opposite one,
    except on an estimate of exactly zero, where both calls say [long] or
    both say nothing. *)
Theorem detect_signal_contrary_flips alpha k sieve mean std h pos sg :
  Ewma.detect_signal alpha k sieve mean std h pos false = Ok sg ->
  exists sg',
    Ewma.detect_signal alpha k sieve mean std h pos true = Ok sg' /\
    Ewma.sig_ewma sg' = Ewma.sig_ewma sg /\
    Ewma.sig_ewmbb sg' = Ewma.sig_ewmbb sg /\
    Ewma.sig_granularity sg' = Ewma.sig_granularity sg /\
    (Ewma.sig_ewma sg == 0 -> Ewma.sig_act sg' = Ewma.sig_act sg) /\
    (~ Ewma.sig_ewma sg == 0 ->
     Ewma.sig_act sg' = opposite <$> Ewma.sig_act sg).
Proof.
  unfold Ewma.detect_signal, Ewma._ewm_stats, rbind.
  destruct (sieve h) as [bf|e]; [|discriminate].
  destruct (mean alpha (Ewma.series bf)) as [m|e];
    [|discriminate].
  intros H. injection H as <-. eexists. split; [reflexivity|].
  cbn [Ewma.sig_ewma Ewma.sig_ewmbb Ewma.sig_granularity Ewma.sig_act
       Ewma.ewma Ewma.ewmbb].
  split; [reflexivity|]. split; [reflexivity|]. split; [reflexivity|].
  destruct (Qltb (m * -1) 0) eqn:E1;
    [apply Qltb_lt in E1 | apply Qltb_ge in E1];
    (destruct (Qltb (m * 1) 0) eqn:E2;
       [apply Qltb_lt in E2 | apply Qltb_ge in E2]);
    (split; intros Hm; try (exfalso; lra));
    destruct (std alpha (Ewma.series bf)) as [sd|]; try reflexivity;
    try (destruct (Qltb _ 0 || Qltb 0 _); reflexivity).
Qed.

Lemma detect_signal_contrary_flips_witness :
  flat_detector 3 [] None = Ok signal_above /\
  exists sg',
    Ewma.detect_signal (1 # 2) 2 (fixed_sieve [3; 3]) Ewma.ewm_mean_last
      flat_std [] None true
    = Ok sg' /\
    Ewma.sig_ewma sg' = Ewma.sig_ewma signal_above /\
    Ewma.sig_ewmbb sg' = Ewma.sig_ewmbb signal_above /\
    Ewma.sig_granularity sg' = Ewma.sig_granularity signal_above /\
    (Ewma.sig_ewma signal_above == 0 ->
     Ewma.sig_act sg' = Ewma.sig_act signal_above) /\
    (~ Ewma.sig_ewma signal_above == 0 ->
     Ewma.sig_act sg' = opposite <$> Ewma.sig_act signal_above).
Proof.
  split; [reflexivity|].
  apply (detect_signal_contrary_flips (1 # 2) 2 (fixed_sieve [3; 3])
           Ewma.ewm_mean_last flat_std [] None signal_above).
  reflexivity.
Defined.

(** X21.  With a negative [sigma_band] and a positive standard deviation the
    band is inverted (its upper bound does not lie above its lower
    bound), and unless their product rounds to
    zero the detector then always answers a direction, the one of the
    estimate: the test that the band excludes zero cannot fail. *)
Theorem detect_signal_negative_band_acts
    alpha k sieve mean std h pos c sg bf sd :
  k < 0 ->
  sieve h = Ok bf ->
  std alpha (Ewma.series bf) = Some sd ->
  0 < sd ->
  Ewma.detect_signal alpha k sieve mean std h pos c = Ok sg ->
  (~ stated_half_width k (fl sd) == 0 ->
   Ewma.sig_act sg =
     Some (Act (if Qltb (Ewma.sig_ewma sg * (if c then -1 else 1)) 0
                then short else long))) /\
  exists lo hi, Ewma.sig_ewmbb sg = Some (lo, hi) /\ hi <= lo.
Proof.
  intros Hk Hs Hsd Hpos H.
  destruct (detect_signal_inv _ _ _ _ _ _ _ _ _ H)
    as (bf' & m & Hs' & _ & Hm & Hbb & Hact).
  rewrite Hs in Hs'. injection Hs' as <-. rewrite Hsd in Hbb.
  destruct (band_ends m k sd) as [Elo Ehi].
  unfold stated_band in Elo, Ehi. cbn [fst snd] in Elo, Ehi.
  set (w := stated_half_width k (fl sd)) in *.
  assert (Hw : w <= 0).
  { unfold w, stated_half_width, fmul. apply fl_nonpos.
    pose proof (fl_nonneg sd ltac:(lra)) as H0.
    assert (H1 : 0 <= fl sd * - k) by (apply Qmult_le_0_compat; lra).
    assert (H2 : fl sd * k == - (fl sd * - k)) by ring. lra. }
  set (lo := fadd (fmul (fmul (-1) sd) k) m) in *.
  set (hi := fadd (fmul (fmul 1 sd) k) m) in *.
  split.
  - intros Hnz. rewrite Hact, Hbb, Hm.
    destruct (Qltb hi 0) eqn:E1; [reflexivity|].
    destruct (Qltb 0 lo) eqn:E2; [reflexivity|].
    apply Qltb_ge in E1, E2. exfalso.
    rewrite Ehi in E1. rewrite Elo in E2. unfold fadd, fsub in E1, E2.
    apply fl_nonneg_inv in E1. apply fl_nonpos_inv in E2.
    assert (Hneg : fl (- (fl sd * k)) == - w).
    { unfold w, stated_half_width, fmul. apply fl_opp. }
    assert (Hp : 0 < fl (- (fl sd * k))) by lra.
    apply fl_pos_min in Hp.
    assert (E : pow2 (-1074) == 2 * pow2 (-1075)) by reflexivity.
    pose proof (pow2_pos (-1075)). lra.
  - exists lo, hi. split; [exact Hbb|].
    rewrite Elo, Ehi. unfold fadd, fsub. apply fl_mono. lra.
Qed.

Lemma detect_signal_negative_band_acts_witness :
  ~ stated_half_width (-2) (fl 1) == 0 /\
  Ewma.sig_act inverted_band_signal = Some (Act long) /\
  exists lo hi,
    Ewma.sig_ewmbb inverted_band_signal = Some (lo, hi) /\ hi <= lo.
Proof.
  split; [discriminate|].
  destruct (detect_signal_negative_band_acts (1 # 2) (-2) (fixed_sieve [0; 0])
              Ewma.ewm_mean_last unit_std [] None false inverted_band_signal
              (Ewma.BestFeature [0; 0] "S5" "S5") 1)
    as [Ha Hb]; try reflexivity.
  split; [apply Ha; discriminate | exact Hb].
Defined.


(** ** Cross pairs and the cache of rates *)

(** X22.  For a cross pair [A_B] (neither currency is the account's) the
    break-even value of a unit goes through the first instrument of
    [inst_dict] made of [B] and the account currency: the ask of the pair
    times the ask of [B_CUR], or times the inverse of the ask of [CUR_B]
    ([ZeroDivisionError] when that ask is zero), the products and the
    inverse being those of doubles. *)
Theorem calculate_bp_value_cross st cur a b rt conv rest rc :
  acc_currency st = Some cur ->
  no_underscore cur = true ->
  no_underscore a = true ->
  no_underscore b = true ->
  a <> cur ->
  b <> cur ->
  List.filter (fun n => same_set (split underscore n) [b; cur])
              (map fst (inst_dict st)) = conv :: rest ->
  rate_dict st !! (a +:+ "_" +:+ b) = Some rt ->
  rate_dict st !! conv = Some rc ->
  (conv = b +:+ "_" +:+ cur ->
   _calculate_bp_value st (a +:+ "_" +:+ b) = Ok (fmul (ask rt) (ask rc))) /\
  (conv = cur +:+ "_" +:+ b ->
   _calculate_bp_value st (a +:+ "_" +:+ b)
   = match truediv 1 (ask rc) with
     | Ok inv => Ok (fmul (ask rt) inv)
     | Raise e => Raise e
     end).
Proof.
  intros Hcur Hn Ha Hb Hac Hbc Hf Hrt Hrc.
  unfold _calculate_bp_value, getitem.
  rewrite !split_pair, !split_no_underscore by assumption.
  cbn [list_getitem nth_error rbind]. rewrite Hcur. cbn [rbind].
  rewrite (proj2 (String.eqb_neq a cur) Hac),
    (proj2 (String.eqb_neq b cur) Hbc), Hf, Hrt.
  cbn [list_getitem nth_error rbind].
  split; intros Hc; rewrite Hc in *;
    rewrite !split_pair, !split_no_underscore by assumption;
    cbn [list_getitem nth_error rbind].
  - rewrite String.eqb_refl, Hrc. reflexivity.
  - rewrite (proj2 (String.eqb_neq b cur) Hbc), Hrc. cbn [rbind].
    unfold rbind. reflexivity.
Qed.

Lemma calculate_bp_value_cross_witness :
  _calculate_bp_value cross_trader "EUR_JPY"
  = Ok (fmul 160 (fl (1 / 150))).
Proof.
  exact (proj2 (calculate_bp_value_cross cross_trader "USD" "EUR" "JPY"
                  (Rate 160 160) "USD_JPY" [] (Rate 150 150)
                  eq_refl eq_refl eq_refl eq_refl
                  ltac:(discriminate) ltac:(discriminate)
                  eq_refl eq_refl eq_refl) eq_refl).
Defined.

Lemma df_tail_spec {A} (n : Z) (l : list A) :
  (0 <= n)%Z ->
  df_tail n l `suffix_of` l /\
  length (df_tail n l) = Nat.min (Z.to_nat n) (length l).
Proof.
  intros Hn. unfold df_tail.
  destruct (Z.eqb_spec n 0) as [->|Hne].
  - split; [apply suffix_nil | reflexivity].
  - destruct (Z.ltb_spec 0 n); [|lia].
    split; [apply suffix_drop|]. rewrite length_drop. lia.
Qed.

(** X23.  [update_caches] with a non-negative cache length: an empty frame
    raises [IndexError] and an instrument without cache [KeyError];
    otherwise only the cache of the frame's instrument changes, to the latest
    rows of the old cache followed by the frame (a suffix of them), at most
    [n_cache] of them, so that a full cache stays full. *)
Theorem update_caches_keeps_latest n caches df :
  (0 <= n)%Z ->
  (df = [] -> update_caches n caches df = Raise IndexError) /\
  (forall r, last df = Some r -> caches !! row_instrument r = None ->
   update_caches n caches df = Raise (KeyError (row_instrument r))) /\
  (forall r old, last df = Some r -> caches !! row_instrument r = Some old ->
   exists new,
     update_caches n caches df = Ok (<[row_instrument r := new]> caches) /\
     new `suffix_of` (old ++ df) /\
     length new = Nat.min (Z.to_nat n) (length old + length df) /\
     (length old = Z.to_nat n -> length new = Z.to_nat n)).
Proof.
  intros Hn. unfold update_caches, getitem. split; [|split].
  - intros ->. reflexivity.
  - intros r Hl Hc. rewrite Hl. cbn [rbind]. rewrite Hc. reflexivity.
  - intros r old Hl Hc. rewrite Hl. cbn [rbind]. rewrite Hc. cbn [rbind].
    eexists. split; [reflexivity|].
    destruct (df_tail_spec n (old ++ df) Hn) as [Hs Hlen].
    split; [exact Hs|]. rewrite Hlen, length_app.
    split; [reflexivity | lia].
Qed.

Lemma update_caches_keeps_latest_witness :
  (0 <= 3)%Z /\
  exists new,
    update_caches 3 example_caches new_rates
    = Ok (<["EUR_USD" := new]> example_caches) /\
    new `suffix_of`
      ([RateRow "EUR_USD" 1 2; RateRow "EUR_USD" 2 3] ++ new_rates) /\
    length new = Nat.min (Z.to_nat 3) (2 + length new_rates) /\
    (2%nat = Z.to_nat 3 -> length new = Z.to_nat 3).
Proof.
  split; [lia|].
  destruct (update_caches_keeps_latest 3 example_caches new_rates)
    as (_ & _ & H); [lia|].
  apply (H (RateRow "EUR_USD" 4 5)
           [RateRow "EUR_USD" 1 2; RateRow "EUR_USD" 2 3]); reflexivity.
Defined.


(** ** The deprecated trader and the closing command *)

(** The size is the floor of a quotient of doubles: with a ticket of 1 % of
    a margin of 330, an ask of 1.1 and a margin rate of 2 % the quotient
    rounds to 150 and the size is 150 units, although the quotient of the
    same doubles taken as exact numbers is less than 150. *)
Lemma calc_units_of_doubles :
  Deprecated._calc_units (fun z => z) old_trader
    (Deprecated.RateInfo "EUR_USD" (fl (1 # 50)) 1000) old_prices
    (Deprecated.Margin 330 0) = Ok 150%Z /\
  fl (1 # 100) * 330 / (fl (11 # 10) * fl (1 # 50)) < 150.
Proof. split; vm_compute; reflexivity. Qed.

(** X24.  The deprecated [_calc_units]: with a positive margin per unit, a
    non-negative ticket margin and non-negative maximum trade units, and
    where the 32-bit conversion is exact, it returns between zero and
    [maxTradeUnits] units whose margin does not exceed the ticket margin by
    more than one part in [2^53] (the quotient of the two doubles is rounded
    to a double and then down); a non-zero size is returned only if the
    ticket margin is strictly less than the available margin minus the
    reserve, as doubles. *)
Theorem calc_units_within_margin np_int32 T rate prices m bp t p :
  Deprecated.calc_bp T (Deprecated.ri_instrument rate) prices = Ok bp ->
  Deprecated.margin_ratio T !! "ticket" = Some t ->
  Deprecated.margin_ratio T !! "preserve" = Some p ->
  let total := fadd (Deprecated.avail m) (Deprecated.used m) in
  let ticket := fmul t total in
  let per_unit := fmul bp (Deprecated.ri_marginRate rate) in
  0 < per_unit ->
  0 <= ticket ->
  (0 <= Deprecated.ri_maxTradeUnits rate)%Z ->
  np_int32 (Qfloor (fl (ticket / per_unit)))
    = Qfloor (fl (ticket / per_unit)) ->
  exists u,
    Deprecated._calc_units np_int32 T rate prices m = Ok u /\
    (0 <= u <= Deprecated.ri_maxTradeUnits rate)%Z /\
    (u <= Qfloor (fl (ticket / per_unit)))%Z /\
    inject_Z u * per_unit <= ticket * (1 + pow2 (-53)) /\
    (u <> 0%Z ->
     ticket < fsub (Deprecated.avail m) (fmul p total)).
Proof.
  intros Hbp Ht Hp total ticket per_unit Hper Hticket Hmax H32.
  unfold Deprecated._calc_units, getitem. rewrite Hbp. cbn [rbind].
  rewrite !lookup_fmap, Ht, Hp. cbn [fmap option_fmap option_map rbind].
  fold total. fold ticket. fold per_unit.
  assert (Hnz : ~ per_unit == 0) by (intros Hz; rewrite Hz in Hper; lra).
  set (q := ticket / per_unit) in *.
  assert (Hq : 0 <= q).
  { unfold q, Qdiv. apply Qmult_le_0_compat; [exact Hticket|].
    apply Qlt_le_weak, Qinv_lt_0_compat, Hper. }
  assert (Hf0 : (0 <= Qfloor (fl q))%Z).
  { change 0%Z with (Qfloor 0). apply Qfloor_resp_le. now apply fl_nonneg. }
  assert (Hfq : inject_Z (Qfloor (fl q)) * per_unit
                <= ticket * (1 + pow2 (-53))).
  { assert (Hqp : q * (1 + pow2 (-53)) * per_unit
                  == ticket * (1 + pow2 (-53))).
    { unfold q. field. exact Hnz. }
    rewrite <- Hqp. apply Qmult_le_compat_r; [|lra].
    now apply fl_floor_bound. }
  assert (Htp : 0 <= ticket * (1 + pow2 (-53))).
  { apply Qmult_le_0_compat; [exact Hticket|].
    pose proof (pow2_pos (-53)). lra. }
  destruct (Qltb ticket (fsub (Deprecated.avail m) (fmul p total))) eqn:E.
  - apply Qltb_lt in E.
    rewrite truediv_ok by exact Hnz.
    cbn [rbind]. fold q. rewrite H32.
    destruct (Z.leb_spec (Qfloor (fl q)) (Deprecated.ri_maxTradeUnits rate))
      as [Hle|Hgt].
    + eexists. split; [reflexivity|]. split; [lia|]. split; [lia|].
      split; [exact Hfq|]. intros _. exact E.
    + assert (Hmq : inject_Z (Deprecated.ri_maxTradeUnits rate) * per_unit
                    <= inject_Z (Qfloor (fl q)) * per_unit).
      { apply Qmult_le_compat_r; [|lra]. rewrite <- Zle_Qle. lia. }
      eexists. split; [reflexivity|]. split; [lia|]. split; [lia|].
      split; [lra|]. intros _. exact E.
  - eexists. split; [reflexivity|]. split; [lia|]. split; [exact Hf0|].
    split; [|intros H; now elim H].
    change (inject_Z 0) with 0. lra.
Qed.

Lemma calc_units_within_margin_witness :
  Deprecated._calc_units (fun z => z) old_trader old_rate old_prices
    old_margin = Ok 227%Z /\
  exists u,
    Deprecated._calc_units (fun z => z) old_trader old_rate old_prices
      old_margin = Ok u /\
    (0 <= u <= 1000)%Z /\
    (u <= Qfloor (fl (fmul (fl (1 # 100)) (fadd 1000 0)
                      / fmul (fl (11 # 10)) (fl (1 # 25)))))%Z /\
    inject_Z u * fmul (fl (11 # 10)) (fl (1 # 25))
      <= fmul (fl (1 # 100)) (fadd 1000 0) * (1 + pow2 (-53)) /\
    (u <> 0%Z ->
     fmul (fl (1 # 100)) (fadd 1000 0)
       < fsub 1000 (fmul (fl (1 # 25)) (fadd 1000 0))).
Proof.
  split; [vm_compute; reflexivity|].
  apply (calc_units_within_margin (fun z => z) old_trader old_rate
           old_prices old_margin (fl (11 # 10)) (fl (1 # 100)) (fl (1 # 25)));
    vm_compute; reflexivity || discriminate.
Defined.

(** X25.  The deprecated [_calc_units] raises [FractRuntimeError]
    (['invalid instruments']) for a cross pair [A_B] when neither [B_CUR]
    nor [CUR_B] is tradable, before any price is read. *)
Theorem calc_units_invalid_instruments np_int32 T rate prices m a b :
  let cur := Deprecated.account_currency T in
  Deprecated.ri_instrument rate = a +:+ "_" +:+ b ->
  no_underscore a = true ->
  no_underscore b = true ->
  a <> cur ->
  b <> cur ->
  existsb (String.eqb (b +:+ "_" +:+ cur)) (Deprecated.tradable_instruments T)
    = false ->
  existsb (String.eqb (cur +:+ "_" +:+ b)) (Deprecated.tradable_instruments T)
    = false ->
  Deprecated._calc_units np_int32 T rate prices m
  = Raise (FractRuntimeError "invalid instruments").
Proof.
  intros cur Hi Ha Hb Hac Hbc H0 H1.
  unfold Deprecated._calc_units, Deprecated.calc_bp. rewrite Hi.
  rewrite split_pair, split_no_underscore by assumption.
  cbn [list_getitem nth_error rbind]. fold cur.
  rewrite (proj2 (String.eqb_neq a cur) Hac),
    (proj2 (String.eqb_neq b cur) Hbc), H0, H1.
  reflexivity.
Qed.

Lemma calc_units_invalid_instruments_witness :
  Deprecated._calc_units (fun z => z) old_trader
    (Deprecated.RateInfo "EUR_JPY" (fl (1 # 25)) 1000) old_prices old_margin
  = Raise (FractRuntimeError "invalid instruments").
Proof.
  apply (calc_units_invalid_instruments (fun z => z) old_trader
           (Deprecated.RateInfo "EUR_JPY" (fl (1 # 25)) 1000) old_prices
           old_margin "EUR" "JPY");
    reflexivity || discriminate.
Defined.

Lemma close_each_ok A insts : forall tr,
  (forall tr i, Order.close_position A tr i = Ok tt) ->
  Order.close_each A insts tr
  = (Ok tt, map Order.Closed (rev insts) ++ tr).
Proof.
  induction insts as [|i rest IH]; intros tr Hok; [reflexivity|].
  cbn [Order.close_each]. rewrite Hok, IH by exact Hok.
  cbn [rev]. rewrite map_app, <- app_assoc. reflexivity.
Qed.

Lemma close_each_raise A insts : forall tr e tr',
  Order.close_each A insts tr = (Raise e, tr') ->
  exists i done,
    tr' = Order.Closed i :: map Order.Closed (rev done) ++ tr /\
    Order.close_position A (map Order.Closed (rev done) ++ tr) i = Raise e /\
    (done ++ [i]) `prefix_of` insts.
Proof.
  induction insts as [|i rest IH]; intros tr e tr'; [discriminate|].
  cbn [Order.close_each].
  destruct (Order.close_position A tr i) as [[]|e0] eqn:Hc.
  - intros H. apply IH in H. destruct H as (j & done & -> & Hj & Hp).
    exists j, (i :: done). cbn [rev]. rewrite map_app, <- app_assoc.
    split; [reflexivity|]. split; [exact Hj|].
    now apply prefix_cons.
  - intros H. injection H as <- <-. exists i, []. cbn.
    split; [reflexivity|]. split; [exact Hc|].
    apply prefix_cons, prefix_nil.
Qed.

(** X26.  [close_positions], when every closing call succeeds and whatever
    the order in which a set is iterated: with instruments given it asks for
    no positions and closes each distinct instrument exactly once, then
    prints that all positions are closed; with none given it asks for the
    positions once and closes each distinct instrument of them once; with
    none given and none held it closes nothing and prints that there is
    nothing to close. *)
Theorem close_positions_closes_each_once set_order A instruments :
  (forall l, NoDup (set_order l) /\ forall x, x ∈ set_order l <-> x ∈ l) ->
  (forall tr i, Order.close_position A tr i = Ok tt) ->
  let closing insts asked :=
    Order.close_positions set_order A instruments
    = (Ok tt,
       Order.Printed "All the positions closed."
         :: map Order.Closed (rev (set_order insts)) ++ asked) /\
    NoDup (set_order insts) /\
    forall i, i ∈ set_order insts <-> i ∈ insts in
  (instruments <> [] -> closing instruments []) /\
  (forall ps, instruments = [] -> Order.get_positions A [] = Ok ps ->
   ps <> [] -> closing ps [Order.GotPositions]) /\
  (instruments = [] -> Order.get_positions A [] = Ok [] ->
   Order.close_positions set_order A instruments
   = (Ok tt, [Order.Printed "No positions to close."; Order.GotPositions])).
Proof.
  intros Hset Hok closing.
  assert (Hne : forall l, l <> [] -> exists i rest, set_order l = i :: rest).
  { intros l Hl. destruct (set_order l) as [|i rest] eqn:E; [|eauto].
    destruct l as [|x l]; [congruence|].
    assert (Hx : x ∈ set_order (x :: l))
      by (apply (proj2 (proj2 (Hset (x :: l)) x)); left).
    rewrite E in Hx. now apply elem_of_nil in Hx. }
  assert (Hnil : set_order [] = []).
  { destruct (set_order []) as [|i rest] eqn:E; [reflexivity|].
    assert (Hi : i ∈ set_order []) by (rewrite E; left).
    apply (proj1 (proj2 (Hset []) i)) in Hi. now apply elem_of_nil in Hi. }
  split; [|split].
  - intros Hi. unfold closing, Order.close_positions.
    destruct instruments as [|x l]; [congruence|].
    destruct (Hne (x :: l) Hi) as (i & rest & E).
    split; [|apply Hset].
    rewrite E, close_each_ok by exact Hok. reflexivity.
  - intros ps -> Hps Hp. unfold closing, Order.close_positions.
    rewrite Hps. destruct (Hne ps Hp) as (i & rest & E).
    split; [|apply Hset].
    rewrite E, close_each_ok by exact Hok. reflexivity.
  - intros -> Hps. unfold Order.close_positions. rewrite Hps, Hnil.
    reflexivity.
Qed.

Lemma remove_dups_set (l : list string) :
  NoDup (remove_dups l) /\ forall x, x ∈ remove_dups l <-> x ∈ l.
Proof.
  split; [apply NoDup_remove_dups | intros x; apply elem_of_remove_dups].
Qed.

Lemma close_positions_closes_each_once_witness :
  Order.close_positions remove_dups easy_api
    ["USD_JPY"; "EUR_USD"; "USD_JPY"]
  = (Ok tt,
     [Order.Printed "All the positions closed."; Order.Closed "USD_JPY";
      Order.Closed "EUR_USD"]).
Proof.
  destruct (close_positions_closes_each_once remove_dups easy_api
              ["USD_JPY"; "EUR_USD"; "USD_JPY"] remove_dups_set
              (fun _ _ => eq_refl)) as [H _].
  destruct (H ltac:(discriminate)) as [Hrun _]. exact Hrun.
Defined.

(** X27.  When [close_positions] raises, nothing has been printed, and the
    exception is that of the last call made: the request for the positions,
    or a closing call, after which no further position is closed. *)
Theorem close_positions_failure set_order A instruments e tr :
  Order.close_positions set_order A instruments = (Raise e, tr) ->
  (forall msg, Order.Printed msg ∉ tr) /\
  ((instruments = [] /\ Order.get_positions A [] = Raise e /\
    tr = [Order.GotPositions]) \/
   exists i earlier,
     tr = Order.Closed i :: earlier /\
     Order.close_position A earlier i = Raise e).
Proof.
  unfold Order.close_positions.
  destruct instruments as [|x l].
  - destruct (Order.get_positions A []) as [ps|e0] eqn:Hg.
    + destruct (set_order ps) as [|i rest]; [discriminate|].
      destruct (Order.close_each A (i :: rest) [Order.GotPositions])
        as [[[]|e1] tr1] eqn:Hc; [discriminate|].
      intros H. injection H as <- <-.
      destruct (close_each_raise _ _ _ _ _ Hc) as (j & done & -> & Hj & _).
      split.
      * intros msg Hin. apply elem_of_cons in Hin.
        destruct Hin as [Hin|Hin]; [discriminate|].
        apply elem_of_app in Hin. destruct Hin as [Hin|Hin].
        -- apply list_elem_of_fmap in Hin. destruct Hin as (y & Hy & _).
           discriminate.
        -- apply list_elem_of_singleton in Hin. discriminate.
      * right. eauto.
    + intros H. injection H as <- <-. split.
      * intros msg Hin. apply list_elem_of_singleton in Hin. discriminate.
      * left. auto.
  - destruct (set_order (x :: l)) as [|i rest]; [discriminate|].
    destruct (Order.close_each A (i :: rest) []) as [[[]|e1] tr1] eqn:Hc;
      [discriminate|].
    intros H. injection H as <- <-.
    destruct (close_each_raise _ _ _ _ _ Hc) as (j & done & -> & Hj & _).
    split.
    + intros msg Hin. apply elem_of_cons in Hin.
      destruct Hin as [Hin|Hin]; [discriminate|].
      apply elem_of_app in Hin. destruct Hin as [Hin|Hin].
      * apply list_elem_of_fmap in Hin. destruct Hin as (y & Hy & _).
        discriminate.
      * now apply elem_of_nil in Hin.
    + right. eauto.
Qed.

Lemma close_positions_failure_witness :
  Order.close_positions remove_dups failing_api ["EUR_USD"]
  = (Raise (BrokerError "rejected"), [Order.Closed "EUR_USD"]) /\
  forall msg, Order.Printed msg ∉ [Order.Closed "EUR_USD"].
Proof.
  split; [reflexivity|].
  exact (proj1 (close_positions_failure remove_dups failing_api ["EUR_USD"]
                  (BrokerError "rejected") [Order.Closed "EUR_USD"]
                  eq_refl)).
Defined.
